(** * FileFlow: scan, classify, de-duplicate, move

    A shallow embedding of the file-organisation engine of
    [src/Logic_FileFlow.py] (class [FileFlowMobileEnhanced]) together with the
    properties its design document states about it.

    The program talks to the file system through [pathlib], [shutil] and
    [hashlib], and to the user through the console.  Both are explicit here:
    the file system is a tree of directories and files that every operation
    receives and returns, and what a function prints is a list of messages
    that it returns next to its result.

    Modelling conventions.
    - A [Path] is the list of its components; [p / s] appends one component.
    - A Python [str] is a [string] of single-byte characters; [str.lower]
      folds the letters A-Z only.
    - The trees that are moved in, [node], have no symbolic links, and
      search permission on their directories is always granted; a directory
      can be unreadable (listing it raises [PermissionError]) or unwritable
      (creating, removing or renaming one of its entries raises
      [PermissionError]).
    - The scanner, which only reads, is modelled a second time on trees
      that have symbolic links and directories without search permission
      (module [Posix]), where the tests [is_dir], [is_file] and [exists]
      can raise; the two scanners agree on the trees of the first kind.
    - A thread pool runs each submitted task atomically; the order in which
      the tasks complete is given by a scheduler, which may be any
      permutation of the submitted work.
    - The [while] loops of [organize_file] have no bound in the source; they
      take fuel here, and [None] means that the fuel ran out. *)

From Stdlib Require Import Strings.Ascii Strings.String Strings.Byte.
From Stdlib Require Import Arith.PeanoNat NArith.BinNat Lia.
From stdpp Require Import base option list strings pretty gmap.

Local Open Scope string_scope.
Local Open Scope list_scope.

(* ================================================================== *)
(** * Python strings *)
(* ================================================================== *)

Module PyStr.

(** [str.lower] on one character: A-Z are mapped to a-z. *)
Definition lower_char (c : ascii) : ascii :=
  let n := nat_of_ascii c in
  if (65 <=? n)%nat && (n <=? 90)%nat then ascii_of_nat (n + 32) else c.

(** [s.lower()] *)
Fixpoint lower (s : string) : string :=
  match s with
  | EmptyString => EmptyString
  | String c s' => String (lower_char c) (lower s')
  end.

(** [s.startswith(p)] *)
Fixpoint startswith (s p : string) {struct p} : bool :=
  match p, s with
  | EmptyString, _ => true
  | String _ _, EmptyString => false
  | String a p', String b s' => if decide (a = b) then startswith s' p' else false
  end.

(** [s.endswith(e)]: [s] is [e], or the tail of [s] ends with [e]. *)
Fixpoint endswith (s e : string) : bool :=
  if decide (s = e) then true
  else match s with
       | EmptyString => false
       | String _ s' => endswith s' e
       end.

(** [p in s]: [p] occurs in [s] as a contiguous substring. *)
Fixpoint contains (s p : string) : bool :=
  if startswith s p then true
  else match s with
       | EmptyString => false
       | String _ s' => contains s' p
       end.

(** [s.rfind(c)]: index of the last occurrence of [c]; [None] is -1. *)
Fixpoint rfind (c : ascii) (s : string) : option nat :=
  match s with
  | EmptyString => None
  | String a s' =>
      match rfind c s' with
      | Some i => Some (S i)
      | None => if decide (a = c) then Some 0 else None
      end
  end.

(** [bool(s)]: a string is true when it is not empty. *)
Definition truthy (s : string) : bool :=
  match s with EmptyString => false | String _ _ => true end.

(** [x in xs] for a list of strings. *)
Definition mem (x : string) (xs : list string) : bool :=
  bool_decide (x ∈ xs).

(** [any(f(x) for x in xs)] *)
Definition any {A} (f : A -> bool) (xs : list A) : bool := existsb f xs.

End PyStr.

(* ================================================================== *)
(** * Paths (pathlib) *)
(* ================================================================== *)

Definition Path := list string.

Module PurePath.

(** [p / s] for a single component [s]. *)
Definition joinpath (p : Path) (s : string) : Path := p ++ [s].

(** [p.name]: the final component. *)
Definition name (p : Path) : string := List.last p "".

(** [p.parent] *)
Definition parent (p : Path) : Path := List.removelast p.

(** The test [0 < i < len(name) - 1] that [suffix] and [stem] share, on the
    result of [name.rfind('.')]. *)
Definition dot_index (nm : string) : option nat :=
  match PyStr.rfind "."%char nm with
  | Some i =>
      if (0 <? i)%nat && (i <? String.length nm - 1)%nat then Some i else None
  | None => None
  end.

(** [suffix] of a file name: [name[i:]], or [''] . *)
Definition suffix_of (nm : string) : string :=
  match dot_index nm with
  | Some i => String.substring i (String.length nm - i) nm
  | None => ""
  end.

(** [stem] of a file name: [name[:i]], or the whole name. *)
Definition stem_of (nm : string) : string :=
  match dot_index nm with
  | Some i => String.substring 0 i nm
  | None => nm
  end.

Definition suffix (p : Path) : string := suffix_of (name p).
Definition stem (p : Path) : string := stem_of (name p).

End PurePath.

Notation "p // s" := (PurePath.joinpath p s) (at level 40, left associativity).

(* ================================================================== *)
(** * The file system *)
(* ================================================================== *)

(** A file has its bytes and a read permission; a directory has a list
    permission, a write permission and its entries by name. *)
#[warnings="-register-all"]
Inductive node : Type :=
| File (content : list byte) (readable : bool)
| Dir (listable writable : bool) (entries : list (string * node)).

(** The exceptions of the operations used by the program. *)
Inductive exn : Type :=
| FileNotFoundError
| FileExistsError
| PermissionError
| NotADirectoryError
| IsADirectoryError
| ShutilError.

(** The value of a call that may raise. *)
Inductive result (A : Type) : Type :=
| Ok (a : A)
| Raise (e : exn).
Arguments Ok {A} a.
Arguments Raise {A} e.

(** The attributes of a node. *)
Inductive info : Type :=
| IFile (content : list byte) (readable : bool)
| IDir (listable writable : bool).

Module Fs.

(** Entry [x] of a directory listing. *)
Fixpoint assoc (x : string) (es : list (string * node)) : option node :=
  match es with
  | [] => None
  | (y, c) :: es' => if decide (x = y) then Some c else assoc x es'
  end.

(** The node at path [p] below [n]. *)
Fixpoint lookup (n : node) (p : Path) : option node :=
  match p with
  | [] => Some n
  | x :: p' =>
      match n with
      | Dir _ _ es =>
          match assoc x es with
          | Some c => lookup c p'
          | None => None
          end
      | File _ _ => None
      end
  end.

(** [os.path.exists], [Path.exists] *)
Definition exists_ (fs : node) (p : Path) : bool :=
  match lookup fs p with Some _ => true | None => false end.

(** [Path.is_file] *)
Definition is_file (fs : node) (p : Path) : bool :=
  match lookup fs p with Some (File _ _) => true | _ => false end.

(** [Path.is_dir], [os.path.isdir] *)
Definition is_dir (fs : node) (p : Path) : bool :=
  match lookup fs p with Some (Dir _ _ _) => true | _ => false end.

(** What [stat] tells about a node: its kind and permissions, and for a
    file its bytes; not the entries of a directory. *)
Definition info_of (n : node) : info :=
  match n with
  | File c r => IFile c r
  | Dir l w _ => IDir l w
  end.

Definition stat (fs : node) (p : Path) : option info :=
  info_of <$> lookup fs p.

(** [Path.stat().st_size] of a file: the number of its bytes. *)
Definition st_size (fs : node) (p : Path) : result nat :=
  match lookup fs p with
  | Some (File c _) => Ok (length c)
  | Some (Dir _ _ _) => Ok 0
  | None => Raise FileNotFoundError
  end.

(** Entry [x] of a listing replaced by [g] of it. *)
Fixpoint map_child (x : string) (g : node -> node)
    (es : list (string * node)) : list (string * node) :=
  match es with
  | [] => []
  | (y, c) :: es' =>
      if decide (x = y) then (y, g c) :: es' else (y, c) :: map_child x g es'
  end.

(** The listing of the directory at [p] replaced by [g] of it. *)
Fixpoint modify_dir (g : list (string * node) -> list (string * node))
    (p : Path) (n : node) : node :=
  match n with
  | File _ _ => n
  | Dir l w es =>
      match p with
      | [] => Dir l w (g es)
      | x :: p' => Dir l w (map_child x (modify_dir g p') es)
      end
  end.

(** Entry [x] set to [c]: replaced where it is, or added at the end. *)
Fixpoint set_entry (x : string) (c : node)
    (es : list (string * node)) : list (string * node) :=
  match es with
  | [] => [(x, c)]
  | (y, d) :: es' =>
      if decide (x = y) then (x, c) :: es' else (y, d) :: set_entry x c es'
  end.

(** Entry [x] removed. *)
Fixpoint del_entry (x : string)
    (es : list (string * node)) : list (string * node) :=
  match es with
  | [] => []
  | (y, d) :: es' =>
      if decide (x = y) then del_entry x es' else (y, d) :: del_entry x es'
  end.

(** Node [c] put at path [p]; node at path [p] taken away. *)
Definition put (p : Path) (c : node) (fs : node) : node :=
  modify_dir (set_entry (PurePath.name p) c) (PurePath.parent p) fs.

Definition take (p : Path) (fs : node) : node :=
  modify_dir (del_entry (PurePath.name p)) (PurePath.parent p) fs.

(** Whether an entry named as [p] may be created in, or removed from, the
    directory that holds it, and the exception raised when it may not. *)
Definition parent_check (fs : node) (p : Path) : result unit :=
  match p with
  | [] => Raise PermissionError
  | _ :: _ =>
      match lookup fs (PurePath.parent p) with
      | Some (Dir _ true _) => Ok tt
      | Some (Dir _ false _) => Raise PermissionError
      | Some (File _ _) => Raise NotADirectoryError
      | None => Raise FileNotFoundError
      end
  end.

(** [Path.mkdir(exist_ok=True)]: an existing directory is left alone; any
    other failure of [os.mkdir] is raised. *)
Definition mkdir_exist_ok (fs : node) (p : Path) : result node :=
  match lookup fs p with
  | Some (Dir _ _ _) => Ok fs
  | Some (File _ _) => Raise FileExistsError
  | None =>
      match parent_check fs p with
      | Ok _ => Ok (put p (Dir true true []) fs)
      | Raise e => Raise e
      end
  end.

(** [Path.unlink], [os.unlink] *)
Definition unlink (fs : node) (p : Path) : result node :=
  match lookup fs p with
  | None => Raise FileNotFoundError
  | Some (Dir _ _ _) => Raise IsADirectoryError
  | Some (File _ _) =>
      match parent_check fs p with
      | Ok _ => Ok (take p fs)
      | Raise e => Raise e
      end
  end.

(** [os.rename(src, dst)]: [dst], when it is a file, is replaced. *)
Definition rename (fs : node) (src dst : Path) : result node :=
  match lookup fs src with
  | None => Raise FileNotFoundError
  | Some n =>
      match parent_check fs src, parent_check fs dst with
      | Ok _, Ok _ =>
          match n, lookup fs dst with
          | _, Some (Dir _ _ _) => Raise IsADirectoryError
          | Dir _ _ _, Some (File _ _) => Raise NotADirectoryError
          | _, _ => Ok (put dst n (take src fs))
          end
      | Raise e, _ => Raise e
      | _, Raise e => Raise e
      end
  end.

(** [shutil.copy2(src, dst)] of a regular file. *)
Definition copy2 (fs : node) (src dst : Path) : result node :=
  match lookup fs src with
  | None => Raise FileNotFoundError
  | Some (Dir _ _ _) => Raise IsADirectoryError
  | Some (File _ false) => Raise PermissionError
  | Some (File c true) =>
      match lookup fs dst with
      | Some (Dir _ _ _) => Raise IsADirectoryError
      | Some (File _ _) => Ok (put dst (File c true) fs)
      | None =>
          match parent_check fs dst with
          | Ok _ => Ok (put dst (File c true) fs)
          | Raise e => Raise e
          end
      end
  end.

(** [shutil.move(src, dst)].  A destination that is a directory receives
    the source under its own name, unless that name is taken.  When
    [os.rename] fails, a regular file is copied and then unlinked; the
    second step can fail after the first has succeeded, so the file system
    is returned also when the call raises.  A directory is only ever moved
    by renaming here. *)
Definition move (fs : node) (src dst : Path) : node * result unit :=
  let real_dst := if is_dir fs dst then dst // PurePath.name src else dst in
  if is_dir fs dst && exists_ fs real_dst then (fs, Raise ShutilError)
  else
    match rename fs src real_dst with
    | Ok fs' => (fs', Ok tt)
    | Raise e =>
        if is_dir fs src then (fs, Raise e)
        else
          match copy2 fs src real_dst with
          | Raise e' => (fs, Raise e')
          | Ok fs1 =>
              match unlink fs1 src with
              | Ok fs2 => (fs2, Ok tt)
              | Raise e' => (fs1, Raise e')
              end
          end
    end.

(** [Path.iterdir]: the paths of the entries of a directory. *)
Definition iterdir (fs : node) (d : Path) : result (list Path) :=
  match lookup fs d with
  | Some (Dir true _ es) => Ok (map (fun e => d // e.1) es)
  | Some (Dir false _ _) => Raise PermissionError
  | Some (File _ _) => Raise NotADirectoryError
  | None => Raise FileNotFoundError
  end.

(** The directories that [rglob] visits from the node [n] at path [p]:
    [p] itself, then, entry by entry, those below each sub-directory.  A
    directory that cannot be listed is visited and not entered. *)
Fixpoint iterate_directories (p : Path) (n : node) : list Path :=
  match n with
  | File _ _ => []
  | Dir false _ _ => [p]
  | Dir true _ es =>
      p :: flat_map (fun e => let '(x, c) := e in
                              iterate_directories (p // x) c) es
  end.

(** [Path.rglob("*")]: for each visited directory in turn, the paths of
    its entries; permission errors are swallowed. *)
Definition rglob (fs : node) (root : Path) : list Path :=
  match lookup fs root with
  | Some n =>
      flat_map (fun d => match iterdir fs d with Ok ps => ps | Raise _ => [] end)
               (iterate_directories root n)
  | None => []
  end.

(** [open(p, "rb")] followed by reading to the end. *)
Definition read_bytes (fs : node) (p : Path) : result (list byte) :=
  match lookup fs p with
  | Some (File c true) => Ok c
  | Some (File _ false) => Raise PermissionError
  | Some (Dir _ _ _) => Raise IsADirectoryError
  | None => Raise FileNotFoundError
  end.

(** No directory lists a name twice. *)
Fixpoint wf (n : node) : bool :=
  match n with
  | File _ _ => true
  | Dir _ _ es =>
      bool_decide (NoDup (map fst es))
      && (fix wf_entries (es : list (string * node)) : bool :=
            match es with
            | [] => true
            | (_, c) :: es' => wf c && wf_entries es'
            end) es
  end.

End Fs.

(* ================================================================== *)
(** * The thread pool *)
(* ================================================================== *)

(** [concurrent.futures.as_completed]: the submitted tasks come back in an
    order that the program does not control.  Each task runs atomically, in
    that order. *)
Class Scheduler : Type := {
  as_completed : forall {A : Type}, list A -> list A;
  as_completed_perm : forall (A : Type) (l : list A), as_completed l ≡ₚ l
}.

(** Tasks complete in the order of submission. *)
Definition fifo_scheduler : Scheduler :=
  {| as_completed := fun A l => l;
     as_completed_perm := fun A l => reflexivity l |}.

(** Tasks complete in the opposite order. *)
Definition lifo_scheduler : Scheduler :=
  {| as_completed := fun A l => reverse l;
     as_completed_perm := fun A l => reverse_Permutation l |}.

(* ================================================================== *)
(** * The console *)
(* ================================================================== *)

(** What the program prints.  Progress bars and the texts of prompts are
    left out; [rich] says which of the two renderings printed the line where
    they differ in content. *)
Inductive message : Type :=
| MsgPathMissing (p : Path)
| MsgNoFilesToOrganize
| MsgFoundToOrganize (total_files : nat)
| MsgOperationCancelled
| MsgResultsTable (total_files organized_count error_count : nat)
| MsgOrganized (organized_count : nat)
| MsgErrorsEncountered (error_count : nat)
| MsgNoFilesFound
| MsgAnalyzing (total_files : nat)
| MsgNoDuplicates
| MsgDuplicatesFound (sets total_duplicates : nat)
| MsgDuplicateSet (index : nat) (keep : Path) (dupes : list Path) (file_size : nat)
| MsgSpaceWasted (duplicate_size : nat)
| MsgRemoveFailed (p : Path) (e : exn)
| MsgRemoved (removed : nat)
| MsgFreed (bytes : nat)
| MsgRemovalCancelled
| MsgNoTempFiles
| MsgTempFound (count total_size : nat)
| MsgCleanupCancelled
| MsgTempDeleted (deleted_count : nat).

(* ================================================================== *)
(** * The engine *)
(* ================================================================== *)

(** The fields of [self] that the engine reads. *)
Record FileFlow : Type := {
  file_categories : list (string * list string);
  temp_extensions : list string
}.

(** [FileFlowMobileEnhanced.__init__] *)
Definition init : FileFlow := {|
  file_categories :=
    [ ("Images", [".jpg"; ".jpeg"; ".png"; ".gif"; ".bmp"; ".webp"; ".heic";
                  ".svg"; ".tiff"; ".ico"]);
      ("Videos", [".mp4"; ".avi"; ".mkv"; ".mov"; ".wmv"; ".flv"; ".webm";
                  ".m4v"; ".3gp"; ".ogv"]);
      ("Audio", [".mp3"; ".wav"; ".flac"; ".aac"; ".ogg"; ".m4a"; ".wma";
                 ".opus"]);
      ("Documents", [".pdf"; ".doc"; ".docx"; ".txt"; ".rtf"; ".odt"; ".xls";
                     ".xlsx"; ".ppt"; ".pptx"]);
      ("Archives", [".zip"; ".rar"; ".7z"; ".tar"; ".gz"; ".bz2"; ".xz";
                    ".lzma"]);
      ("Code", [".py"; ".js"; ".html"; ".css"; ".java"; ".cpp"; ".c"; ".php";
                ".rb"; ".go"; ".rs"]);
      ("APK", [".apk"; ".xapk"; ".aab"]);
      ("Fonts", [".ttf"; ".otf"; ".woff"; ".woff2"]);
      ("Ebooks", [".epub"; ".mobi"; ".azw"; ".azw3"]) ];
  temp_extensions :=
    [".tmp"; ".temp"; ".bak"; ".log"; "~"; ".swp"; ".cache"; ".crdownload";
     ".part"]
|}.

(* ------------------------------------------------------------------ *)
(** ** [scan_files_threaded] *)
(* ------------------------------------------------------------------ *)

(** An item of [scan_results_queue]; the error item stands for the text
    ["Permission denied: <directory>"]. *)
Inductive queue_item : Type :=
| QFile (item : Path)
| QDir (item : Path)
| QError (directory : Path).

(** A call that the scanner makes on the file system. *)
Inductive fs_call : Type :=
| CallRglob (root : Path)
| CallIterdir (directory : Path).

(** What [scan_files_threaded] has built when it returns: [all_files], the
    value returned; [directories]; every item that was put on
    [scan_results_queue], in order; the calls made on the file system; and
    the console. *)
Record scan : Type := {
  all_files : list Path;
  directories : list Path;
  scan_results_queue : list queue_item;
  scan_calls : list fs_call;
  scan_console : list message
}.

(** The inner function [scan_directory]: its return value or the exception
    it lets through, and what it puts on the queue. *)
Definition scan_directory (fs : node) (directory : Path)
    : result (list Path) * list queue_item :=
  match Fs.iterdir fs directory with
  | Ok items =>
      (Ok (filter (fun item => Is_true (Fs.is_file fs item)) items),
       flat_map (fun item =>
                   if Fs.is_file fs item then [QFile item]
                   else if Fs.is_dir fs item then [QDir item]
                   else []) items)
  | Raise PermissionError => (Ok [], [QError directory])
  | Raise e => (Raise e, [])
  end.

(** The first pass: [directories = [path]] extended by every directory that
    [path.rglob("*")] yields. *)
Definition enumerate_directories (fs : node) (path : Path) : list Path :=
  path :: filter (fun item => Is_true (Fs.is_dir fs item)) (Fs.rglob fs path).

(** [all_files.extend(future.result())] over the completed futures; a future
    that raised adds nothing. *)
Definition merge_results (rs : list (result (list Path))) : list Path :=
  flat_map (fun r => match r with Ok fl => fl | Raise _ => [] end) rs.

Definition scan_files_threaded `{sched : Scheduler} (fs : node) (path : Path) : scan :=
  if negb (Fs.exists_ fs path) then
    {| all_files := [];
       directories := [];
       scan_results_queue := [];
       scan_calls := [];
       scan_console := [MsgPathMissing path] |}
  else
    let directories := enumerate_directories fs path in
    let completed := as_completed directories in
    let results := map (scan_directory fs) completed in
    {| all_files := merge_results (map fst results);
       directories := directories;
       scan_results_queue := flat_map snd results;
       scan_calls := CallRglob path :: map CallIterdir completed;
       scan_console := [] |}.

(* ------------------------------------------------------------------ *)
(** ** [smart_organize_threaded] *)
(* ------------------------------------------------------------------ *)

(** The pair that [organize_file] returns: [('success', category)],
    [('error', str(e))] or [('skipped', 'No extension')]. *)
Inductive outcome : Type :=
| Success (category : string)
| Error (e : exn)
| Skipped.

(** The candidate name [f"{stem}_{counter}{suffix}"]. *)
Definition numbered_name (file_path : Path) (counter : nat) : string :=
  PurePath.stem file_path +:+ "_" +:+ pretty counter +:+ PurePath.suffix file_path.

(** The loop [while new_path.exists()] of the category branch. *)
Fixpoint resolve_conflict (fuel : nat) (fs : node)
    (category_dir file_path new_path : Path) (counter : nat) : option Path :=
  match fuel with
  | 0 => None
  | S fuel' =>
      if Fs.exists_ fs new_path then
        resolve_conflict fuel' fs category_dir file_path
          (category_dir // numbered_name file_path counter) (S counter)
      else Some new_path
  end.

(** The loop [while new_path.exists()] of the [Others] branch: the candidate
    name is computed and dropped, [new_path] stays as it is. *)
Fixpoint resolve_conflict_others (fuel : nat) (fs : node)
    (file_path new_path : Path) (counter : nat) : option Path :=
  match fuel with
  | 0 => None
  | S fuel' =>
      if Fs.exists_ fs new_path then
        let _ := numbered_name file_path counter in
        resolve_conflict_others fuel' fs file_path new_path (S counter)
      else Some new_path
  end.

(** [shutil.move] at the end of a [try] block, with its [except] clause. *)
Definition move_and_report (fs : node) (file_path new_path : Path)
    (category : string) : node * result outcome :=
  match Fs.move fs file_path new_path with
  | (fs', Ok _) => (fs', Ok (Success category))
  | (fs', Raise e) => (fs', Ok (Error e))
  end.

(** The part of [organize_file] after the [for] loop. *)
Definition organize_others (fuel : nat) (path : Path) (fs : node)
    (file_path : Path) (file_ext : string) : option (node * result outcome) :=
  let category_found := false in
  if negb category_found && PyStr.truthy file_ext then
    let others_dir := path // "Others" in
    match Fs.mkdir_exist_ok fs others_dir with
    | Raise e => Some (fs, Raise e)
    | Ok fs1 =>
        match resolve_conflict_others fuel fs1 file_path
                (others_dir // PurePath.name file_path) 1 with
        | None => None
        | Some new_path => Some (move_and_report fs1 file_path new_path "Others")
        end
    end
  else Some (fs, Ok Skipped).

(** The [for] loop of [organize_file] over [self.file_categories.items()],
    and what follows it when no category matches. *)
Fixpoint organize_loop (fuel : nat) (path : Path) (fs : node)
    (file_path : Path) (file_ext : string)
    (items : list (string * list string)) : option (node * result outcome) :=
  match items with
  | [] => organize_others fuel path fs file_path file_ext
  | (category, extensions) :: items' =>
      if PyStr.mem file_ext extensions then
        let category_dir := path // category in
        match Fs.mkdir_exist_ok fs category_dir with
        | Raise e => Some (fs, Raise e)
        | Ok fs1 =>
            match resolve_conflict fuel fs1 category_dir file_path
                    (category_dir // PurePath.name file_path) 1 with
            | None => None
            | Some new_path =>
                Some (move_and_report fs1 file_path new_path category)
            end
        end
      else organize_loop fuel path fs file_path file_ext items'
  end.

(** The inner function [organize_file]: the file system after the call and
    the result of its future, a returned pair or the exception that
    [mkdir] raised outside the [try]. *)
Definition organize_file (fuel : nat) (self : FileFlow) (path : Path)
    (fs : node) (file_path : Path) : option (node * result outcome) :=
  let file_ext := PyStr.lower (PurePath.suffix file_path) in
  organize_loop fuel path fs file_path file_ext (file_categories self).

(** The futures of the pool, run one after the other. *)
Fixpoint organize_files (fuel : nat) (self : FileFlow) (path : Path)
    (fs : node) (files : list Path)
    : option (node * list (Path * result outcome)) :=
  match files with
  | [] => Some (fs, [])
  | file_path :: files' =>
      match organize_file fuel self path fs file_path with
      | None => None
      | Some (fs1, r) =>
          match organize_files fuel self path fs1 files' with
          | None => None
          | Some (fs2, rs) => Some (fs2, (file_path, r) :: rs)
          end
      end
  end.

(** The two counters of [smart_organize_threaded]. *)
Record tally : Type := {
  organized_count : nat;
  error_count : nat
}.

(** The body of the loop over the completed futures. *)
Definition count_result (t : tally) (r : result outcome) : tally :=
  match r with
  | Ok (Success _) =>
      {| organized_count := organized_count t + 1; error_count := error_count t |}
  | Ok (Error _) =>
      {| organized_count := organized_count t; error_count := error_count t + 1 |}
  | Ok Skipped => t
  | Raise _ =>
      {| organized_count := organized_count t; error_count := error_count t + 1 |}
  end.

Definition count_results (rs : list (result outcome)) : tally :=
  fold_left count_result rs {| organized_count := 0; error_count := 0 |}.

(** The lines printed after the pool is done. *)
Definition organize_summary (rich : bool) (total_files : nat) (t : tally)
    : list message :=
  if rich then
    [MsgResultsTable total_files (organized_count t) (error_count t)]
  else
    MsgOrganized (organized_count t)
    :: (if (0 <? error_count t)%nat then [MsgErrorsEncountered (error_count t)] else []).

(** The locals of [smart_organize_threaded] when it returns. *)
Record organize_run : Type := {
  org_fs : node;
  org_total_files : nat;
  org_results : list (Path * result outcome);
  org_tally : tally;
  org_console : list message
}.

Definition organize_stopped (fs : node) (total_files : nat)
    (console : list message) : organize_run :=
  {| org_fs := fs; org_total_files := total_files; org_results := [];
     org_tally := {| organized_count := 0; error_count := 0 |};
     org_console := console |}.

(** [smart_organize_threaded(path, confirm, max_workers)]; [answer] is what
    the user replies to the prompt, [rich] is [RICH_AVAILABLE]. *)
Definition smart_organize_threaded `{sched : Scheduler} (fuel : nat) (self : FileFlow)
    (rich : bool) (fs : node) (path : Path) (confirm answer : bool)
    : option organize_run :=
  if negb (Fs.exists_ fs path) then
    Some (organize_stopped fs 0 [MsgPathMissing path])
  else
    let all_files := all_files (scan_files_threaded fs path) in
    if bool_decide (all_files = []) then
      Some (organize_stopped fs 0 [MsgNoFilesToOrganize])
    else
      let total_files := length all_files in
      if confirm && negb answer then
        Some (organize_stopped fs total_files
                [MsgFoundToOrganize total_files; MsgOperationCancelled])
      else
        match organize_files fuel self path fs (as_completed all_files) with
        | None => None
        | Some (fs', rs) =>
            let t := count_results (map snd rs) in
            Some {| org_fs := fs';
                    org_total_files := total_files;
                    org_results := rs;
                    org_tally := t;
                    org_console :=
                      MsgFoundToOrganize total_files
                      :: organize_summary rich total_files t |}
        end.

(* ------------------------------------------------------------------ *)
(** ** [find_duplicates_threaded] *)
(* ------------------------------------------------------------------ *)

(** [hashlib]: MD5 maps a byte string to a 128-bit digest.  The function
    itself belongs to the library; the engine only relies on it being a
    function of the bytes. *)
Class Hashlib : Type := {
  md5_digest : list byte -> N;
  md5_digest_bound : forall bs : list byte, (md5_digest bs < 2 ^ 128)%N
}.

(** MD5 as RFC 1321 defines it, on bytes given as numbers below 256. *)
Module Rfc1321.

Local Open Scope N_scope.

Definition add32 (x y : N) : N := (x + y) mod 2 ^ 32.
Definition not32 (x : N) : N := N.lxor x (2 ^ 32 - 1).
Definition rotl32 (x c : N) : N :=
  N.lor (N.shiftl x c mod 2 ^ 32) (N.shiftr x (32 - c)).

(** The per-step shift amounts and the constants [floor(2^32 |sin(i+1)|)]. *)
Definition shifts : list N :=
  [ 7; 12; 17; 22; 7; 12; 17; 22; 7; 12; 17; 22; 7; 12; 17; 22;
    5; 9; 14; 20; 5; 9; 14; 20; 5; 9; 14; 20; 5; 9; 14; 20;
    4; 11; 16; 23; 4; 11; 16; 23; 4; 11; 16; 23; 4; 11; 16; 23;
    6; 10; 15; 21; 6; 10; 15; 21; 6; 10; 15; 21; 6; 10; 15; 21 ].

Definition sines : list N :=
  [ 3614090360; 3905402710; 606105819; 3250441966;
    4118548399; 1200080426; 2821735955; 4249261313;
    1770035416; 2336552879; 4294925233; 2304563134;
    1804603682; 4254626195; 2792965006; 1236535329;
    4129170786; 3225465664; 643717713; 3921069994;
    3593408605; 38016083; 3634488961; 3889429448;
    568446438; 3275163606; 4107603335; 1163531501;
    2850285829; 4243563512; 1735328473; 2368359562;
    4294588738; 2272392833; 1839030562; 4259657740;
    2763975236; 1272893353; 4139469664; 3200236656;
    681279174; 3936430074; 3572445317; 76029189;
    3654602809; 3873151461; 530742520; 3299628645;
    4096336452; 1126891415; 2878612391; 4237533241;
    1700485571; 2399980690; 4293915773; 2240044497;
    1873313359; 4264355552; 2734768916; 1309151649;
    4149444226; 3174756917; 718787259; 3951481745 ].

Definition state : Type := N * N * N * N.

Definition init_state : state :=
  (1732584193, 4023233417, 2562383102, 271733878).

(** Step [i] of the 64 steps on the block with words [M]. *)
Definition step (M : list N) (st : state) (i : nat) : state :=
  let '(a, b, c, d) := st in
  let '(f, g) :=
    if (i <? 16)%nat then
      (N.lor (N.land b c) (N.land (not32 b) d), i)
    else if (i <? 32)%nat then
      (N.lor (N.land d b) (N.land (not32 d) c), ((5 * i + 1) mod 16)%nat)
    else if (i <? 48)%nat then
      (N.lxor (N.lxor b c) d, ((3 * i + 5) mod 16)%nat)
    else
      (N.lxor c (N.lor b (not32 d)), ((7 * i) mod 16)%nat) in
  let f' := add32 (add32 (add32 f a) (nth i sines 0)) (nth g M 0) in
  (d, add32 b (rotl32 f' (nth i shifts 0)), b, c).

(** A number from its little-endian bytes, and back. *)
Fixpoint of_le (bs : list N) : N :=
  match bs with
  | [] => 0
  | b :: bs' => b + 256 * of_le bs'
  end.

Fixpoint to_le (k : nat) (n : N) : list N :=
  match k with
  | O => []
  | S k' => n mod 256 :: to_le k' (n / 256)
  end.

(** The 16 words of a 64-byte block. *)
Fixpoint words (k : nat) (block : list N) : list N :=
  match k with
  | O => []
  | S k' => of_le (take 4 block) :: words k' (drop 4 block)
  end.

Definition compress (st : state) (block : list N) : state :=
  let M := words 16 block in
  let '(a, b, c, d) := fold_left (step M) (seq 0 64) st in
  let '(a0, b0, c0, d0) := st in
  (add32 a0 a, add32 b0 b, add32 c0 c, add32 d0 d).

(** The message followed by the byte 128, zeros up to 56 modulo 64, and
    the length in bits on 8 bytes. *)
Definition pad (msg : list N) : list N :=
  let len := length msg in
  msg ++ [128] ++ replicate ((119 - len mod 64) mod 64)%nat 0
      ++ to_le 8 (8 * N.of_nat len).

Fixpoint blocks (k : nat) (msg : list N) : list (list N) :=
  match k with
  | O => []
  | S k' => take 64 msg :: blocks k' (drop 64 msg)
  end.

(** The 16 bytes of the digest. *)
Definition digest_bytes (msg : list N) : list N :=
  let padded := pad msg in
  let '(a, b, c, d) :=
    fold_left compress (blocks (length padded / 64) padded) init_state in
  to_le 4 a ++ to_le 4 b ++ to_le 4 c ++ to_le 4 d.

(** The digest as a number of 128 bits, first byte first. *)
Definition digest (msg : list byte) : N :=
  fold_left (fun acc b => 256 * acc + b)
            (digest_bytes (map Byte.to_N msg)) 0 mod 2 ^ 128.

End Rfc1321.

(** [hashlib.md5] itself. *)
Definition hashlib_md5 : Hashlib :=
  {| md5_digest := Rfc1321.digest;
     md5_digest_bound := fun bs =>
       N.mod_lt _ (2 ^ 128) (N.pow_nonzero 2 128 (fun H => N.neq_succ_0 1 H)) |}.

Module Md5.

(** A hash object [hashlib.md5()]: the bytes fed to it so far. *)
Definition t : Type := list byte.
Definition new : t := [].
Definition update (h : t) (chunk : list byte) : t := h ++ chunk.

Definition hex_char (n : N) : ascii :=
  match n with
  | 0 => "0" | 1 => "1" | 2 => "2" | 3 => "3" | 4 => "4" | 5 => "5"
  | 6 => "6" | 7 => "7" | 8 => "8" | 9 => "9" | 10 => "a" | 11 => "b"
  | 12 => "c" | 13 => "d" | 14 => "e" | _ => "f"
  end%N%char.

(** The [k] low hexadecimal digits of [n] in front of [acc]. *)
Fixpoint hex_digits (k : nat) (n : N) (acc : string) : string :=
  match k with
  | 0 => acc
  | S k' => hex_digits k' (n / 16)%N (String (hex_char (n mod 16)%N) acc)
  end.

(** [h.hexdigest()]: 32 hexadecimal digits. *)
Definition hexdigest `{hashlib : Hashlib} (h : t) : string :=
  hex_digits 32 (md5_digest h) "".

End Md5.

(** The chunk size of [f.read(8192)]. *)
Definition CHUNK_SIZE : nat := 8 * 1024.

(** [iter(lambda: f.read(8192), b"")] over the rest [c] of an open file:
    chunks of at most 8192 bytes up to the first empty read.  The fuel is
    the number of reads left; [length c] reads are enough. *)
Fixpoint read_chunks (fuel : nat) (c : list byte) : list (list byte) :=
  match fuel with
  | 0 => []
  | S fuel' =>
      match take CHUNK_SIZE c with
      | [] => []
      | chunk => chunk :: read_chunks fuel' (drop CHUNK_SIZE c)
      end
  end.

(** The inner function [get_file_hash]: [(filepath, digest)], or
    [(filepath, None)] when opening or reading raised. *)
Definition get_file_hash `{hashlib : Hashlib} (fs : node) (filepath : Path)
    : Path * option string :=
  match Fs.read_bytes fs filepath with
  | Ok c =>
      let hash_md5 := fold_left Md5.update (read_chunks (length c) c) Md5.new in
      (filepath, Some (Md5.hexdigest hash_md5))
  | Raise _ => (filepath, None)
  end.

(** The body of the loop over the completed futures:
    [if file_hash: hash_to_files[file_hash].append(filepath)]. *)
Definition record_hash (hash_to_files : gmap string (list Path))
    (r : Path * option string) : gmap string (list Path) :=
  match r with
  | (filepath, Some file_hash) =>
      if PyStr.truthy file_hash then
        <[file_hash := default [] (hash_to_files !! file_hash) ++ [filepath]]>
          hash_to_files
      else hash_to_files
  | (_, None) => hash_to_files
  end.

(** [hash_to_files] after the pool is done. *)
Definition hash_files `{hashlib : Hashlib} `{sched : Scheduler} (fs : node) (all_files : list Path)
    : gmap string (list Path) :=
  fold_left record_hash (map (get_file_hash fs) (as_completed all_files)) ∅.

(** [{h: files for h, files in hash_to_files.items() if len(files) > 1}] *)
Definition find_duplicates (hash_to_files : gmap string (list Path))
    : gmap string (list Path) :=
  filter (fun hf => 1 < length hf.2) hash_to_files.

(** [sum(len(files) - 1 for files in duplicates.values())] *)
Definition count_duplicates (groups : list (string * list Path)) : nat :=
  sum_list (map (fun hf => length hf.2 - 1) groups).

(** The report loop: one line per set, and [duplicate_size] accumulated
    from the size of the first member of each set. *)
Fixpoint report_sets (fs : node) (i : nat) (groups : list (string * list Path))
    (duplicate_size : nat) : result (nat * list message) :=
  match groups with
  | [] => Ok (duplicate_size, [])
  | (_, files) :: groups' =>
      match files with
      | [] => Raise FileNotFoundError
      | keep :: dupes =>
          match Fs.st_size fs keep with
          | Raise e => Raise e
          | Ok file_size =>
              match report_sets fs (S i) groups'
                      (duplicate_size + file_size * (length files - 1)) with
              | Raise e => Raise e
              | Ok (size, lines) =>
                  Ok (size, MsgDuplicateSet i keep dupes file_size :: lines)
              end
          end
      end
  end.

(** The removal of one set: [for file_path in files[1:]], each [unlink] in
    its own [try]. *)
Fixpoint remove_files (fs : node) (files : list Path) (removed : nat)
    : node * nat * list message :=
  match files with
  | [] => (fs, removed, [])
  | file_path :: files' =>
      match Fs.unlink fs file_path with
      | Ok fs' => remove_files fs' files' (removed + 1)
      | Raise e =>
          let '(fs', removed', lines) := remove_files fs files' removed in
          (fs', removed', MsgRemoveFailed file_path e :: lines)
      end
  end.

(** [for files in duplicates.values()] around it. *)
Fixpoint remove_duplicates (fs : node) (groups : list (string * list Path))
    (removed : nat) : node * nat * list message :=
  match groups with
  | [] => (fs, removed, [])
  | (_, files) :: groups' =>
      let '(fs1, removed1, lines1) := remove_files fs (tail files) removed in
      let '(fs2, removed2, lines2) := remove_duplicates fs1 groups' removed1 in
      (fs2, removed2, lines1 ++ lines2)
  end.

(** The locals of [find_duplicates_threaded] when it returns. *)
Record duplicates_run : Type := {
  dup_fs : node;
  dup_groups : list (string * list Path);
  dup_total_duplicates : nat;
  dup_duplicate_size : nat;
  dup_removed : nat;
  dup_console : list message
}.

Definition duplicates_stopped (fs : node) (console : list message)
    : duplicates_run :=
  {| dup_fs := fs; dup_groups := []; dup_total_duplicates := 0;
     dup_duplicate_size := 0; dup_removed := 0; dup_console := console |}.

(** [find_duplicates_threaded(path, auto_remove, max_workers)]; [answer] is
    what the user replies to the prompt, [rich] is [RICH_AVAILABLE].  The
    call raises when [stat] does in the report loop. *)
Definition find_duplicates_threaded `{hashlib : Hashlib} `{sched : Scheduler} (rich : bool)
    (fs : node) (path : Path) (auto_remove answer : bool)
    : result duplicates_run :=
  if negb (Fs.exists_ fs path) then
    Ok (duplicates_stopped fs [MsgPathMissing path])
  else
    let all_files := all_files (scan_files_threaded fs path) in
    if bool_decide (all_files = []) then
      Ok (duplicates_stopped fs [MsgNoFilesFound])
    else
      let total_files := length all_files in
      let duplicates := map_to_list (find_duplicates (hash_files fs all_files)) in
      if bool_decide (duplicates = []) then
        Ok (duplicates_stopped fs [MsgAnalyzing total_files; MsgNoDuplicates])
      else
        let total_duplicates := count_duplicates duplicates in
        match report_sets fs 1 duplicates 0 with
        | Raise e => Raise e
        | Ok (duplicate_size, lines) =>
            let report :=
              MsgAnalyzing total_files
              :: MsgDuplicatesFound (length duplicates) total_duplicates
              :: lines ++ [MsgSpaceWasted duplicate_size] in
            if auto_remove then
              if answer then
                let '(fs', removed, failures) := remove_duplicates fs duplicates 0 in
                Ok {| dup_fs := fs'; dup_groups := duplicates;
                      dup_total_duplicates := total_duplicates;
                      dup_duplicate_size := duplicate_size;
                      dup_removed := removed;
                      dup_console :=
                        report ++ failures
                        ++ (if rich then [MsgRemoved removed; MsgFreed duplicate_size]
                            else []) |}
              else
                Ok {| dup_fs := fs; dup_groups := duplicates;
                      dup_total_duplicates := total_duplicates;
                      dup_duplicate_size := duplicate_size;
                      dup_removed := 0;
                      dup_console := report ++ [MsgRemovalCancelled] |}
            else
              Ok {| dup_fs := fs; dup_groups := duplicates;
                    dup_total_duplicates := total_duplicates;
                    dup_duplicate_size := duplicate_size;
                    dup_removed := 0;
                    dup_console := report |}
        end.

(** [find_duplicates_threaded] from the loop over the completed futures
    on, as a function of what the futures returned, in the order of
    completion: the loop fills [hash_to_files], and all that follows reads
    that map, [total_files] and the file system. *)
Definition report_duplicates (rich : bool) (fs : node) (total_files : nat)
    (results : list (Path * option string)) (auto_remove answer : bool)
    : result duplicates_run :=
  let hash_to_files := fold_left record_hash results ∅ in
  let duplicates := map_to_list (find_duplicates hash_to_files) in
  if bool_decide (duplicates = []) then
    Ok (duplicates_stopped fs [MsgAnalyzing total_files; MsgNoDuplicates])
  else
    let total_duplicates := count_duplicates duplicates in
    match report_sets fs 1 duplicates 0 with
    | Raise e => Raise e
    | Ok (duplicate_size, lines) =>
        let report :=
          MsgAnalyzing total_files
          :: MsgDuplicatesFound (length duplicates) total_duplicates
          :: lines ++ [MsgSpaceWasted duplicate_size] in
        if auto_remove then
          if answer then
            let '(fs', removed, failures) := remove_duplicates fs duplicates 0 in
            Ok {| dup_fs := fs'; dup_groups := duplicates;
                  dup_total_duplicates := total_duplicates;
                  dup_duplicate_size := duplicate_size;
                  dup_removed := removed;
                  dup_console :=
                    report ++ failures
                    ++ (if rich then [MsgRemoved removed; MsgFreed duplicate_size]
                        else []) |}
          else
            Ok {| dup_fs := fs; dup_groups := duplicates;
                  dup_total_duplicates := total_duplicates;
                  dup_duplicate_size := duplicate_size;
                  dup_removed := 0;
                  dup_console := report ++ [MsgRemovalCancelled] |}
        else
          Ok {| dup_fs := fs; dup_groups := duplicates;
                dup_total_duplicates := total_duplicates;
                dup_duplicate_size := duplicate_size;
                dup_removed := 0;
                dup_console := report |}
    end.


(* ------------------------------------------------------------------ *)
(** ** [clean_temp_files] *)
(* ------------------------------------------------------------------ *)

(** The name patterns written out in [clean_temp_files]. *)
Definition temp_patterns : list string := ["cache"; "temp"; "tmp"; "backup"].

(** The test of the scan loop on one file name: the [if] on the suffixes,
    then the [elif] on the patterns. *)
Definition is_temp_name (self : FileFlow) (name : string) : bool :=
  if PyStr.any (fun ext => PyStr.endswith name ext) (temp_extensions self) then true
  else if PyStr.any (fun pattern => PyStr.contains (PyStr.lower name) pattern)
            temp_patterns then true
  else false.

(** The scan loop of [clean_temp_files]: [temp_files]. *)
Definition find_temp_files (self : FileFlow) (fs : node) (path : Path)
    : list Path :=
  filter (fun file_path =>
            Is_true (Fs.is_file fs file_path
                     && is_temp_name self (PurePath.name file_path)))
         (Fs.rglob fs path).

(* ================================================================== *)
(** * Reference definitions *)
(* ================================================================== *)

(** An independent recursive walk, in the manner of [os.walk]: the regular
    files below the node [n] at path [p], directory by directory, without
    entering a directory that cannot be listed. *)
Fixpoint walk_files (p : Path) (n : node) : list Path :=
  match n with
  | File _ _ => []
  | Dir false _ _ => []
  | Dir true _ es =>
      flat_map (fun e => let '(x, c) := e in
                         match c with
                         | File _ _ => [p // x]
                         | Dir _ _ _ => walk_files (p // x) c
                         end) es
  end.

(** What one directory contributes to the scan: the files that
    [scan_directory] returns for it, and the directories among its entries
    that [rglob] yields from it. *)
Definition files_in (fs : node) (d : Path) : list Path :=
  match (scan_directory fs d).1 with Ok fl => fl | Raise _ => [] end.

Definition dirs_in (fs : node) (d : Path) : list Path :=
  filter (fun item => Is_true (Fs.is_dir fs item))
         (match Fs.iterdir fs d with Ok ps => ps | Raise _ => [] end).

(** The file entries and the directory entries of a listing, as paths. *)
Definition file_entries (d : Path) (es : list (string * node)) : list Path :=
  flat_map (fun e => match e.2 with File _ _ => [d // e.1] | Dir _ _ _ => [] end) es.

Definition dir_entries (d : Path) (es : list (string * node)) : list Path :=
  flat_map (fun e => match e.2 with File _ _ => [] | Dir _ _ _ => [d // e.1] end) es.

(** The category that the [for] loop of [organize_file] stops at: the first
    one, in the order of the table, that lists the extension. *)
Fixpoint classify (items : list (string * list string)) (file_ext : string)
    : option string :=
  match items with
  | [] => None
  | (category, extensions) :: items' =>
      if PyStr.mem file_ext extensions then Some category
      else classify items' file_ext
  end.

(** The destinations that the conflict loop tries in turn: the name of the
    file, then the names numbered 1, 2, ... *)
Definition candidate (dir file_path : Path) (k : nat) : Path :=
  match k with
  | 0 => dir // PurePath.name file_path
  | S _ => dir // numbered_name file_path k
  end.

(** The situation in which [organize_file] enters the loop of the [Others]
    branch with a name that is taken: no category lists the extension, the
    extension is not empty, [Others] is there or can be made, and it has an
    entry with the name of the file. *)
Definition others_clash (self : FileFlow) (path : Path) (fs : node)
    (file_path : Path) : Prop :=
  classify (file_categories self) (PyStr.lower (PurePath.suffix file_path)) = None /\
  PyStr.truthy (PyStr.lower (PurePath.suffix file_path)) = true /\
  exists fs1,
    Fs.mkdir_exist_ok fs (path // "Others") = Ok fs1 /\
    Fs.exists_ fs1 (path // "Others" // PurePath.name file_path) = true.

(** The completed hashing futures that carry the digest [h], as paths in
    the order of completion. *)
Definition with_hash (h : string) (rs : list (Path * option string)) : list Path :=
  map fst (filter (fun r => r.2 = Some h) rs).

(** The groups that [find_duplicates_threaded] reports for a list of
    scanned files. *)
Definition duplicate_groups `{hashlib : Hashlib} `{sched : Scheduler}
    (fs : node) (all_files : list Path) : list (string * list Path) :=
  map_to_list (find_duplicates (hash_files fs all_files)).



(** The number of futures whose result is [('skipped', ...)]. *)
Definition is_skipped (r : result outcome) : bool :=
  match r with Ok Skipped => true | _ => false end.

Definition count_skipped (rs : list (result outcome)) : nat :=
  length (filter (fun r => Is_true (is_skipped r)) rs).

(** A regular file is reachable below the node [n] along the relative path
    [rel] when [rel] is not empty and leads to it, and every directory above
    it, from [n] down, can be listed. *)
Definition reachable_file (n : node) (rel : Path) : Prop :=
  rel <> [] /\
  (exists c r, Fs.lookup n rel = Some (File c r)) /\
  forall k, k < length rel ->
            exists w es, Fs.lookup n (take k rel) = Some (Dir true w es).

(** [s] ends with [e]; [p] occurs in [s]. *)
Definition ends_with (s e : string) : Prop := exists pre, s = pre +:+ e.
Definition occurs_in (p s : string) : Prop := exists pre post, s = pre +:+ p +:+ post.

(** The bytes of the regular files of a tree. *)
Fixpoint total_bytes (n : node) : nat :=
  match n with
  | File c _ => length c
  | Dir _ _ es =>
      (fix go (es : list (string * node)) : nat :=
         match es with
         | [] => 0
         | (_, c) :: es' => total_bytes c + go es'
         end) es
  end.

(* ================================================================== *)
(** * A sample tree *)
(* ================================================================== *)

(** A download directory with two identical pictures, a document, files
    without a category or without an extension, names that are already
    taken in [Documents] and in [Others], and a directory that cannot be
    listed. *)
Definition sample_fs : node :=
  Dir true true
    [ ("a.jpg", File [x01; x02; x03] true);
      ("b.jpg", File [x01; x02; x03] true);
      ("c.pdf", File [x04] true);
      ("d.tmp", File [] true);
      ("README", File [x05; x06] true);
      ("notes.xyz", File [x0d] true);
      ("Others", Dir true true
         [ ("notes.xyz", File [x0e; x0f] true) ]);
      ("Documents", Dir true true
         [ ("c.pdf", File [x07] true);
           ("c_1.pdf", File [x08] true) ]);
      ("sub", Dir true true
         [ ("e.txt", File [x09] true);
           ("cache_data.bin", File [x0a; x0b] false);
           ("locked", Dir false false
              [ ("secret.txt", File [x0c] true) ]) ]) ].

(** An inbox with a picture and a file that has no extension. *)
Definition inbox_fs : node :=
  Dir true true
    [ ("README", File [x01] true);
      ("a.jpg", File [x02; x03] true) ].


(** Two identical pictures, the second in a directory that cannot be
    written to. *)
Definition archive_fs : node :=
  Dir true true
    [ ("a.jpg", File [x01; x02; x03] true);
      ("ro", Dir true false
         [ ("b.jpg", File [x01; x02; x03] true) ]) ].

(** Two messages of 128 bytes that differ in six bytes and have the same
    MD5 digest (Wang and Yu, 2005). *)
Definition collision_a : list byte :=
  [ xd1; x31; xdd; x02; xc5; xe6; xee; xc4; x69; x3d; x9a; x06;
    x98; xaf; xf9; x5c; x2f; xca; xb5; x87; x12; x46; x7e; xab;
    x40; x04; x58; x3e; xb8; xfb; x7f; x89; x55; xad; x34; x06;
    x09; xf4; xb3; x02; x83; xe4; x88; x83; x25; x71; x41; x5a;
    x08; x51; x25; xe8; xf7; xcd; xc9; x9f; xd9; x1d; xbd; xf2;
    x80; x37; x3c; x5b; xd8; x82; x3e; x31; x56; x34; x8f; x5b;
    xae; x6d; xac; xd4; x36; xc9; x19; xc6; xdd; x53; xe2; xb4;
    x87; xda; x03; xfd; x02; x39; x63; x06; xd2; x48; xcd; xa0;
    xe9; x9f; x33; x42; x0f; x57; x7e; xe8; xce; x54; xb6; x70;
    x80; xa8; x0d; x1e; xc6; x98; x21; xbc; xb6; xa8; x83; x93;
    x96; xf9; x65; x2b; x6f; xf7; x2a; x70 ].

Definition collision_b : list byte :=
  [ xd1; x31; xdd; x02; xc5; xe6; xee; xc4; x69; x3d; x9a; x06;
    x98; xaf; xf9; x5c; x2f; xca; xb5; x07; x12; x46; x7e; xab;
    x40; x04; x58; x3e; xb8; xfb; x7f; x89; x55; xad; x34; x06;
    x09; xf4; xb3; x02; x83; xe4; x88; x83; x25; xf1; x41; x5a;
    x08; x51; x25; xe8; xf7; xcd; xc9; x9f; xd9; x1d; xbd; x72;
    x80; x37; x3c; x5b; xd8; x82; x3e; x31; x56; x34; x8f; x5b;
    xae; x6d; xac; xd4; x36; xc9; x19; xc6; xdd; x53; xe2; x34;
    x87; xda; x03; xfd; x02; x39; x63; x06; xd2; x48; xcd; xa0;
    xe9; x9f; x33; x42; x0f; x57; x7e; xe8; xce; x54; xb6; x70;
    x80; x28; x0d; x1e; xc6; x98; x21; xbc; xb6; xa8; x83; x93;
    x96; xf9; x65; xab; x6f; xf7; x2a; x70 ].

Definition collision_fs : node :=
  Dir true true
    [ ("m1.bin", File collision_a true);
      ("m2.bin", File collision_b true) ].

(* ================================================================== *)
(** * [clean_temp_files] as a whole *)
(* ================================================================== *)

(** The scan loop with both of its accumulators, [temp_files] and
    [total_size]; [stat] is outside any [try]. *)
Fixpoint scan_temp_files (self : FileFlow) (fs : node) (items : list Path)
    (temp_files : list Path) (total_size : nat) : result (list Path * nat) :=
  match items with
  | [] => Ok (temp_files, total_size)
  | file_path :: items' =>
      if Fs.is_file fs file_path then
        if PyStr.any (fun ext => PyStr.endswith (PurePath.name file_path) ext)
             (temp_extensions self) then
          match Fs.st_size fs file_path with
          | Ok size =>
              scan_temp_files self fs items' (temp_files ++ [file_path])
                (total_size + size)
          | Raise e => Raise e
          end
        else if PyStr.any
                  (fun pattern =>
                     PyStr.contains (PyStr.lower (PurePath.name file_path)) pattern)
                  temp_patterns then
          match Fs.st_size fs file_path with
          | Ok size =>
              scan_temp_files self fs items' (temp_files ++ [file_path])
                (total_size + size)
          | Raise e => Raise e
          end
        else scan_temp_files self fs items' temp_files total_size
      else scan_temp_files self fs items' temp_files total_size
  end.

(** A row of the sample that is shown before the prompt: name, size and
    type (by extension or by pattern) in the rich table, the name alone in
    the plain listing, and the line that counts the files not shown. *)
Inductive sample_row : Type :=
| RowFile (name : string) (file_size : nat) (by_extension : bool)
| RowName (name : string)
| RowMore (more : nat).

(** The rows for [temp_files[:10]] of the rich table. *)
Fixpoint temp_table_rows (self : FileFlow) (fs : node) (temp_files : list Path)
    : result (list sample_row) :=
  match temp_files with
  | [] => Ok []
  | temp_file :: rest =>
      match Fs.st_size fs temp_file with
      | Raise e => Raise e
      | Ok file_size =>
          let by_extension :=
            PyStr.mem (PurePath.suffix temp_file) (temp_extensions self) in
          match temp_table_rows self fs rest with
          | Raise e => Raise e
          | Ok rows =>
              Ok (RowFile (String.substring 0 50 (PurePath.name temp_file))
                    file_size by_extension :: rows)
          end
      end
  end.

Definition temp_sample (self : FileFlow) (rich : bool) (fs : node)
    (temp_files : list Path) : result (list sample_row) :=
  if rich then
    match temp_table_rows self fs (take 10 temp_files) with
    | Raise e => Raise e
    | Ok rows =>
        Ok (rows ++ if (10 <? length temp_files)%nat
                    then [RowMore (length temp_files - 10)] else [])
    end
  else
    Ok (map (fun temp_file => RowName (PurePath.name temp_file)) (take 5 temp_files)
        ++ if (5 <? length temp_files)%nat
           then [RowMore (length temp_files - 5)] else []).

(** The deletion loop: [stat] and [unlink] of each file in one [try]; a
    failure of either skips the file. *)
Fixpoint delete_temp_files (fs : node) (temp_files : list Path)
    (deleted_count deleted_size : nat) : node * nat * nat :=
  match temp_files with
  | [] => (fs, deleted_count, deleted_size)
  | temp_file :: rest =>
      match Fs.st_size fs temp_file with
      | Raise _ => delete_temp_files fs rest deleted_count deleted_size
      | Ok file_size =>
          match Fs.unlink fs temp_file with
          | Raise _ => delete_temp_files fs rest deleted_count deleted_size
          | Ok fs' =>
              delete_temp_files fs' rest (deleted_count + 1)
                (deleted_size + file_size)
          end
      end
  end.

(** The locals of [clean_temp_files] when it returns. *)
Record sweep_run : Type := {
  sweep_fs : node;
  sweep_temp_files : list Path;
  sweep_total_size : nat;
  sweep_sample : list sample_row;
  sweep_deleted_count : nat;
  sweep_deleted_size : nat;
  sweep_console : list message
}.

(** [clean_temp_files(path, confirm)]; [answer] is what the user replies to
    the prompt, [rich] is [RICH_AVAILABLE].  The banner that announces the
    scan is left out of the console; both renderings print the same counts
    and sizes. *)
Definition clean_temp_files (self : FileFlow) (rich : bool) (fs : node)
    (path : Path) (confirm answer : bool) : result sweep_run :=
  if negb (Fs.exists_ fs path) then
    Ok {| sweep_fs := fs; sweep_temp_files := []; sweep_total_size := 0;
          sweep_sample := []; sweep_deleted_count := 0; sweep_deleted_size := 0;
          sweep_console := [MsgPathMissing path] |}
  else
    match scan_temp_files self fs (Fs.rglob fs path) [] 0 with
    | Raise e => Raise e
    | Ok (temp_files, total_size) =>
        if bool_decide (temp_files = []) then
          Ok {| sweep_fs := fs; sweep_temp_files := []; sweep_total_size := total_size;
                sweep_sample := []; sweep_deleted_count := 0;
                sweep_deleted_size := 0;
                sweep_console := [MsgNoTempFiles] |}
        else
          match temp_sample self rich fs temp_files with
          | Raise e => Raise e
          | Ok sample =>
              let found := MsgTempFound (length temp_files) total_size in
              if confirm && negb answer then
                Ok {| sweep_fs := fs; sweep_temp_files := temp_files;
                      sweep_total_size := total_size; sweep_sample := sample;
                      sweep_deleted_count := 0; sweep_deleted_size := 0;
                      sweep_console := [found; MsgCleanupCancelled] |}
              else
                let '(fs', deleted_count, deleted_size) :=
                  delete_temp_files fs temp_files 0 0 in
                Ok {| sweep_fs := fs'; sweep_temp_files := temp_files;
                      sweep_total_size := total_size; sweep_sample := sample;
                      sweep_deleted_count := deleted_count;
                      sweep_deleted_size := deleted_size;
                      sweep_console :=
                        [found; MsgTempDeleted deleted_count; MsgFreed deleted_size] |}
          end
    end.

(** The sum of the sizes of the files of a list, as [stat] gives them. *)
Definition sizes_of (fs : node) (files : list Path) : nat :=
  sum_list_with (fun f => match Fs.st_size fs f with Ok n => n | Raise _ => 0 end)
                files.


(** A tree with temporary files, one of them in a directory that cannot be
    written to. *)
Definition cluttered_fs : node :=
  Dir true true
    [ ("a.tmp", File [x01; x02] true);
      ("draft~", File [x03] true);
      ("report.pdf", File [x04; x05; x06] true);
      ("ro", Dir true false
         [ ("old.bak", File [x07; x08; x09; x0a] true) ]);
      ("cache", Dir true true
         [ ("thumbs.db", File [x0b] true) ]) ].

(* ================================================================== *)
(** * [analyze_directory_threaded] *)
(* ================================================================== *)

(** [stat().st_mtime] of a path: the time of its last modification, as a
    whole number of nanoseconds.  The analysis changes no file, so the time
    of a path is the same throughout a call. *)
Class Timestamps : Type := {
  st_mtime : Path -> N
}.

(** The dictionary that [analyze_file] returns. *)
Record file_info : Type := {
  info_path : Path;
  info_size : nat;
  info_extension : string;
  info_category : string;
  info_modified_time : N
}.

(** [category = 'Others'], then the loop over the table that assigns the
    first category that lists the extension and breaks. *)
Fixpoint find_category (items : list (string * list string)) (file_ext : string)
    : string :=
  match items with
  | [] => "Others"
  | (cat, extensions) :: items' =>
      if PyStr.mem file_ext extensions then cat
      else find_category items' file_ext
  end.

(** The inner function [analyze_file]; [None] when [stat] raises. *)
Definition analyze_file `{timestamps : Timestamps} (self : FileFlow) (fs : node)
    (file_path : Path) : option file_info :=
  match Fs.st_size fs file_path with
  | Raise _ => None
  | Ok file_size =>
      let file_ext := PyStr.lower (PurePath.suffix file_path) in
      Some {| info_path := file_path;
              info_size := file_size;
              info_extension := file_ext;
              info_category := find_category (file_categories self) file_ext;
              info_modified_time := st_mtime file_path |}
  end.

(** The dictionary [file_stats]; [categories] maps a category to its
    count and size, [extensions] is the counter of the extensions. *)
Record file_stats : Type := {
  stats_total_files : nat;
  stats_total_size : nat;
  stats_categories : gmap string (nat * nat);
  stats_largest_files : list (Path * nat);
  stats_extensions : gmap string nat;
  stats_oldest_file : option (Path * N);
  stats_newest_file : option (Path * N)
}.

(** The body of the loop over the completed futures, the same in both
    renderings. *)
Definition update_stats (st : file_stats) (result : option file_info)
    : file_stats :=
  match result with
  | None => st
  | Some r =>
      let entry := default (0, 0) (stats_categories st !! info_category r) in
      {| stats_total_files := stats_total_files st;
         stats_total_size := stats_total_size st + info_size r;
         stats_categories :=
           <[info_category r := (entry.1 + 1, entry.2 + info_size r)]>
             (stats_categories st);
         stats_largest_files :=
           stats_largest_files st ++ [(info_path r, info_size r)];
         stats_extensions :=
           <[info_extension r :=
               default 0 (stats_extensions st !! info_extension r) + 1]>
             (stats_extensions st);
         stats_oldest_file :=
           match stats_oldest_file st with
           | None => Some (info_path r, info_modified_time r)
           | Some (_, t) =>
               if (info_modified_time r <? t)%N
               then Some (info_path r, info_modified_time r)
               else stats_oldest_file st
           end;
         stats_newest_file :=
           match stats_newest_file st with
           | None => Some (info_path r, info_modified_time r)
           | Some (_, t) =>
               if (t <? info_modified_time r)%N
               then Some (info_path r, info_modified_time r)
               else stats_newest_file st
           end |}
  end.

(** [list.sort(key=lambda x: x[1], reverse=True)]: the stable sort by
    decreasing size; an item goes before the first item that is not
    larger. *)
Fixpoint insert_by_size (x : Path * nat) (l : list (Path * nat))
    : list (Path * nat) :=
  match l with
  | [] => [x]
  | y :: l' => if (x.2 <? y.2)%nat then y :: insert_by_size x l' else x :: l
  end.

Definition sort_by_size (l : list (Path * nat)) : list (Path * nat) :=
  foldr insert_by_size [] l.

(** What [analyze_directory_threaded] has when it starts to display: the
    path is missing, no file was found, or the statistics with
    [largest_files] sorted and cut to ten. *)
Inductive analysis : Type :=
| AnalysisPathMissing
| AnalysisNoFiles
| Analysis (st : file_stats).

Definition initial_stats (all_files : list Path) : file_stats :=
  {| stats_total_files := length all_files;
     stats_total_size := 0;
     stats_categories := ∅;
     stats_largest_files := [];
     stats_extensions := ∅;
     stats_oldest_file := None;
     stats_newest_file := None |}.

Definition collect_stats `{timestamps : Timestamps} `{sched : Scheduler}
    (self : FileFlow) (fs : node) (all_files : list Path) : file_stats :=
  fold_left update_stats
    (map (analyze_file self fs) (as_completed all_files))
    (initial_stats all_files).

Definition analyze_directory_threaded `{timestamps : Timestamps}
    `{sched : Scheduler} (self : FileFlow) (fs : node) (path : Path) : analysis :=
  if negb (Fs.exists_ fs path) then AnalysisPathMissing
  else
    let all_files := all_files (scan_files_threaded fs path) in
    if bool_decide (all_files = []) then AnalysisNoFiles
    else
      let st := collect_stats self fs all_files in
      Analysis
        {| stats_total_files := stats_total_files st;
           stats_total_size := stats_total_size st;
           stats_categories := stats_categories st;
           stats_largest_files := take 10 (sort_by_size (stats_largest_files st));
           stats_extensions := stats_extensions st;
           stats_oldest_file := stats_oldest_file st;
           stats_newest_file := stats_newest_file st |}.

(** The row "Average File Size" of the overview, before formatting. *)
Definition average_file_size (st : file_stats) : nat :=
  if (0 <? stats_total_files st)%nat
  then stats_total_size st / stats_total_files st else 0.

(** The analysis results that belong to a category, to an extension. *)
Definition in_category (c : string) (rs : list file_info) : list file_info :=
  filter (fun r => info_category r = c) rs.

Definition with_extension (e : string) (rs : list file_info) : list file_info :=
  filter (fun r => info_extension r = e) rs.

Definition sum_sizes (rs : list file_info) : nat := sum_list_with info_size rs.

(** Modification times by the length of the name of the file, for the
    examples. *)
Definition name_length_timestamps : Timestamps :=
  {| st_mtime := fun p => N.of_nat (String.length (PurePath.name p)) |}.

(* ================================================================== *)
(** * [change_file_paths] *)
(* ================================================================== *)

(** [s.split(sep)] for a separator of one character. *)
Fixpoint split_on (sep : ascii) (s : string) : list string :=
  match s with
  | EmptyString => [EmptyString]
  | String c s' =>
      if decide (c = sep) then EmptyString :: split_on sep s'
      else match split_on sep s' with
           | piece :: pieces => String c piece :: pieces
           | [] => [String c EmptyString]
           end
  end.

(** [c.isspace()] for an ASCII character: tab to carriage return, the four
    separators and the space. *)
Definition is_space (c : ascii) : bool :=
  let n := nat_of_ascii c in
  ((9 <=? n)%nat && (n <=? 13)%nat) || ((28 <=? n)%nat && (n <=? 32)%nat).

(** [s.lstrip()], [s.rstrip()] and [s.strip()] *)
Fixpoint lstrip (s : string) : string :=
  match s with
  | EmptyString => EmptyString
  | String c s' => if is_space c then lstrip s' else s
  end.

Fixpoint rstrip (s : string) : string :=
  match s with
  | EmptyString => EmptyString
  | String c s' =>
      match rstrip s' with
      | EmptyString => if is_space c then EmptyString else String c EmptyString
      | rest => String c rest
      end
  end.

Definition strip (s : string) : string := rstrip (lstrip s).

(** [[ext.strip() for ext in answer.split(',')
      if ext.strip().startswith('.')]] *)
Definition parse_extensions (answer : string) : list string :=
  map strip
    (filter (fun ext => Is_true (PyStr.startswith (strip ext) "."))
            (split_on ","%char answer)).

(** [d[key] = value] on a dictionary kept in insertion order: the value of
    a key that is there is replaced in place, a new key goes to the end. *)
Fixpoint dict_set {V} (key : string) (value : V) (d : list (string * V))
    : list (string * V) :=
  match d with
  | [] => [(key, value)]
  | (k, v) :: d' =>
      if decide (key = k) then (k, value) :: d'
      else (k, v) :: dict_set key value d'
  end.

(** [d[key].append(x)] for a key that is there. *)
Fixpoint dict_append (key : string) (x : string)
    (d : list (string * list string)) : list (string * list string) :=
  match d with
  | [] => []
  | (k, v) :: d' =>
      if decide (key = k) then (k, v ++ [x]) :: d'
      else (k, v) :: dict_append key x d'
  end.

(** What the user answers in the settings menu: the action, and the
    answers to the prompts of that action. *)
Inductive settings_action : Type :=
| AddCategory (category_name answer : string)
| ModifyCategory (category answer : string)
| AddExtension (category extension : string)
| Back.

(** [change_file_paths]: the engine after the call.  All of it happens only
    with the rich rendering.  The prompts for an existing category offer the
    keys of the table as choices and ask again until one of them is given,
    so an answer outside the keys never arrives: [None]. *)
Definition change_file_paths (self : FileFlow) (rich : bool)
    (action : settings_action) : option FileFlow :=
  if rich then
    match action with
    | AddCategory category_name answer =>
        Some {| file_categories :=
                  dict_set category_name (parse_extensions answer)
                    (file_categories self);
                temp_extensions := temp_extensions self |}
    | ModifyCategory category answer =>
        if PyStr.mem category (map fst (file_categories self)) then
          Some {| file_categories :=
                    dict_set category (parse_extensions answer)
                      (file_categories self);
                  temp_extensions := temp_extensions self |}
        else None
    | AddExtension category extension =>
        if PyStr.mem category (map fst (file_categories self)) then
          if PyStr.startswith extension "." then
            Some {| file_categories :=
                      dict_append category extension (file_categories self);
                    temp_extensions := temp_extensions self |}
          else Some self
        else None
    | Back => Some self
    end
  else Some self.

(* ================================================================== *)
(** * The file system with search permission and symbolic links *)
(* ================================================================== *)

(** The trees above grant search permission on every directory and have no
    links.  The scanner is modelled here a second time on trees that have
    both, with [pathlib] as Python 3.11 has it; on a tree of the first kind
    the two scanners agree (see [Posix.embed]). *)
Module Posix.

(** The error numbers that a path lookup can give. *)
Inductive errno : Type :=
| ENOENT
| EACCES
| ENOTDIR
| ELOOP.

(** The value of a call that may fail; [Fail EACCES] is Python's
    [PermissionError]. *)
Inductive answer (A : Type) : Type :=
| Return (a : A)
| Fail (e : errno).

Arguments Return {A} a.
Arguments Fail {A} e.

(** A file; a directory with its read, write and search permission and its
    entries; a symbolic link with its target, a path from the top of the
    tree. *)
#[warnings="-register-all"]
Inductive pnode : Type :=
| PFile (content : list byte) (readable : bool)
| PDir (readable writable searchable : bool) (entries : list (string * pnode))
| PLink (target : Path).

Fixpoint assoc (x : string) (es : list (string * pnode)) : option pnode :=
  match es with
  | [] => None
  | (y, c) :: es' => if decide (x = y) then Some c else assoc x es'
  end.

(** The lookup of the path [p] from the node [cur], as [stat] does it: a
    directory on the way must grant search permission, and a link, also a
    final one, is replaced by what its target leads to from [top].  Links
    are followed to a depth of [links]; deeper, and on a cycle, the lookup
    fails with [ELOOP]. *)
Fixpoint resolve (links : nat) (top : pnode) : pnode -> Path -> answer pnode :=
  fix walk (cur : pnode) (p : Path) {struct p} : answer pnode :=
    match p with
    | [] => Return cur
    | x :: p' =>
        match cur with
        | PFile _ _ => Fail ENOTDIR
        | PLink _ => Fail ENOTDIR
        | PDir _ _ false _ => Fail EACCES
        | PDir _ _ true es =>
            match assoc x es with
            | None => Fail ENOENT
            | Some (PLink target) =>
                match links with
                | 0 => Fail ELOOP
                | S links' =>
                    match resolve links' top top target with
                    | Return n => walk n p'
                    | Fail e => Fail e
                    end
                end
            | Some c => walk c p'
            end
        end
    end.

(** The kernel's bound on the links of one lookup. *)
Definition MAXSYMLINKS : nat := 40.

(** [os.stat(p)] *)
Definition stat (top : pnode) (p : Path) : answer pnode :=
  resolve MAXSYMLINKS top top p.

(** [_ignore_error]: the errors that [is_dir], [is_file] and [exists] turn
    into [False]. *)
Definition ignore_error (e : errno) : bool :=
  match e with
  | EACCES => false
  | ENOENT | ENOTDIR | ELOOP => true
  end.

(** [Path.is_dir], [Path.is_file], [Path.exists] *)
Definition is_dir (top : pnode) (p : Path) : answer bool :=
  match stat top p with
  | Return (PDir _ _ _ _) => Return true
  | Return _ => Return false
  | Fail e => if ignore_error e then Return false else Fail e
  end.

Definition is_file (top : pnode) (p : Path) : answer bool :=
  match stat top p with
  | Return (PFile _ _) => Return true
  | Return _ => Return false
  | Fail e => if ignore_error e then Return false else Fail e
  end.

Definition exists_ (top : pnode) (p : Path) : answer bool :=
  match stat top p with
  | Return _ => Return true
  | Fail e => if ignore_error e then Return false else Fail e
  end.

(** [os.scandir(p)], [os.listdir(p)]: the entries of a directory that may
    be read. *)
Definition scandir (top : pnode) (p : Path) : answer (list (string * pnode)) :=
  match stat top p with
  | Return (PDir true _ _ es) => Return es
  | Return (PDir false _ _ _) => Fail EACCES
  | Return _ => Fail ENOTDIR
  | Fail e => Fail e
  end.

(** [Path.iterdir] *)
Definition iterdir (top : pnode) (p : Path) : answer (list Path) :=
  match scandir top p with
  | Return es => Return (map (fun e => p // e.1) es)
  | Fail e => Fail e
  end.

(** The loop over the entries of a directory in [_iterate_directories]:
    what each entry yields, in order, up to the first entry at which the
    loop is left ([None]). *)
Fixpoint descend (visit : string * pnode -> option (list Path))
    (es : list (string * pnode)) : list Path :=
  match es with
  | [] => []
  | e :: es' =>
      match visit e with
      | Some ps => ps ++ descend visit es'
      | None => []
      end
  end.

(** What [rglob("*")] yields from the directory [n] at the path [p], where
    [ok] says that every directory above [p] grants search permission: the
    entries of [p], then, entry by entry, what it yields from each
    sub-directory that is no link.  Whether an entry is a directory is
    known from the listing, except for a link, which is examined with
    [stat].  A directory that cannot be opened yields nothing, and the
    descent from a directory ends at a link that cannot be examined; both
    are [PermissionError]s that [pathlib] swallows.  (On a tree whose directories list each name once no path is
    yielded twice, so the set of yielded paths that [pathlib] keeps plays no
    part.) *)
Fixpoint glob_below (top : pnode) (ok : bool) (p : Path) (n : pnode)
    : list Path :=
  match n with
  | PDir r _ x es =>
      if ok && r then
        map (fun e => p // e.1) es ++
        descend
          (fun e => let '(name, c) := e in
                    match c with
                    | PDir _ _ _ _ => Some (glob_below top (ok && x) (p // name) c)
                    | PFile _ _ => Some []
                    | PLink _ =>
                        match stat top (p // name) with
                        | Fail EACCES => None
                        | _ => Some []
                        end
                    end) es
      else []
  | PFile _ _ => []
  | PLink _ => []
  end.

(** [Path.rglob("*")]: nothing from a path that is no directory; the test
    of the path itself is not guarded. *)
Definition rglob (top : pnode) (path : Path) : answer (list Path) :=
  match is_dir top path with
  | Fail e => Fail e
  | Return false => Return []
  | Return true =>
      match stat top path with
      | Return n => Return (glob_below top true path n)
      | Fail e => Fail e
      end
  end.

(** The loop of the first pass: [if item.is_dir(): directories.append(item)],
    outside any [try]. *)
Fixpoint collect_directories (top : pnode) (items : list Path)
    (directories : list Path) : answer (list Path) :=
  match items with
  | [] => Return directories
  | item :: items' =>
      match is_dir top item with
      | Fail e => Fail e
      | Return true => collect_directories top items' (directories ++ [item])
      | Return false => collect_directories top items' directories
      end
  end.

Definition enumerate_directories (top : pnode) (path : Path)
    : answer (list Path) :=
  match rglob top path with
  | Fail e => Fail e
  | Return items => collect_directories top items [path]
  end.

(** The loop of [scan_directory] over the entries; a [PermissionError]
    from a test ends it with the files found so far. *)
Fixpoint scan_items (top : pnode) (directory : Path) (items : list Path)
    (local_files : list Path) (queued : list queue_item)
    : answer (list Path) * list queue_item :=
  match items with
  | [] => (Return local_files, queued)
  | item :: items' =>
      match is_file top item with
      | Fail EACCES => (Return local_files, queued ++ [QError directory])
      | Fail e => (Fail e, queued)
      | Return true =>
          scan_items top directory items' (local_files ++ [item])
            (queued ++ [QFile item])
      | Return false =>
          match is_dir top item with
          | Fail EACCES => (Return local_files, queued ++ [QError directory])
          | Fail e => (Fail e, queued)
          | Return true =>
              scan_items top directory items' local_files (queued ++ [QDir item])
          | Return false => scan_items top directory items' local_files queued
          end
      end
  end.

(** The inner function [scan_directory]: what it returns or lets through,
    and what it puts on the queue. *)
Definition scan_directory (top : pnode) (directory : Path)
    : answer (list Path) * list queue_item :=
  match iterdir top directory with
  | Return items => scan_items top directory items [] []
  | Fail EACCES => (Return [], [QError directory])
  | Fail e => (Fail e, [])
  end.

(** [all_files.extend(future.result())]; a future that raised adds
    nothing. *)
Definition merge_results (rs : list (answer (list Path))) : list Path :=
  flat_map (fun r => match r with Return fl => fl | Fail _ => [] end) rs.

(** [scan_files_threaded]: the locals when it returns, or the exception
    that leaves it.  The value returned is [all_files]. *)
Definition scan_files_threaded `{sched : Scheduler} (top : pnode) (path : Path)
    : answer scan :=
  match exists_ top path with
  | Fail e => Fail e
  | Return false =>
      Return {| all_files := [];
                directories := [];
                scan_results_queue := [];
                scan_calls := [];
                scan_console := [MsgPathMissing path] |}
  | Return true =>
      match enumerate_directories top path with
      | Fail e => Fail e
      | Return directories =>
          let completed := as_completed directories in
          let results := map (scan_directory top) completed in
          Return {| all_files := merge_results (map fst results);
                    directories := directories;
                    scan_results_queue := flat_map snd results;
                    scan_calls := CallRglob path :: map CallIterdir completed;
                    scan_console := [] |}
      end
  end.

(** Whether a test came out true; a test that failed did not. *)
Definition holds (a : answer bool) : bool :=
  match a with
  | Return b => b
  | Fail _ => false
  end.

(** A tree without links in which every directory grants search
    permission, as a tree of this kind. *)
Fixpoint embed (n : node) : pnode :=
  match n with
  | File c r => PFile c r
  | Dir l w es => PDir l w true (map (fun e => let '(x, c) := e in (x, embed c)) es)
  end.

(** What one directory contributes to the scan. *)
Definition files_in (top : pnode) (d : Path) : list Path :=
  match (scan_directory top d).1 with Return fl => fl | Fail _ => [] end.

(** An independent recursive walk in the manner of [os.walk]: the entries
    below the directory [n] that are no directories.  An entry that is a
    link is examined with [stat]; a link to a directory is not entered. *)
Fixpoint walk_files (top : pnode) (ok : bool) (p : Path) (n : pnode)
    : list Path :=
  match n with
  | PDir r _ x es =>
      if ok && r then
        flat_map (fun e => let '(name, c) := e in
                           match c with
                           | PFile _ _ => [p // name]
                           | PDir _ _ _ _ =>
                               walk_files top (ok && x) (p // name) c
                           | PLink _ =>
                               if holds (is_dir top (p // name)) then []
                               else [p // name]
                           end) es
      else []
  | PFile _ _ => []
  | PLink _ => []
  end.

(** The same walk with [followlinks=True]: a link to a directory is
    entered, to the given depth. *)
Fixpoint walk_following (depth : nat) (top : pnode) (ok : bool) (p : Path)
    (n : pnode) : list Path :=
  match depth with
  | 0 => []
  | S depth' =>
      match n with
      | PDir r _ x es =>
          if ok && r then
            flat_map (fun e => let '(name, c) := e in
                               match c with
                               | PFile _ _ => [p // name]
                               | PDir _ _ _ _ =>
                                   walk_following depth' top (ok && x)
                                     (p // name) c
                               | PLink _ =>
                                   match stat top (p // name) with
                                   | Return (PDir r' w' x' es') =>
                                       walk_following depth' top true
                                         (p // name) (PDir r' w' x' es')
                                   | _ => [p // name]
                                   end
                               end) es
          else []
      | PFile _ _ => []
      | PLink _ => []
      end
  end.

(** [Path.stat().st_size] *)
Definition st_size (top : pnode) (p : Path) : answer nat :=
  match stat top p with
  | Return (PFile c _) => Return (length c)
  | Return _ => Return 0
  | Fail e => Fail e
  end.

(** The scan loop of [clean_temp_files] on such a tree; neither the test
    [is_file] nor [stat] is inside a [try]. *)
Fixpoint scan_temp_files (self : FileFlow) (top : pnode) (items : list Path)
    (temp_files : list Path) (total_size : nat) : answer (list Path * nat) :=
  match items with
  | [] => Return (temp_files, total_size)
  | file_path :: items' =>
      match is_file top file_path with
      | Fail e => Fail e
      | Return false => scan_temp_files self top items' temp_files total_size
      | Return true =>
          if PyStr.any (fun ext => PyStr.endswith (PurePath.name file_path) ext)
               (temp_extensions self) then
            match st_size top file_path with
            | Return size =>
                scan_temp_files self top items' (temp_files ++ [file_path])
                  (total_size + size)
            | Fail e => Fail e
            end
          else if PyStr.any
                    (fun pattern =>
                       PyStr.contains (PyStr.lower (PurePath.name file_path))
                         pattern)
                    temp_patterns then
            match st_size top file_path with
            | Return size =>
                scan_temp_files self top items' (temp_files ++ [file_path])
                  (total_size + size)
            | Fail e => Fail e
            end
          else scan_temp_files self top items' temp_files total_size
      end
  end.

(** The bytes that [open(p, "rb").read()] gives. *)
Definition read_bytes (top : pnode) (p : Path) : answer (list byte) :=
  match stat top p with
  | Return (PFile c true) => Return c
  | Return (PFile _ false) => Fail EACCES
  | Return _ => Fail ENOTDIR
  | Fail e => Fail e
  end.

End Posix.

(** A directory and a link to it. *)
Definition linked_fs : Posix.pnode :=
  Posix.PDir true true true
    [ ("real", Posix.PDir true true true
         [ ("f.txt", Posix.PFile [x01] true);
           ("deep", Posix.PDir true true true
              [ ("g.txt", Posix.PFile [x02] true) ]) ]);
      ("link", Posix.PLink ["real"]) ].

(** A file next to a directory that can be read and not searched. *)
Definition unsearchable_fs : Posix.pnode :=
  Posix.PDir true true true
    [ ("a.txt", Posix.PFile [x01] true);
      ("nox", Posix.PDir true false false
         [ ("h.txt", Posix.PFile [x02] true) ]) ].

(** A file next to a directory that cannot be read, with a file in it, and
    the same with that directory readable and empty. *)
Definition unreadable_fs : Posix.pnode :=
  Posix.PDir true true true
    [ ("a.txt", Posix.PFile [x01] true);
      ("locked", Posix.PDir false true true
         [ ("k.txt", Posix.PFile [x02] true) ]) ].

Definition readable_fs : Posix.pnode :=
  Posix.PDir true true true
    [ ("a.txt", Posix.PFile [x01] true);
      ("locked", Posix.PDir true true true []) ].

(** A directory [box] with a link to a directory [store] next to it; one
    entry of [store] is a link into a directory that cannot be searched. *)
Definition detour_fs : Posix.pnode :=
  Posix.PDir true true true
    [ ("box", Posix.PDir true true true
         [ ("a.txt", Posix.PFile [x01] true);
           ("link", Posix.PLink ["store"]) ]);
      ("store", Posix.PDir true true true
         [ ("ok.txt", Posix.PFile [x02] true);
           ("bad", Posix.PLink ["nox"; "h.txt"]);
           ("z.txt", Posix.PFile [x03] true) ]);
      ("nox", Posix.PDir false false false
         [ ("h.txt", Posix.PFile [x04] true) ]) ].

(* ================================================================== *)
(** * Reference definitions for whole runs *)
(* ================================================================== *)

(** The byte strings of the regular files of a tree, one for each file. *)
Fixpoint contents (n : node) : list (list byte) :=
  match n with
  | File c _ => [c]
  | Dir _ _ es => flat_map (fun e => let '(_, c) := e in contents c) es
  end.

(** The same for the entries of one listing. *)
Definition contents_of_entries (es : list (string * node)) : list (list byte) :=
  flat_map (fun e => let '(_, c) := e in contents c) es.

(** Every extension of the category table starts with a dot. *)
Definition dotted (self : FileFlow) : bool :=
  forallb (fun item => forallb (fun ext => PyStr.startswith ext ".") item.2)
          (file_categories self).

(** A picture next to a regular file that has the name of its category; a
    picture that is already in its category directory. *)
Definition blocked_fs : node :=
  Dir true true
    [ ("a.jpg", File [x01] true);
      ("Images", File [x02] true) ].

Definition organised_fs : node :=
  Dir true true
    [ ("Images", Dir true true
         [ ("a.jpg", File [x01] true);
           ("a_1.jpg", File [x02] true) ]) ].


(** A list of files with sizes is in the order of decreasing size: no
    item is smaller than an item after it. *)
Fixpoint sorted_by_size (l : list (Path * nat)) : Prop :=
  match l with
  | [] => True
  | x :: l' => Forall (fun y => y.2 <= x.2) l' /\ sorted_by_size l'
  end.

(** The results of [analyze_file] for the files of a list, in the order
    of the list. *)
Definition analysis_results `{timestamps : Timestamps} (self : FileFlow)
    (fs : node) (files : list Path) : list file_info :=
  omap (analyze_file self fs) files.

(** The entry of [categories] for a list of results, and that of
    [extensions]: none for no result. *)
Definition category_entry (rs : list file_info) : option (nat * nat) :=
  match rs with [] => None | _ :: _ => Some (length rs, sum_sizes rs) end.

Definition extension_entry (rs : list file_info) : option nat :=
  match rs with [] => None | _ :: _ => Some (length rs) end.

(* ================================================================== *)
(** * Python strings: facts *)
(* ================================================================== *)

Lemma append_nil_l (s : string) : "" +:+ s = s.
Proof. reflexivity. Qed.

Lemma append_String (a : ascii) (s t : string) :
  String a s +:+ t = String a (s +:+ t).
Proof. reflexivity. Qed.

Lemma append_nil_r (s : string) : s +:+ "" = s.
Proof. induction s as [|a s IH]; [done|]. by rewrite append_String, IH. Qed.

Lemma append_assoc (s t u : string) : (s +:+ t) +:+ u = s +:+ (t +:+ u).
Proof.
  induction s as [|a s IH]; [done|]. by rewrite !append_String, IH.
Qed.

Lemma length_append (s t : string) :
  String.length (s +:+ t) = String.length s + String.length t.
Proof.
  induction s as [|a s IH]; [done|]. rewrite append_String. simpl. by rewrite IH.
Qed.

Lemma append_inv_r (s t u : string) : s +:+ u = t +:+ u -> s = t.
Proof.
  revert t. induction s as [|a s IH]; intros [|b t] Heq; [done| | |].
  - apply (f_equal String.length) in Heq.
    rewrite append_nil_l, length_append in Heq. simpl in Heq. lia.
  - apply (f_equal String.length) in Heq.
    rewrite append_nil_l, length_append in Heq. simpl in Heq. lia.
  - rewrite !append_String in Heq. injection Heq as -> Heq.
    f_equal. by apply IH.
Qed.

Lemma startswith_spec s p :
  PyStr.startswith s p = true <-> exists post, s = p +:+ post.
Proof.
  revert s. induction p as [|a p IH]; intros s; simpl.
  - split; [intros _; by exists s | done].
  - destruct s as [|b s].
    + split; [done | intros [post Hp]; discriminate].
    + destruct (decide (a = b)) as [->|Hne].
      * rewrite IH. split; intros [post Hp]; exists post;
          rewrite append_String in *; congruence.
      * split; [done | intros [post Hp]; rewrite append_String in Hp; congruence].
Qed.

Lemma endswith_spec s e : PyStr.endswith s e = true <-> ends_with s e.
Proof.
  unfold ends_with. induction s as [|a s IH]; simpl.
  - destruct (decide ("" = e)) as [<-|Hne].
    + split; [intros _; by exists "" | done].
    + split; [done|]. intros [[|b pre] Hp]; [by rewrite append_nil_l in Hp|].
      by rewrite append_String in Hp.
  - destruct (decide (String a s = e)) as [<-|Hne].
    + split; [intros _; by exists "" | done].
    + rewrite IH. split.
      * intros [pre ->]. by exists (String a pre).
      * intros [[|b pre] Hp]; [by rewrite append_nil_l in Hp|].
        rewrite append_String in Hp. exists pre. congruence.
Qed.

Lemma contains_spec s p : PyStr.contains s p = true <-> occurs_in p s.
Proof.
  unfold occurs_in. induction s as [|a s IH]; simpl.
  - destruct (PyStr.startswith "" p) eqn:Hs.
    + apply startswith_spec in Hs as [post Hp].
      split; [intros _; by exists "", post | done].
    + split; [done|]. intros [[|b pre] [post Hp]].
      * rewrite append_nil_l in Hp.
        assert (PyStr.startswith "" p = true) by (apply startswith_spec; eauto).
        congruence.
      * by rewrite append_String in Hp.
  - destruct (PyStr.startswith (String a s) p) eqn:Hs.
    + apply startswith_spec in Hs as [post Hp].
      split; [intros _; by exists "", post | done].
    + rewrite IH. split.
      * intros (pre & post & ->). by exists (String a pre), post.
      * intros ([|b pre] & post & Hp).
        -- rewrite append_nil_l in Hp.
           assert (PyStr.startswith (String a s) p = true)
             by (apply startswith_spec; eauto).
           congruence.
        -- rewrite append_String in Hp. exists pre, post. congruence.
Qed.

Lemma any_spec {A} (f : A -> bool) (xs : list A) :
  PyStr.any f xs = true <-> exists x, x ∈ xs /\ f x = true.
Proof.
  unfold PyStr.any. rewrite existsb_exists.
  split; intros (x & Hx & Hf); exists x; split; auto; by apply list_elem_of_In.
Qed.

Lemma is_temp_name_spec self name :
  is_temp_name self name = true <->
  (exists ext, ext ∈ temp_extensions self /\ ends_with name ext) \/
  (exists pattern, pattern ∈ temp_patterns /\ occurs_in pattern (PyStr.lower name)).
Proof.
  unfold is_temp_name.
  destruct (PyStr.any _ (temp_extensions self)) eqn:He.
  - apply any_spec in He as (ext & Hin & He). apply endswith_spec in He.
    split; [intros _; left; eauto | done].
  - destruct (PyStr.any _ temp_patterns) eqn:Hp.
    + apply any_spec in Hp as (pat & Hin & Hp). apply contains_spec in Hp.
      split; [intros _; right; eauto | done].
    + split; [done|]. intros [(ext & Hin & Hx)|(pat & Hin & Hx)].
      * assert (PyStr.any (fun ext => PyStr.endswith name ext)
                  (temp_extensions self) = true) as Ht
          by (apply any_spec; exists ext; by rewrite endswith_spec).
        congruence.
      * assert (PyStr.any (fun pattern => PyStr.contains (PyStr.lower name) pattern)
                  temp_patterns = true) as Ht
          by (apply any_spec; exists pat; by rewrite contains_spec).
        congruence.
Qed.

(* ================================================================== *)
(** * The file system: facts *)
(* ================================================================== *)

(** Induction on a tree, with the hypothesis for every entry of a
    directory. *)
Lemma node_tree_ind (P : node -> Prop) :
  (forall c r, P (File c r)) ->
  (forall l w es, Forall (fun e => P e.2) es -> P (Dir l w es)) ->
  forall n, P n.
Proof.
  intros HF HD. fix IH 1. intros [c r|l w es]; [apply HF|apply HD].
  induction es as [|[x c] es IHes]; constructor; [apply IH|apply IHes].
Qed.

Lemma wf_dir l w es :
  Fs.wf (Dir l w es) = true <->
  NoDup (map fst es) /\ Forall (fun e => Fs.wf e.2 = true) es.
Proof.
  simpl. rewrite andb_true_iff, bool_decide_eq_true.
  apply and_iff_compat_l.
  induction es as [|[x c] es IH]; simpl.
  - split; [constructor | done].
  - rewrite andb_true_iff, IH, Forall_cons. done.
Qed.

Lemma assoc_elem_of x c es :
  NoDup (map fst es) -> (x, c) ∈ es -> Fs.assoc x es = Some c.
Proof.
  induction es as [|[y d] es IH]; simpl; intros Hnd Hin.
  - by apply elem_of_nil in Hin.
  - apply NoDup_cons in Hnd as [Hy Hnd].
    apply elem_of_cons in Hin as [Heq|Hin].
    + injection Heq as -> ->. by rewrite decide_True.
    + destruct (decide (x = y)) as [->|Hne]; [|by apply IH].
      exfalso. apply Hy. apply list_elem_of_fmap. by exists (y, c).
Qed.

Lemma assoc_Some x c es : Fs.assoc x es = Some c -> (x, c) ∈ es.
Proof.
  induction es as [|[y d] es IH]; simpl; [done|].
  destruct (decide (x = y)) as [->|Hne].
  - intros [= ->]. apply elem_of_cons. by left.
  - intros Hs. apply elem_of_cons. right. by apply IH.
Qed.

Lemma assoc_None x es : Fs.assoc x es = None <-> x ∉ map fst es.
Proof.
  induction es as [|[y d] es IH]; simpl.
  - split; [intros _; apply not_elem_of_nil | done].
  - rewrite not_elem_of_cons. destruct (decide (x = y)) as [->|Hne].
    + split; [done | by intros [? _]].
    + rewrite IH. tauto.
Qed.

Lemma lookup_app n p q :
  Fs.lookup n (p ++ q) = Fs.lookup n p ≫= fun m => Fs.lookup m q.
Proof.
  revert n. induction p as [|x p IH]; intros n; simpl; [done|].
  destruct n as [|l w es]; [done|].
  destruct (Fs.assoc x es); [apply IH | done].
Qed.

Lemma lookup_child fs d l w es x :
  Fs.lookup fs d = Some (Dir l w es) ->
  Fs.lookup fs (d // x) = Fs.assoc x es.
Proof.
  intros Hd. unfold PurePath.joinpath. rewrite lookup_app, Hd. simpl.
  by destruct (Fs.assoc x es).
Qed.

Lemma lookup_wf n p m :
  Fs.wf n = true -> Fs.lookup n p = Some m -> Fs.wf m = true.
Proof.
  revert n. induction p as [|x p IH]; intros n Hwf; simpl.
  - by intros [= <-].
  - destruct n as [|l w es]; [done|].
    destruct (Fs.assoc x es) as [c|] eqn:Hx; [|done].
    apply IH. apply wf_dir in Hwf as [_ Hall].
    rewrite Forall_forall in Hall. apply (Hall (x, c)). by apply assoc_Some.
Qed.

(* ================================================================== *)
(** * The scanner: facts *)
(* ================================================================== *)

Lemma flat_map_app_perm {A B} (f g : A -> list B) (l : list A) :
  flat_map f l ++ flat_map g l ≡ₚ flat_map (fun a => f a ++ g a) l.
Proof.
  induction l as [|a l IH]; simpl; [done|].
  rewrite <- IH, <- !(assoc_L (++)). f_equiv.
  rewrite !(assoc_L (++)). f_equiv. apply Permutation_app_comm.
Qed.

Lemma flat_map_perm_ext {A B} (f g : A -> list B) (l : list A) :
  Forall (fun a => f a ≡ₚ g a) l -> flat_map f l ≡ₚ flat_map g l.
Proof.
  induction 1 as [|a l Ha _ IH]; simpl; [done|]. by rewrite Ha, IH.
Qed.

Lemma flat_map_perm {A B} (f : A -> list B) (l l' : list A) :
  l ≡ₚ l' -> flat_map f l ≡ₚ flat_map f l'.
Proof.
  induction 1 as [|a l l' _ IH|a b l|l1 l2 l3 _ IH1 _ IH2]; simpl.
  - done.
  - by rewrite IH.
  - rewrite !(assoc_L (++)). f_equiv. apply Permutation_app_comm.
  - by rewrite IH1.
Qed.

Lemma flat_map_flat_map {A B C} (f : A -> list B) (g : B -> list C) l :
  flat_map g (flat_map f l) = flat_map (fun a => flat_map g (f a)) l.
Proof.
  induction l as [|a l IH]; simpl; [done|]. by rewrite flat_map_app, IH.
Qed.

Lemma filter_flat_map {A B} (P : B -> Prop) `{!forall b, Decision (P b)}
    (f : A -> list B) (l : list A) :
  filter P (flat_map f l) = flat_map (fun a => filter P (f a)) l.
Proof.
  induction l as [|a l IH]; simpl; [done|]. by rewrite filter_app, IH.
Qed.

Lemma elem_of_flat_map {A B} (f : A -> list B) (l : list A) (b : B) :
  b ∈ flat_map f l <-> exists a, a ∈ l /\ b ∈ f a.
Proof.
  induction l as [|a l IH]; simpl.
  - split; [by intros ?%elem_of_nil | by intros (a & ?%elem_of_nil & _)].
  - rewrite elem_of_app, IH. split.
    + intros [Hb|(a' & Ha & Hb)]; [exists a | exists a'];
        rewrite elem_of_cons; auto.
    + intros (a' & [->|Ha]%elem_of_cons & Hb); eauto.
Qed.

(** The entries of a listed directory, seen through [is_file] and
    [is_dir]. *)
Lemma filter_is_file_entries fs d l w es :
  Fs.lookup fs d = Some (Dir l w es) -> NoDup (map fst es) ->
  filter (fun item => Is_true (Fs.is_file fs item)) (map (fun e => d // e.1) es)
  = file_entries d es.
Proof.
  intros Hd Hnd.
  assert (forall es', es' ⊆ es ->
    filter (fun item => Is_true (Fs.is_file fs item)) (map (fun e => d // e.1) es')
    = file_entries d es') as Hgen; [|by apply Hgen].
  induction es' as [|[x c] es' IH]; intros Hsub; [done|].
  assert (Fs.lookup fs (d // x) = Some c) as Hx.
  { rewrite (lookup_child _ _ _ _ _ _ Hd). apply assoc_elem_of; [done|].
    apply Hsub. apply elem_of_cons. by left. }
  assert (Fs.is_file fs (d // x) = match c with File _ _ => true | Dir _ _ _ => false end)
    as Hb by (unfold Fs.is_file; rewrite Hx; by destruct c).
  cbn [map file_entries flat_map fst snd]. fold (file_entries d es').
  rewrite <- IH by (intros e He; apply Hsub; set_solver).
  destruct c.
  - rewrite filter_cons_True; [done | by rewrite Hb].
  - rewrite filter_cons_False; [done | rewrite Hb; exact id].
Qed.

Lemma filter_is_dir_entries fs d l w es :
  Fs.lookup fs d = Some (Dir l w es) -> NoDup (map fst es) ->
  filter (fun item => Is_true (Fs.is_dir fs item)) (map (fun e => d // e.1) es)
  = dir_entries d es.
Proof.
  intros Hd Hnd.
  assert (forall es', es' ⊆ es ->
    filter (fun item => Is_true (Fs.is_dir fs item)) (map (fun e => d // e.1) es')
    = dir_entries d es') as Hgen; [|by apply Hgen].
  induction es' as [|[x c] es' IH]; intros Hsub; [done|].
  assert (Fs.lookup fs (d // x) = Some c) as Hx.
  { rewrite (lookup_child _ _ _ _ _ _ Hd). apply assoc_elem_of; [done|].
    apply Hsub. apply elem_of_cons. by left. }
  assert (Fs.is_dir fs (d // x) = match c with Dir _ _ _ => true | File _ _ => false end)
    as Hb by (unfold Fs.is_dir; rewrite Hx; by destruct c).
  cbn [map dir_entries flat_map fst snd]. fold (dir_entries d es').
  rewrite <- IH by (intros e He; apply Hsub; set_solver).
  destruct c.
  - rewrite filter_cons_False; [done | rewrite Hb; exact id].
  - rewrite filter_cons_True; [done | by rewrite Hb].
Qed.

Lemma files_in_dir fs d l w es :
  Fs.lookup fs d = Some (Dir l w es) -> NoDup (map fst es) ->
  files_in fs d = if l then file_entries d es else [].
Proof.
  intros Hd Hnd. unfold files_in, scan_directory, Fs.iterdir. rewrite Hd.
  destruct l; [|done]. simpl. by eapply filter_is_file_entries.
Qed.

Lemma dirs_in_dir fs d l w es :
  Fs.lookup fs d = Some (Dir l w es) -> NoDup (map fst es) ->
  dirs_in fs d = if l then dir_entries d es else [].
Proof.
  intros Hd Hnd. unfold dirs_in, Fs.iterdir. rewrite Hd.
  destruct l; [|done]. by eapply filter_is_dir_entries.
Qed.

(** Every directory that the traversal visits is a directory of the file
    system, found at its path. *)
Lemma iterate_directories_lookup fs n :
  forall p, Fs.wf n = true -> Fs.lookup fs p = Some n ->
  forall d, d ∈ Fs.iterate_directories p n ->
  exists l w es, Fs.lookup fs d = Some (Dir l w es) /\ NoDup (map fst es).
Proof.
  induction n as [c r|l w es IH] using node_tree_ind; intros p Hwf Hp d Hd.
  - by apply elem_of_nil in Hd.
  - pose proof Hwf as [Hnd Hall]%wf_dir.
    assert (d = p \/ l = true /\
            d ∈ flat_map (fun e => let '(x, c) := e in
                                   Fs.iterate_directories (p // x) c) es)
      as [->|[-> Hin]].
    { destruct l; simpl in Hd.
      - apply elem_of_cons in Hd as [->|Hd]; auto.
      - apply list_elem_of_singleton in Hd. auto. }
    + eauto.
    + apply elem_of_flat_map in Hin as ([x c] & Hxc & Hin).
      rewrite Forall_forall in IH, Hall.
      apply (IH (x, c) Hxc (p // x)); [by apply (Hall (x, c))| |done].
      rewrite (lookup_child _ _ _ _ _ _ Hp). by apply assoc_elem_of.
Qed.

(** The files that the listings of the visited directories return are the
    files of the independent walk. *)
Lemma files_in_walk fs n :
  forall p, Fs.wf n = true -> Fs.lookup fs p = Some n ->
  flat_map (files_in fs) (Fs.iterate_directories p n) ≡ₚ walk_files p n.
Proof.
  induction n as [c r|l w es IH] using node_tree_ind; intros p Hwf Hp.
  - done.
  - pose proof Hwf as [Hnd Hall]%wf_dir.
    destruct l; simpl.
    + rewrite (files_in_dir _ _ _ _ _ Hp Hnd), flat_map_flat_map.
      etrans.
      { apply Permutation_app_head.
        apply (flat_map_perm_ext _
                 (fun e => let '(x, c) := e in walk_files (p // x) c)).
        rewrite Forall_forall in IH, Hall. apply Forall_forall.
        intros [x c] Hxc. apply (IH (x, c) Hxc); [by apply (Hall (x, c))|].
        rewrite (lookup_child _ _ _ _ _ _ Hp). by apply assoc_elem_of. }
      unfold file_entries. rewrite flat_map_app_perm.
      apply flat_map_perm_ext, Forall_forall. intros [x [c r|l' w' es']] _; simpl.
      * done.
      * done.
    + by rewrite (files_in_dir _ _ _ _ _ Hp Hnd).
Qed.

(** The directories that [rglob] yields are the visited directories other
    than the root. *)
Lemma dirs_in_walk fs n :
  forall p, Fs.wf n = true -> Fs.lookup fs p = Some n ->
  flat_map (dirs_in fs) (Fs.iterate_directories p n)
  ≡ₚ tail (Fs.iterate_directories p n).
Proof.
  induction n as [c r|l w es IH] using node_tree_ind; intros p Hwf Hp.
  - done.
  - pose proof Hwf as [Hnd Hall]%wf_dir.
    destruct l; simpl.
    + rewrite (dirs_in_dir _ _ _ _ _ Hp Hnd), flat_map_flat_map.
      etrans.
      { apply Permutation_app_head.
        apply (flat_map_perm_ext _
                 (fun e => let '(x, c) := e in
                           tail (Fs.iterate_directories (p // x) c))).
        rewrite Forall_forall in IH, Hall. apply Forall_forall.
        intros [x c] Hxc. apply (IH (x, c) Hxc); [by apply (Hall (x, c))|].
        rewrite (lookup_child _ _ _ _ _ _ Hp). by apply assoc_elem_of. }
      unfold dir_entries. rewrite flat_map_app_perm.
      apply flat_map_perm_ext, Forall_forall.
      intros [x [c r|[] w' es']] _; simpl; done.
    + by rewrite (dirs_in_dir _ _ _ _ _ Hp Hnd).
Qed.

(** The first pass finds the visited directories. *)
Lemma enumerate_directories_perm fs root l w es :
  Fs.wf fs = true -> Fs.lookup fs root = Some (Dir l w es) ->
  enumerate_directories fs root ≡ₚ Fs.iterate_directories root (Dir l w es).
Proof.
  intros Hwf Hp. unfold enumerate_directories, Fs.rglob. rewrite Hp.
  rewrite filter_flat_map. fold (dirs_in fs).
  change (fun a => filter (fun item => Is_true (Fs.is_dir fs item))
                     match Fs.iterdir fs a with Ok ps => ps | Raise _ => [] end)
    with (dirs_in fs).
  rewrite dirs_in_walk by eauto using lookup_wf.
  by destruct l.
Qed.

Lemma merge_results_files_in fs ds :
  merge_results (map fst (map (scan_directory fs) ds)) = flat_map (files_in fs) ds.
Proof. induction ds as [|d ds IH]; simpl; [done|]. by rewrite <- IH. Qed.

Lemma walk_files_below p n q :
  q ∈ walk_files p n -> exists x r, q = p ++ x :: r.
Proof.
  revert p. induction n as [c r|l w es IH] using node_tree_ind; intros p Hq.
  - by apply elem_of_nil in Hq.
  - destruct l; simpl in Hq; [|by apply elem_of_nil in Hq].
    apply elem_of_flat_map in Hq as ([x c] & Hxc & Hq).
    rewrite Forall_forall in IH. destruct c as [c r|l' w' es'].
    + apply list_elem_of_singleton in Hq as ->. by exists x, [].
    + apply (IH _ Hxc) in Hq as (y & r & ->).
      exists x, (y :: r). unfold PurePath.joinpath. by rewrite <- (assoc_L (++)).
Qed.

Lemma walk_files_NoDup p n : Fs.wf n = true -> NoDup (walk_files p n).
Proof.
  revert p. induction n as [c r|l w es IH] using node_tree_ind; intros p Hwf.
  - constructor.
  - apply wf_dir in Hwf as [Hnd Hall].
    destruct l; simpl; [|constructor].
    induction es as [|[x c] es IHes]; simpl; [constructor|].
    apply Forall_cons in IH as [IHc IH]. apply Forall_cons in Hall as [Hc Hall].
    simpl in Hnd. apply NoDup_cons in Hnd as [Hx Hnd].
    apply NoDup_app. split_and!.
    + destruct c; [apply NoDup_singleton | by apply IHc].
    + intros q Hq Hq'.
      assert (exists r, q = p ++ x :: r) as [r ->].
      { destruct c as [c r|l' w' es'].
        - apply list_elem_of_singleton in Hq as ->. by exists [].
        - apply walk_files_below in Hq as (y & r & ->).
          exists (y :: r). unfold PurePath.joinpath. by rewrite <- (assoc_L (++)). }
      apply elem_of_flat_map in Hq' as ([y c'] & Hyc & Hq').
      assert (exists r', p ++ x :: r = p ++ y :: r') as [r' Heq].
      { destruct c' as [c' r'|l' w' es'].
        - apply list_elem_of_singleton in Hq'. by exists [].
        - apply walk_files_below in Hq' as (z & r' & ->).
          exists (z :: r'). unfold PurePath.joinpath. by rewrite <- (assoc_L (++)). }
      apply app_inv_head in Heq. injection Heq as -> _.
      apply Hx. apply list_elem_of_fmap. by exists (y, c').
    + by apply IHes.
Qed.

(** The independent walk finds the reachable regular files. *)
Lemma walk_files_reachable n :
  Fs.wf n = true ->
  forall p q,
    q ∈ walk_files p n <-> exists rel, q = p ++ rel /\ reachable_file n rel.
Proof.
  induction n as [c r|l w es IH] using node_tree_ind; intros Hwf p q.
  - split; [by intros ?%elem_of_nil|].
    intros (rel & -> & Hne & (c' & r' & Hf) & Hdirs).
    by destruct rel as [|x rel].
  - apply wf_dir in Hwf as [Hnd Hall]. rewrite Forall_forall in IH, Hall.
    destruct l; cycle 1.
    { split; [by intros ?%elem_of_nil|].
      intros (rel & -> & Hne & (c' & r' & Hf) & Hdirs).
      destruct rel as [|x rel]; [done|].
      destruct (Hdirs 0) as (w' & es' & [=]). simpl. lia. }
    simpl. rewrite elem_of_flat_map. split.
    + intros ([x c] & Hxc & Hq).
      pose proof (assoc_elem_of _ _ _ Hnd Hxc) as Hx.
      destruct c as [c r|l' w' es'].
      * apply list_elem_of_singleton in Hq as ->. exists [x]. split; [done|].
        split_and!; [done| |].
        -- exists c, r. simpl. by rewrite Hx.
        -- intros [|k] Hk; simpl in *; [eauto | lia].
      * apply (IH (x, _) Hxc (Hall _ Hxc)) in Hq
          as (rel & -> & Hne & (c & r & Hf) & Hdirs).
        exists (x :: rel). split.
        { unfold PurePath.joinpath. by rewrite <- (assoc_L (++)). }
        split_and!; [done| |].
        -- exists c, r. simpl. by rewrite Hx.
        -- intros [|k] Hk; simpl in *; [eauto|]. rewrite Hx. apply Hdirs. lia.
    + intros (rel & -> & Hne & (c & r & Hf) & Hdirs).
      destruct rel as [|x rel]; [done|]. simpl in Hf.
      destruct (Fs.assoc x es) as [c'|] eqn:Hx; [|done].
      pose proof (assoc_Some _ _ _ Hx) as Hxc.
      exists (x, c'). split; [done|].
      destruct c' as [c' r'|l' w' es'].
      * destruct rel as [|y rel]; [|done]. by apply list_elem_of_singleton.
      * apply (IH (x, _) Hxc (Hall _ Hxc)). exists rel. split.
        { unfold PurePath.joinpath. by rewrite <- (assoc_L (++)). }
        split_and!; [by intros ->|eauto|]. intros k Hk.
        destruct (Hdirs (S k)) as (w'' & es'' & Hd); [simpl; lia|].
        simpl in Hd. rewrite Hx in Hd. eauto.
Qed.

Lemma elem_of_as_completed `{sched : Scheduler} {A} (x : A) (l : list A) :
  x ∈ as_completed l <-> x ∈ l.
Proof. by rewrite as_completed_perm. Qed.

Lemma scan_files_threaded_exists `{sched : Scheduler} fs root :
  Fs.exists_ fs root = true ->
  scan_files_threaded fs root =
  {| all_files := flat_map (files_in fs) (as_completed (enumerate_directories fs root));
     directories := enumerate_directories fs root;
     scan_results_queue :=
       flat_map snd (map (scan_directory fs)
                       (as_completed (enumerate_directories fs root)));
     scan_calls :=
       CallRglob root
       :: map CallIterdir (as_completed (enumerate_directories fs root));
     scan_console := [] |}.
Proof.
  intros He. unfold scan_files_threaded. rewrite He. simpl.
  by rewrite merge_results_files_in.
Qed.

Lemma files_in_is_file fs d f : f ∈ files_in fs d -> Fs.is_file fs f = true.
Proof.
  unfold files_in, scan_directory.
  destruct (Fs.iterdir fs d) as [items|[]]; simpl;
    try (by intros ?%elem_of_nil).
  intros [Hf _]%list_elem_of_filter. by apply Is_true_eq_true.
Qed.

Lemma scan_all_files_walk `{sched : Scheduler} fs root n :
  Fs.wf fs = true -> Fs.lookup fs root = Some n ->
  flat_map (files_in fs) (as_completed (enumerate_directories fs root))
  ≡ₚ walk_files root n.
Proof.
  intros Hwf Hp. rewrite (flat_map_perm _ _ _ (as_completed_perm _ _)).
  destruct n as [c r|l w es].
  - unfold enumerate_directories, Fs.rglob. rewrite Hp. simpl.
    unfold files_in, scan_directory, Fs.iterdir. by rewrite Hp.
  - rewrite (flat_map_perm _ _ _ (enumerate_directories_perm _ _ _ _ _ Hwf Hp)).
    apply files_in_walk; eauto using lookup_wf.
Qed.

(** On a root that exists, the list that the scan returns is a
    rearrangement of the regular files that an independent recursive walk
    finds below the root, without repetition, and holds exactly the paths
    that lead from the root to a regular file through directories that can
    be listed; the directories enumerated are those that the traversal
    visits. *)
Lemma scan_files_threaded_walk `{sched : Scheduler} fs root n :
  Fs.wf fs = true -> Fs.lookup fs root = Some n ->
  all_files (scan_files_threaded fs root) ≡ₚ walk_files root n /\
  NoDup (all_files (scan_files_threaded fs root)) /\
  length (all_files (scan_files_threaded fs root)) = length (walk_files root n) /\
  (forall f, f ∈ all_files (scan_files_threaded fs root) ->
             Fs.is_file fs f = true /\ exists x r, f = root ++ x :: r) /\
  (forall f, f ∈ all_files (scan_files_threaded fs root) <->
             exists rel, f = root ++ rel /\ reachable_file n rel) /\
  directories (scan_files_threaded fs root) = enumerate_directories fs root /\
  (forall l w es, n = Dir l w es ->
     directories (scan_files_threaded fs root) ≡ₚ Fs.iterate_directories root n).
Proof.
  intros Hwf Hp.
  assert (Fs.exists_ fs root = true) as He by (unfold Fs.exists_; by rewrite Hp).
  rewrite scan_files_threaded_exists by done. simpl.
  pose proof (scan_all_files_walk fs root n Hwf Hp) as Hperm.
  split_and!.
  - done.
  - rewrite Hperm. apply walk_files_NoDup. eauto using lookup_wf.
  - by rewrite Hperm.
  - intros f Hf. split.
    + apply elem_of_flat_map in Hf as (d & _ & Hf). by eapply files_in_is_file.
    + rewrite Hperm in Hf. by eapply walk_files_below.
  - intros f. rewrite Hperm. apply walk_files_reachable. eauto using lookup_wf.
  - done.
  - intros l w es ->. by apply enumerate_directories_perm.
Qed.

(* ================================================================== *)
(** * The sweeper: facts *)
(* ================================================================== *)

(** The filter that the scan loop computes, spelled out. *)
Lemma find_temp_files_iff self fs path file_path :
  file_path ∈ find_temp_files self fs path <->
  file_path ∈ Fs.rglob fs path /\ Fs.is_file fs file_path = true /\
  ((exists ext, ext ∈ temp_extensions self /\
                ends_with (PurePath.name file_path) ext) \/
   (exists pattern, pattern ∈ temp_patterns /\
                    occurs_in pattern (PyStr.lower (PurePath.name file_path)))).
Proof.
  unfold find_temp_files. rewrite list_elem_of_filter.
  rewrite andb_True, !Is_true_true, is_temp_name_spec. tauto.
Qed.

(* ================================================================== *)
(** * Moving and removing: facts *)
(* ================================================================== *)

Lemma assoc_map_child x y g es :
  Fs.assoc x (Fs.map_child y g es)
  = if decide (x = y) then g <$> Fs.assoc y es else Fs.assoc x es.
Proof.
  induction es as [|[z c] es IH]; simpl; [by case_decide|].
  repeat (case_decide; simplify_eq/=); try done;
    rewrite IH; by (rewrite decide_True by done) || (rewrite decide_False by done).
Qed.

Lemma assoc_set_entry x y c es :
  Fs.assoc x (Fs.set_entry y c es)
  = if decide (x = y) then Some c else Fs.assoc x es.
Proof.
  induction es as [|[z d] es IH]; simpl; [done|].
  repeat (case_decide; simplify_eq/=); try done;
    rewrite IH; by (rewrite decide_True by done) || (rewrite decide_False by done).
Qed.

Lemma assoc_del_entry x y es :
  Fs.assoc x (Fs.del_entry y es)
  = if decide (x = y) then None else Fs.assoc x es.
Proof.
  induction es as [|[z d] es IH]; simpl; [by case_decide|].
  repeat (case_decide; simplify_eq/=); try done;
    rewrite IH; by (rewrite decide_True by done) || (rewrite decide_False by done).
Qed.

Lemma stat_nil fs : Fs.stat fs [] = Some (Fs.info_of fs).
Proof. done. Qed.

Lemma stat_cons l w es x q :
  Fs.stat (Dir l w es) (x :: q)
  = match Fs.assoc x es with Some c => Fs.stat c q | None => None end.
Proof. unfold Fs.stat. simpl. by destruct (Fs.assoc x es). Qed.

Lemma stat_file_cons c r x q : Fs.stat (File c r) (x :: q) = None.
Proof. done. Qed.

(** Changing the listing of the directory at [dp] is not seen by [stat] at
    a path that does not go through a changed entry. *)
Lemma stat_modify_dir g dp :
  forall fs q,
    (forall x rest, q = dp ++ x :: rest -> forall es, Fs.assoc x (g es) = Fs.assoc x es) ->
    Fs.stat (Fs.modify_dir g dp fs) q = Fs.stat fs q.
Proof.
  induction dp as [|y dp IH]; intros [c r|l w es] q Hq; simpl; try done.
  - destruct q as [|x rest]; [done|].
    rewrite !stat_cons. by rewrite (Hq x rest eq_refl).
  - destruct q as [|x rest]; [done|].
    rewrite !stat_cons, assoc_map_child.
    destruct (decide (x = y)) as [->|Hne]; [|done].
    destruct (Fs.assoc y es) as [c|]; simpl; [|done].
    apply IH. intros x' rest' ->. by apply (Hq x' rest').
Qed.

Lemma lookup_modify_dir_at g dp x :
  forall fs,
    Fs.lookup (Fs.modify_dir g dp fs) (dp ++ [x])
    = match Fs.lookup fs dp with
      | Some (Dir _ _ es) => Fs.assoc x (g es)
      | _ => None
      end.
Proof.
  induction dp as [|y dp IH]; intros [c r|l w es]; simpl; try done.
  - by destruct (Fs.assoc x (g es)).
  - rewrite assoc_map_child, decide_True by done.
    destruct (Fs.assoc y es) as [c|]; simpl; [apply IH | done].
Qed.

Lemma path_split (p : Path) :
  p <> [] -> p = PurePath.parent p ++ [PurePath.name p].
Proof. intros Hp. by apply app_removelast_last. Qed.

Lemma prefix_of_parent_name (p q : Path) x rest :
  p <> [] -> q = PurePath.parent p ++ x :: rest -> x = PurePath.name p ->
  p `prefix_of` q.
Proof.
  intros Hp -> ->. exists rest. pose proof (path_split p Hp) as Hsplit.
  remember (PurePath.parent p) as dp. remember (PurePath.name p) as x.
  rewrite Hsplit. by rewrite <- (assoc_L (++)).
Qed.

Lemma stat_put_other p n fs q :
  ~ p `prefix_of` q -> Fs.stat (Fs.put p n fs) q = Fs.stat fs q.
Proof.
  intros Hpq. assert (p <> []) as Hp by (intros ->; apply Hpq, prefix_nil).
  apply stat_modify_dir. intros x rest Hq es.
  rewrite assoc_set_entry, decide_False; [done|].
  intros Hx. by eapply Hpq, prefix_of_parent_name.
Qed.

Lemma stat_take_other p fs q :
  ~ p `prefix_of` q -> Fs.stat (Fs.take p fs) q = Fs.stat fs q.
Proof.
  intros Hpq. assert (p <> []) as Hp by (intros ->; apply Hpq, prefix_nil).
  apply stat_modify_dir. intros x rest Hq es.
  rewrite assoc_del_entry, decide_False; [done|].
  intros Hx. by eapply Hpq, prefix_of_parent_name.
Qed.

Lemma lookup_put_eq p n fs l w es :
  p <> [] -> Fs.lookup fs (PurePath.parent p) = Some (Dir l w es) ->
  Fs.lookup (Fs.put p n fs) p = Some n.
Proof.
  intros Hp Hd. unfold Fs.put. pose proof (path_split p Hp) as Hsplit.
  remember (PurePath.parent p) as dp. remember (PurePath.name p) as x.
  rewrite Hsplit.
  rewrite lookup_modify_dir_at, Hd, assoc_set_entry. by rewrite decide_True.
Qed.

Lemma lookup_take_eq p fs : p <> [] -> Fs.lookup (Fs.take p fs) p = None.
Proof.
  intros Hp. unfold Fs.take. pose proof (path_split p Hp) as Hsplit.
  remember (PurePath.parent p) as dp. remember (PurePath.name p) as x.
  rewrite Hsplit.
  rewrite lookup_modify_dir_at.
  destruct (Fs.lookup fs dp) as [[c r|l w es]|]; try done.
  rewrite assoc_del_entry. by rewrite decide_True.
Qed.

Lemma stat_Some_lookup fs p i :
  Fs.stat fs p = Some i -> exists n, Fs.lookup fs p = Some n /\ Fs.info_of n = i.
Proof.
  unfold Fs.stat. destruct (Fs.lookup fs p) as [n|]; simpl; [|done].
  intros [= <-]. eauto.
Qed.

Lemma stat_None_lookup fs p : Fs.stat fs p = None <-> Fs.lookup fs p = None.
Proof. unfold Fs.stat. by destruct (Fs.lookup fs p). Qed.

Lemma exists_stat fs p : Fs.exists_ fs p = false <-> Fs.stat fs p = None.
Proof.
  unfold Fs.exists_, Fs.stat. by destruct (Fs.lookup fs p).
Qed.

(** Nothing exists below a path that does not exist, nor below a file. *)
Lemma stat_None_prefix fs p q :
  Fs.stat fs p = None -> p `prefix_of` q -> Fs.stat fs q = None.
Proof.
  rewrite !stat_None_lookup. intros Hp [rest ->]. by rewrite lookup_app, Hp.
Qed.

Lemma stat_file_prefix fs p q c r :
  Fs.stat fs p = Some (IFile c r) -> p `prefix_of` q -> q <> p ->
  Fs.stat fs q = None.
Proof.
  intros (n & Hn & Hi)%stat_Some_lookup [rest ->] Hne.
  apply stat_None_lookup. rewrite lookup_app, Hn. simpl.
  destruct n; [|done]. destruct rest; [|done]. by rewrite app_nil_r in Hne.
Qed.

Lemma parent_check_Ok fs p :
  Fs.parent_check fs p = Ok tt <->
  p <> [] /\ exists l es, Fs.lookup fs (PurePath.parent p) = Some (Dir l true es).
Proof.
  unfold Fs.parent_check. destruct p as [|x p].
  { split; [done | by intros [? _]]. }
  destruct (Fs.lookup fs (PurePath.parent (x :: p))) as [[c r|l [] es]|].
  - split; [done | by intros [_ (? & ? & ?)]].
  - split; [intros _; split; [done | eauto] | done].
  - split; [done | by intros [_ (? & ? & ?)]].
  - split; [done | by intros [_ (? & ? & ?)]].
Qed.

Lemma parent_check_stat fs fs' p :
  Fs.stat fs' (PurePath.parent p) = Fs.stat fs (PurePath.parent p) ->
  Fs.parent_check fs' p = Fs.parent_check fs p.
Proof.
  unfold Fs.parent_check, Fs.stat. destruct p as [|x p]; [done|].
  destruct (Fs.lookup fs' _) as [[]|], (Fs.lookup fs _) as [[]|]; simpl;
    intros Heq; try done; by simplify_eq.
Qed.

Lemma prefix_of_parent (p q : Path) :
  p `prefix_of` q -> q <> p -> p `prefix_of` PurePath.parent q.
Proof.
  intros [rest ->] Hne. assert (rest <> []) as Hrest.
  { intros ->. by rewrite app_nil_r in Hne. }
  exists (removelast rest). unfold PurePath.parent. by apply removelast_app.
Qed.

(** A directory is not found at or below a regular file. *)
Lemma file_not_prefix_of_dir fs p q c r l w es :
  Fs.stat fs p = Some (IFile c r) -> Fs.lookup fs q = Some (Dir l w es) ->
  ~ p `prefix_of` q.
Proof.
  intros Hp Hq Hpre. destruct (decide (q = p)) as [->|Hne].
  - unfold Fs.stat in Hp. rewrite Hq in Hp. done.
  - pose proof (stat_file_prefix _ _ _ _ _ Hp Hpre Hne) as Hn.
    apply stat_None_lookup in Hn. congruence.
Qed.

Lemma unlink_Ok fs p fs' :
  Fs.unlink fs p = Ok fs' ->
  fs' = Fs.take p fs /\ Fs.parent_check fs p = Ok tt /\
  exists c r, Fs.lookup fs p = Some (File c r).
Proof.
  unfold Fs.unlink. destruct (Fs.lookup fs p) as [[c r|l w es]|]; try done.
  destruct (Fs.parent_check fs p) as [[]|e]; [|done].
  intros [= <-]. eauto.
Qed.

(** What [shutil.move] to a name that is free can do: nothing; rename; or,
    when renaming is refused, copy, and then remove the source or fail to. *)
Lemma move_cases fs src dst fs' r :
  Fs.exists_ fs dst = false -> Fs.move fs src dst = (fs', r) ->
  (fs' = fs /\ exists e, r = Raise e) \/
  (exists n, Fs.lookup fs src = Some n /\ Fs.parent_check fs src = Ok tt /\
             Fs.parent_check fs dst = Ok tt /\
             fs' = Fs.put dst n (Fs.take src fs) /\ r = Ok tt) \/
  (exists c, Fs.lookup fs src = Some (File c true) /\
             Fs.parent_check fs dst = Ok tt /\
             ((fs' = Fs.put dst (File c true) fs /\ exists e, r = Raise e) \/
              (fs' = Fs.take src (Fs.put dst (File c true) fs) /\
               src <> [] /\ r = Ok tt))).
Proof.
  intros He. unfold Fs.exists_ in He.
  destruct (Fs.lookup fs dst) eqn:Hdst; [done|].
  unfold Fs.move, Fs.is_dir. rewrite Hdst. simpl. unfold Fs.rename.
  unfold Fs.copy2.
  destruct (Fs.lookup fs src) as [n|] eqn:Hsrc;
    [|intros [= <- <-]; left; eauto].
  rewrite Hdst.
  destruct (Fs.parent_check fs src) as [[]|e1] eqn:Hps;
    destruct (Fs.parent_check fs dst) as [[]|e2] eqn:Hpd;
    destruct n as [c [|]|l w es]; simpl;
    try (intros [= <- <-];
         first [ left; by eauto | right; left; eexists; by eauto 10 ]).
  destruct (Fs.unlink _ src) as [fs2|e'] eqn:Hun; intros [= <- <-].
  - apply unlink_Ok in Hun as (-> & [Hne _]%parent_check_Ok & _).
    right; right. exists c. eauto 10.
  - right; right. exists c. eauto 10.
Qed.

(** A move to a free name changes nothing outside the source and the
    destination. *)
Lemma move_frame fs src dst fs' r q :
  Fs.exists_ fs dst = false -> Fs.move fs src dst = (fs', r) ->
  ~ src `prefix_of` q -> ~ dst `prefix_of` q ->
  Fs.stat fs' q = Fs.stat fs q.
Proof.
  intros He Hm Hs Hd.
  destruct (move_cases _ _ _ _ _ He Hm)
    as [[-> _]|[(n & _ & _ & _ & -> & _)|(c & _ & _ & [[-> _]|(-> & _)])]].
  - done.
  - by rewrite stat_put_other, stat_take_other.
  - by rewrite stat_put_other.
  - by rewrite stat_take_other, stat_put_other.
Qed.

(** A file other than the source is still there after the move. *)
Lemma move_keeps_files fs src dst fs' r q c rd :
  Fs.exists_ fs dst = false -> Fs.move fs src dst = (fs', r) ->
  Fs.stat fs q = Some (IFile c rd) -> ~ src `prefix_of` q ->
  Fs.stat fs' q = Some (IFile c rd).
Proof.
  intros He Hm Hq Hs. rewrite (move_frame _ _ _ _ _ _ He Hm); [done..|].
  intros Hd. apply exists_stat in He.
  rewrite (stat_None_prefix _ _ _ He Hd) in Hq. done.
Qed.

(** A successful move of a regular file puts it at the destination and
    leaves nothing at the source. *)
Lemma move_success fs src dst fs' c rd :
  Fs.exists_ fs dst = false -> Fs.stat fs src = Some (IFile c rd) ->
  Fs.move fs src dst = (fs', Ok tt) ->
  Fs.stat fs' dst = Some (IFile c rd) /\ Fs.stat fs' src = None.
Proof.
  intros He Hsrc Hm. pose proof He as Hdst%exists_stat.
  assert (~ dst `prefix_of` src) as Hds.
  { intros Hpre. rewrite (stat_None_prefix _ _ _ Hdst Hpre) in Hsrc. done. }
  assert (forall l w es, Fs.lookup fs (PurePath.parent dst) = Some (Dir l w es) ->
                         ~ src `prefix_of` dst) as Hsd.
  { intros l w es Hpar Hpre.
    apply (file_not_prefix_of_dir _ _ _ _ _ _ _ _ Hsrc Hpar).
    apply prefix_of_parent; [done|]. intros ->. congruence. }
  destruct (move_cases _ _ _ _ _ He Hm)
    as [[_ [e [=]]]|[(n & Hn & Hps & Hpd & -> & _)
                    |(c' & Hn & Hpd & [[_ [e [=]]]|(-> & Hne & _)])]].
  - apply parent_check_Ok in Hps as [Hs0 _].
    apply parent_check_Ok in Hpd as [Hd0 (l & es & Hpar)].
    assert (n = File c rd) as ->.
    { unfold Fs.stat in Hsrc. rewrite Hn in Hsrc. by destruct n; simplify_eq/=. }
    split.
    + assert (Fs.stat (Fs.take src fs) (PurePath.parent dst) = Some (IDir l true))
        as (m & Hm' & Hi)%stat_Some_lookup.
      { rewrite stat_take_other.
        - unfold Fs.stat. by rewrite Hpar.
        - by eapply file_not_prefix_of_dir. }
      destruct m as [|l' w' es']; simplify_eq/=.
      unfold Fs.stat. by erewrite lookup_put_eq.
    + rewrite stat_put_other by done.
      apply stat_None_lookup. by apply lookup_take_eq.
  - apply parent_check_Ok in Hpd as [Hd0 (l & es & Hpar)].
    assert (rd = true /\ c' = c) as [-> ->].
    { unfold Fs.stat in Hsrc. rewrite Hn in Hsrc. by simplify_eq/=. }
    split.
    + rewrite stat_take_other by eauto.
      unfold Fs.stat. by erewrite lookup_put_eq.
    + apply stat_None_lookup. by apply lookup_take_eq.
Qed.

(** [mkdir] keeps every file where it is. *)
Lemma mkdir_exist_ok_frame fs p fs1 q i :
  Fs.mkdir_exist_ok fs p = Ok fs1 -> Fs.stat fs q = Some i ->
  Fs.stat fs1 q = Some i.
Proof.
  unfold Fs.mkdir_exist_ok.
  destruct (Fs.lookup fs p) as [[c r|l w es]|] eqn:Hp; [done|by intros [= <-]|].
  destruct (Fs.parent_check fs p) as [[]|e]; [|done].
  intros [= <-] Hq. rewrite stat_put_other; [done|].
  intros Hpre. apply stat_None_lookup in Hp.
  rewrite (stat_None_prefix _ _ _ Hp Hpre) in Hq. done.
Qed.

Lemma mkdir_exist_ok_is_dir fs p fs1 :
  Fs.mkdir_exist_ok fs p = Ok fs1 -> Fs.is_dir fs1 p = true.
Proof.
  unfold Fs.mkdir_exist_ok, Fs.is_dir.
  destruct (Fs.lookup fs p) as [[c r|l w es]|] eqn:Hp;
    [done|intros [= <-]; by rewrite Hp|].
  destruct (Fs.parent_check fs p) as [[]|e] eqn:Hpc; [|done].
  apply parent_check_Ok in Hpc as [Hne (l & es & Hpar)].
  intros [= <-]. by erewrite lookup_put_eq.
Qed.

(* ================================================================== *)
(** * The organiser: facts *)
(* ================================================================== *)

Lemma numbered_name_inj file_path i j :
  numbered_name file_path i = numbered_name file_path j -> i = j.
Proof.
  unfold numbered_name. intros Heq.
  apply (inj (String.append _)) in Heq. apply (inj (String.append _)) in Heq.
  apply append_inv_r in Heq. by apply (inj pretty) in Heq.
Qed.

Lemma candidate_succ dir file_path k :
  candidate dir file_path (S k) = dir // numbered_name file_path (S k).
Proof. done. Qed.

(** When the loop of the category branch runs out of fuel, every name it
    tried is taken. *)
Lemma resolve_conflict_None fuel fs dir file_path :
  forall new_path counter,
    resolve_conflict fuel fs dir file_path new_path counter = None ->
    forall j, counter <= j < counter + (fuel - 1) ->
              Fs.exists_ fs (dir // numbered_name file_path j) = true.
Proof.
  induction fuel as [|fuel IH]; intros new_path counter Hnone j Hj; [lia|].
  simpl in Hnone. destruct (Fs.exists_ fs new_path); [|done].
  destruct (decide (j = counter)) as [->|Hne].
  - destruct fuel as [|fuel]; [lia|]. simpl in Hnone.
    by destruct (Fs.exists_ fs (dir // numbered_name file_path counter)).
  - apply (IH _ _ Hnone). lia.
Qed.

(** When it returns, the name it returns is free and the names it tried
    before are taken. *)
Lemma resolve_conflict_Some fuel fs dir file_path :
  forall new_path counter p,
    resolve_conflict fuel fs dir file_path new_path counter = Some p ->
    Fs.exists_ fs p = false /\
    (p = new_path \/
     Fs.exists_ fs new_path = true /\
     exists j, counter <= j /\ p = dir // numbered_name file_path j /\
               forall i, counter <= i < j ->
                         Fs.exists_ fs (dir // numbered_name file_path i) = true).
Proof.
  induction fuel as [|fuel IH]; intros new_path counter p Hsome; [done|].
  simpl in Hsome. destruct (Fs.exists_ fs new_path) eqn:He.
  - apply IH in Hsome as [Hfree [->|(Hex & j & Hj & -> & Hall)]].
    + split; [done|]. right. split; [done|]. exists counter.
      split_and!; [lia|done|]. intros i Hi. lia.
    + split; [done|]. right. split; [done|]. exists j.
      split_and!; [lia|done|]. intros i Hi.
      destruct (decide (i = counter)) as [->|Hne]; [done|]. apply Hall. lia.
  - injection Hsome as <-. auto.
Qed.

Lemma resolve_conflict_mono fuel fs dir file_path :
  forall new_path counter p fuel',
    resolve_conflict fuel fs dir file_path new_path counter = Some p ->
    fuel <= fuel' ->
    resolve_conflict fuel' fs dir file_path new_path counter = Some p.
Proof.
  induction fuel as [|fuel IH]; intros new_path counter p fuel' Hsome Hle; [done|].
  destruct fuel' as [|fuel']; [lia|]. simpl in *.
  destruct (Fs.exists_ fs new_path); [|done]. apply IH; [done|lia].
Qed.

(** The names that are taken in a directory are among finitely many. *)
Lemma taken_names fs dir :
  exists names : list string,
    forall s, Fs.exists_ fs (dir // s) = true -> s ∈ names.
Proof.
  destruct (Fs.lookup fs dir) as [[c r|l w es]|] eqn:Hd.
  - exists []. intros s. unfold Fs.exists_, PurePath.joinpath.
    by rewrite lookup_app, Hd.
  - exists (map fst es). intros s. unfold Fs.exists_.
    rewrite (lookup_child _ _ _ _ _ _ Hd).
    destruct (Fs.assoc s es) as [c|] eqn:Hs; [|done].
    intros _. apply assoc_Some in Hs. apply list_elem_of_fmap. by exists (s, c).
  - exists []. intros s. unfold Fs.exists_, PurePath.joinpath.
    by rewrite lookup_app, Hd.
Qed.

(** The loop of the category branch ends: the numbered names are pairwise
    different, and only finitely many of them can be taken. *)
Lemma resolve_conflict_terminates fs dir file_path new_path counter :
  exists fuel p, resolve_conflict fuel fs dir file_path new_path counter = Some p.
Proof.
  destruct (taken_names fs dir) as [names Hnames].
  exists (length names + 2).
  destruct (resolve_conflict _ fs dir file_path new_path counter) as [p|] eqn:Hr;
    [by exists p|].
  exfalso.
  pose proof (resolve_conflict_None _ _ _ _ _ _ Hr) as Hall.
  assert (map (numbered_name file_path) (seq counter (length names + 1)) ⊆+ names)
    as Hsub.
  { apply NoDup_submseteq.
    - apply NoDup_fmap_2; [|apply NoDup_seq].
      intros i j. apply numbered_name_inj.
    - intros s (j & -> & Hj)%list_elem_of_fmap. apply elem_of_seq in Hj.
      apply Hnames, Hall. lia. }
  apply submseteq_length in Hsub. rewrite length_map, length_seq in Hsub. lia.
Qed.

(** The loop returns the first candidate that is free. *)
Lemma resolve_conflict_first_free fs dir file_path :
  exists fuel k,
    (forall fuel', fuel <= fuel' ->
       resolve_conflict fuel' fs dir file_path (dir // PurePath.name file_path) 1
       = Some (candidate dir file_path k)) /\
    Fs.exists_ fs (candidate dir file_path k) = false /\
    forall j, j < k -> Fs.exists_ fs (candidate dir file_path j) = true.
Proof.
  destruct (resolve_conflict_terminates fs dir file_path
              (dir // PurePath.name file_path) 1) as (fuel & p & Hr).
  exists fuel.
  destruct (resolve_conflict_Some _ _ _ _ _ _ _ Hr)
    as [Hfree [->|(Hex & j & Hj & -> & Hall)]].
  - exists 0. split_and!; [|done|lia].
    intros fuel' Hle. by eapply resolve_conflict_mono.
  - exists j. destruct j as [|j]; [lia|]. split_and!; [|done|].
    + intros fuel' Hle. by eapply resolve_conflict_mono.
    + intros [|i] Hi; [done|]. apply Hall. lia.
Qed.

Lemma organize_loop_found fuel path fs file_path file_ext items category :
  classify items file_ext = Some category ->
  organize_loop fuel path fs file_path file_ext items =
  match Fs.mkdir_exist_ok fs (path // category) with
  | Raise e => Some (fs, Raise e)
  | Ok fs1 =>
      match resolve_conflict fuel fs1 (path // category) file_path
              (path // category // PurePath.name file_path) 1 with
      | None => None
      | Some new_path => Some (move_and_report fs1 file_path new_path category)
      end
  end.
Proof.
  induction items as [|[c exts] items IH]; simpl; [done|].
  destruct (PyStr.mem file_ext exts); [by intros [= ->] | apply IH].
Qed.

Lemma organize_loop_not_found fuel path fs file_path file_ext items :
  classify items file_ext = None ->
  organize_loop fuel path fs file_path file_ext items =
  organize_others fuel path fs file_path file_ext.
Proof.
  induction items as [|[c exts] items IH]; simpl; [done|].
  destruct (PyStr.mem file_ext exts); [done | apply IH].
Qed.

(** The loop of the [Others] branch: it returns at once when the name is
    free, and never when the name is taken. *)
Lemma resolve_conflict_others_taken fs file_path new_path :
  Fs.exists_ fs new_path = true ->
  forall fuel counter,
    resolve_conflict_others fuel fs file_path new_path counter = None.
Proof.
  intros He. induction fuel as [|fuel IH]; intros counter; simpl; [done|].
  rewrite He. apply IH.
Qed.

Lemma resolve_conflict_others_free fs file_path new_path fuel counter :
  Fs.exists_ fs new_path = false ->
  resolve_conflict_others (S fuel) fs file_path new_path counter = Some new_path.
Proof. intros He. simpl. by rewrite He. Qed.

Lemma organize_file_clash self path fs file_path :
  others_clash self path fs file_path ->
  forall fuel, organize_file fuel self path fs file_path = None.
Proof.
  intros (Hc & Ht & fs1 & Hmk & He) fuel. unfold organize_file.
  rewrite (organize_loop_not_found _ _ _ _ _ _ Hc). unfold organize_others.
  rewrite Ht, Hmk. simpl.
  by rewrite (resolve_conflict_others_taken _ _ _ He).
Qed.

Lemma resolve_conflict_others_mono fuel fs file_path new_path :
  forall counter p fuel',
    resolve_conflict_others fuel fs file_path new_path counter = Some p ->
    fuel <= fuel' ->
    resolve_conflict_others fuel' fs file_path new_path counter = Some p.
Proof.
  induction fuel as [|fuel IH]; intros counter p fuel' Hsome Hle; [done|].
  destruct fuel' as [|fuel']; [lia|]. simpl in *.
  destruct (Fs.exists_ fs new_path); [|done]. apply IH; [done|lia].
Qed.

(** More fuel does not change what a call returns. *)
Lemma organize_file_mono fuel fuel' self path fs file_path res :
  organize_file fuel self path fs file_path = Some res -> fuel <= fuel' ->
  organize_file fuel' self path fs file_path = Some res.
Proof.
  unfold organize_file. intros Hres Hle.
  destruct (classify (file_categories self)
              (PyStr.lower (PurePath.suffix file_path))) as [category|] eqn:Hc.
  - rewrite (organize_loop_found fuel _ _ _ _ _ _ Hc) in Hres.
    rewrite (organize_loop_found fuel' _ _ _ _ _ _ Hc).
    destruct (Fs.mkdir_exist_ok fs (path // category)) as [fs1|e]; [|done].
    destruct (resolve_conflict fuel _ _ _ _ _) as [p|] eqn:Hr; [|done].
    by rewrite (resolve_conflict_mono _ _ _ _ _ _ _ _ Hr Hle).
  - rewrite (organize_loop_not_found fuel _ _ _ _ _ Hc) in Hres.
    rewrite (organize_loop_not_found fuel' _ _ _ _ _ Hc).
    unfold organize_others in *.
    destruct (negb false && _); [|done].
    destruct (Fs.mkdir_exist_ok fs (path // "Others")) as [fs1|e]; [|done].
    destruct (resolve_conflict_others fuel _ _ _ _) as [p|] eqn:Hr; [|done].
    by rewrite (resolve_conflict_others_mono _ _ _ _ _ _ _ Hr Hle).
Qed.

(** A call of [organize_file] returns with enough fuel, unless it meets a
    taken name in [Others]. *)
Lemma organize_file_returns self path fs file_path :
  (exists fuel res, forall fuel', fuel <= fuel' ->
      organize_file fuel' self path fs file_path = Some res) \/
  others_clash self path fs file_path.
Proof.
  unfold organize_file.
  destruct (classify (file_categories self)
              (PyStr.lower (PurePath.suffix file_path))) as [category|] eqn:Hc.
  - left. setoid_rewrite (organize_loop_found _ _ _ _ _ _ _ Hc).
    destruct (Fs.mkdir_exist_ok fs (path // category)) as [fs1|e].
    + destruct (resolve_conflict_first_free fs1 (path // category) file_path)
        as (fuel & k & Hr & _).
      exists fuel. eexists. intros fuel' Hle. by rewrite (Hr fuel' Hle).
    + exists 0. eauto.
  - setoid_rewrite (organize_loop_not_found _ _ _ _ _ _ Hc).
    unfold organize_others.
    destruct (PyStr.truthy (PyStr.lower (PurePath.suffix file_path))) eqn:Ht;
      simpl; [|left; exists 0; eauto].
    destruct (Fs.mkdir_exist_ok fs (path // "Others")) as [fs1|e] eqn:Hmk;
      [|left; exists 0; eauto].
    destruct (Fs.exists_ fs1 (path // "Others" // PurePath.name file_path))
      eqn:He.
    + right. unfold others_clash. eauto 10.
    + left. exists 1. eexists. intros [|fuel'] Hle; [lia|].
      by rewrite resolve_conflict_others_free.
Qed.

Lemma organize_files_app fuel self path fs done todo :
  organize_files fuel self path fs (done ++ todo) =
  match organize_files fuel self path fs done with
  | None => None
  | Some (fs1, rs1) =>
      match organize_files fuel self path fs1 todo with
      | None => None
      | Some (fs2, rs2) => Some (fs2, rs1 ++ rs2)
      end
  end.
Proof.
  revert fs. induction done as [|f done IH]; intros fs; simpl.
  - by destruct (organize_files fuel self path fs todo) as [[? ?]|].
  - destruct (organize_file fuel self path fs f) as [[fs1 r]|]; [|done].
    rewrite IH. destruct (organize_files fuel self path fs1 done) as [[fs2 rs]|];
      [|done].
    by destruct (organize_files fuel self path fs2 todo) as [[? ?]|].
Qed.

(** The pool finishes with enough fuel, unless one of its tasks meets a
    taken name in [Others]; then it never does. *)
Lemma organize_files_returns self path files :
  forall fs,
    (exists fuel res, forall fuel', fuel <= fuel' ->
        organize_files fuel' self path fs files = Some res) \/
    (exists done file_path todo fuel fs_i rs,
        files = done ++ file_path :: todo /\
        (forall fuel', fuel <= fuel' ->
           organize_files fuel' self path fs done = Some (fs_i, rs)) /\
        others_clash self path fs_i file_path /\
        forall fuel', organize_files fuel' self path fs files = None).
Proof.
  induction files as [|f files IH]; intros fs.
  - left. exists 0. eauto.
  - destruct (organize_file_returns self path fs f)
      as [(fuel1 & [fs1 r] & H1)|Hclash].
    + destruct (IH fs1) as [(fuel2 & [fs2 rs] & H2)
                           |(done & g & todo & fuel2 & fs_i & rs & -> & Hd & Hc & Hn)].
      * left. exists (max fuel1 fuel2). eexists. intros fuel' Hle. simpl.
        rewrite H1 by lia. by rewrite H2 by lia.
      * right. exists (f :: done), g, todo, (max fuel1 fuel2), fs_i, ((f, r) :: rs).
        split_and!; [done| |done|].
        -- intros fuel' Hle. simpl. rewrite H1 by lia. by rewrite Hd by lia.
        -- intros fuel'. simpl.
           destruct (organize_file fuel' self path fs f) as [[fs1' r']|] eqn:Hf;
             [|done].
           destruct (le_ge_dec fuel1 fuel') as [Hle|Hge].
           ++ rewrite H1 in Hf by done. injection Hf as <- <-. by rewrite Hn.
           ++ destruct (organize_files fuel' self path fs1' (done ++ g :: todo))
                as [[? ?]|] eqn:Hrest; [|done].
              exfalso.
              assert (organize_file fuel1 self path fs f = Some (fs1', r')) as Hf1
                by (eapply organize_file_mono; [done|lia]).
              rewrite H1 in Hf1 by done. injection Hf1 as <- <-.
              by rewrite Hn in Hrest.
    + right. exists [], f, files, 0, fs, []. split_and!; [done|done|done|].
      intros fuel'. simpl. by rewrite organize_file_clash.
Qed.

Lemma count_results_from rs :
  forall t,
    organized_count (fold_left count_result rs t)
    + error_count (fold_left count_result rs t) + count_skipped rs
    = organized_count t + error_count t + length rs.
Proof.
  unfold count_skipped. induction rs as [|r rs IH]; intros t; simpl; [lia|].
  pose proof (IH (count_result t r)) as Hrs.
  destruct r as [[c|e|]|e];
    [rewrite filter_cons_False by exact id
    |rewrite filter_cons_False by exact id
    |rewrite filter_cons_True by done
    |rewrite filter_cons_False by exact id];
    simpl in *; lia.
Qed.

Lemma count_results_total rs :
  organized_count (count_results rs) + error_count (count_results rs)
  + count_skipped rs = length rs.
Proof. unfold count_results. by rewrite count_results_from. Qed.

Lemma organize_files_paths fuel self path :
  forall files fs fs' rs,
    organize_files fuel self path fs files = Some (fs', rs) ->
    map fst rs = files.
Proof.
  induction files as [|f files IH]; intros fs fs' rs; simpl.
  - by intros [= _ <-].
  - destruct (organize_file fuel self path fs f) as [[fs1 r]|]; [|done].
    destruct (organize_files fuel self path fs1 files) as [[fs2 rs']|] eqn:Hrest;
      [|done].
    intros [= _ <-]. simpl. f_equal. by eapply IH.
Qed.

(** C4. For a file whose extension is listed by a category, with the
    category directory there or made: [organize_file] returns, given enough
    fuel; it moves the file to the first free name among [name],
    [stem_1.ext], [stem_2.ext], ... in the category directory, every earlier
    name of that sequence being taken; every regular file other than the
    moved one is afterwards where it was, with the bytes it had, so nothing
    is overwritten; and when the call reports success the moved file is at
    the new name with its bytes and no longer at the old one. *)
Theorem organize_file_numbers_conflicts self path fs file_path category fs1 :
  classify (file_categories self) (PyStr.lower (PurePath.suffix file_path))
  = Some category ->
  Fs.mkdir_exist_ok fs (path // category) = Ok fs1 ->
  (candidate (path // category) file_path 0
   = path // category // PurePath.name file_path /\
   candidate (path // category) file_path 1
   = path // category
     // (PurePath.stem file_path +:+ "_1" +:+ PurePath.suffix file_path) /\
   candidate (path // category) file_path 2
   = path // category
     // (PurePath.stem file_path +:+ "_2" +:+ PurePath.suffix file_path)) /\
  exists fuel k fs' r,
    (forall fuel', fuel <= fuel' ->
       organize_file fuel' self path fs file_path = Some (fs', r)) /\
    (fs', r)
    = move_and_report fs1 file_path (candidate (path // category) file_path k)
        category /\
    Fs.exists_ fs1 (candidate (path // category) file_path k) = false /\
    (forall j, j < k ->
       Fs.exists_ fs1 (candidate (path // category) file_path j) = true) /\
    (forall q c rd,
       Fs.stat fs q = Some (IFile c rd) -> ~ file_path `prefix_of` q ->
       Fs.stat fs' q = Some (IFile c rd)) /\
    (forall c rd,
       Fs.stat fs file_path = Some (IFile c rd) -> r = Ok (Success category) ->
       Fs.stat fs' (candidate (path // category) file_path k) = Some (IFile c rd) /\
       Fs.stat fs' file_path = None).
Proof.
  intros Hc Hmk. split; [done|].
  destruct (resolve_conflict_first_free fs1 (path // category) file_path)
    as (fuel & k & Hr & Hfree & Htaken).
  destruct (Fs.move fs1 file_path (candidate (path // category) file_path k))
    as [fs' r0] eqn:Hmove.
  exists fuel, k, fs',
    (match r0 with Ok _ => Ok (Success category) | Raise e => Ok (Error e) end).
  split_and!.
  - intros fuel' Hle. unfold organize_file.
    rewrite (organize_loop_found _ _ _ _ _ _ _ Hc), Hmk, (Hr fuel' Hle).
    unfold move_and_report. rewrite Hmove. by destruct r0.
  - unfold move_and_report. rewrite Hmove. by destruct r0.
  - done.
  - done.
  - intros q c rd Hq Hpre.
    eapply move_keeps_files; eauto using mkdir_exist_ok_frame.
  - intros c rd Hsrc Hok. destruct r0 as [[]|e]; [|done].
    eapply move_success; eauto using mkdir_exist_ok_frame.
Qed.

Lemma organize_file_numbers_conflicts_witness :
  exists fs',
    organize_file 3 init [] sample_fs ["c.pdf"]
    = Some (fs', Ok (Success "Documents")) /\
    Fs.stat fs' ["Documents"; "c_2.pdf"] = Some (IFile [x04] true) /\
    Fs.stat fs' ["Documents"; "c.pdf"] = Some (IFile [x07] true) /\
    Fs.stat fs' ["Documents"; "c_1.pdf"] = Some (IFile [x08] true) /\
    Fs.stat fs' ["c.pdf"] = None.
Proof.
  destruct (organize_file_numbers_conflicts init [] sample_fs ["c.pdf"]
              "Documents" sample_fs eq_refl eq_refl)
    as (_ & fuel & k & fs' & r & Hrun & Hres & Hfree & Htaken & Hkeep & Hmoved).
  exists fs'.
  assert (k = 2) as ->.
  { destruct k as [|[|[|k]]]; [done|done|done|].
    by specialize (Htaken 2 ltac:(lia)). }
  injection Hres as -> ->.
  split_and!; vm_compute; reflexivity.
Defined.

Lemma smart_organize_threaded_pool `{sched : Scheduler} fuel self rich fs path
    confirm answer :
  Fs.exists_ fs path = true ->
  all_files (scan_files_threaded fs path) <> [] ->
  confirm && negb answer = false ->
  smart_organize_threaded fuel self rich fs path confirm answer =
  match organize_files fuel self path fs
          (as_completed (all_files (scan_files_threaded fs path))) with
  | None => None
  | Some (fs', rs) =>
      Some {| org_fs := fs';
              org_total_files := length (all_files (scan_files_threaded fs path));
              org_results := rs;
              org_tally := count_results (map snd rs);
              org_console :=
                MsgFoundToOrganize (length (all_files (scan_files_threaded fs path)))
                :: organize_summary rich
                     (length (all_files (scan_files_threaded fs path)))
                     (count_results (map snd rs)) |}
  end.
Proof.
  intros He Hne Hgo. unfold smart_organize_threaded.
  rewrite He, Hgo. simpl. by rewrite bool_decide_eq_false_2.
Qed.

Lemma scan_missing_path `{sched : Scheduler} fs path :
  Fs.exists_ fs path = false -> all_files (scan_files_threaded fs path) = [].
Proof. intros He. unfold scan_files_threaded. by rewrite He. Qed.

(** C1, as the code has it.  In a run of [smart_organize_threaded] that is
    not cancelled and returns, every scanned file has one result, which is
    a success, an error, a skip, or an exception that was raised; the two
    counters and the skips together make up the number of scanned files,
    but only the two counters, for successes and for failures, exist and
    are printed, next to the total.  The run returns, given enough fuel,
    unless a task meets a taken name in [Others]. *)
Theorem organize_tally `{sched : Scheduler} self rich fs path confirm answer :
  (forall fuel run,
     smart_organize_threaded fuel self rich fs path confirm answer = Some run ->
     confirm && negb answer = false ->
     map fst (org_results run) ≡ₚ all_files (scan_files_threaded fs path) /\
     org_total_files run = length (all_files (scan_files_threaded fs path)) /\
     organized_count (org_tally run) + error_count (org_tally run)
     + count_skipped (map snd (org_results run)) = org_total_files run /\
     (all_files (scan_files_threaded fs path) <> [] ->
      org_console run
      = MsgFoundToOrganize (org_total_files run)
        :: organize_summary rich (org_total_files run) (org_tally run))) /\
  ((exists fuel run, forall fuel', fuel <= fuel' ->
      smart_organize_threaded fuel' self rich fs path confirm answer = Some run) \/
   (exists done file_path todo fuel fs_i rs,
      as_completed (all_files (scan_files_threaded fs path))
      = done ++ file_path :: todo /\
      (forall fuel', fuel <= fuel' ->
         organize_files fuel' self path fs done = Some (fs_i, rs)) /\
      others_clash self path fs_i file_path /\
      forall fuel',
        smart_organize_threaded fuel' self rich fs path confirm answer = None)).
Proof.
  destruct (Fs.exists_ fs path) eqn:He; cycle 1.
  { pose proof (scan_missing_path fs path He) as Hnil.
    unfold smart_organize_threaded. rewrite He. simpl. split.
    - intros fuel run [= <-] _. rewrite Hnil. simpl. by split_and!.
    - left. exists 0. eauto. }
  destruct (decide (all_files (scan_files_threaded fs path) = [])) as [Hnil|Hne].
  { unfold smart_organize_threaded. rewrite He. simpl.
    rewrite bool_decide_eq_true_2 by done. split.
    - intros fuel run [= <-] _. rewrite Hnil. simpl. by split_and!.
    - left. exists 0. eauto. }
  destruct (confirm && negb answer) eqn:Hgo.
  { unfold smart_organize_threaded. rewrite He, Hgo. simpl.
    rewrite bool_decide_eq_false_2 by done. split; [done|].
    left. exists 0. eauto. }
  setoid_rewrite (smart_organize_threaded_pool _ _ _ _ _ _ _ He Hne Hgo). split.
  - intros fuel run Hrun _.
    destruct (organize_files fuel self path fs _) as [[fs' rs]|] eqn:Hpool;
      [|done].
    injection Hrun as <-. simpl.
    apply organize_files_paths in Hpool. split_and!.
    + rewrite Hpool. apply as_completed_perm.
    + done.
    + rewrite count_results_total, length_map.
      rewrite <- (length_map fst), Hpool. by rewrite as_completed_perm.
    + done.
  - destruct (organize_files_returns self path
                (as_completed (all_files (scan_files_threaded fs path))) fs)
      as [(fuel & [fs' rs] & Hres)
         |(done & f & todo & fuel & fs_i & rs & Hsplit & Hdone & Hclash & Hnone)].
    + left. exists fuel. eexists. intros fuel' Hle. by rewrite Hres.
    + right. exists done, f, todo, fuel, fs_i, rs. split_and!; [done..|].
      intros fuel'. by rewrite Hnone.
Qed.

Lemma organize_tally_witness :
  exists run,
    smart_organize_threaded (sched := lifo_scheduler) 2 init true inbox_fs []
      true true = Some run /\
    organized_count (org_tally run) + error_count (org_tally run)
    + count_skipped (map snd (org_results run)) = org_total_files run.
Proof.
  destruct (organize_tally (sched := lifo_scheduler) init true inbox_fs []
              true true) as [Hreturned _].
  destruct (smart_organize_threaded (sched := lifo_scheduler) 2 init true
              inbox_fs [] true true) as [run|] eqn:Hrun;
    [|vm_compute in Hrun; discriminate].
  exists run. split; [reflexivity|].
  by apply (Hreturned 2 run Hrun eq_refl).
Defined.

(** C1, as the specification has it, fails: on an inbox with a picture and
    a file without an extension the run prints a total of two, one success
    and no error.  No count of skipped files is kept or printed, and the
    counts that are do not add up to the total. *)
Lemma organize_tally_has_no_skipped_count :
  exists run,
    smart_organize_threaded (sched := fifo_scheduler) 2 init true inbox_fs []
      false false = Some run /\
    org_results run
    = [(["README"], Ok Skipped); (["a.jpg"], Ok (Success "Images"))] /\
    org_console run = [MsgFoundToOrganize 2; MsgResultsTable 2 1 0] /\
    organized_count (org_tally run) + error_count (org_tally run)
    <> org_total_files run.
Proof.
  eexists. split; [vm_compute; reflexivity|]. simpl. split_and!; [done..|lia].
Qed.

(** C3 fails on the code.  When no category lists the extension of a file,
    the extension is not empty, and [Others] already has an entry with the
    name of the file, the loop [while new_path.exists()] of the [Others]
    branch never exits, whatever the fuel, and so [organize_file] does not
    return. *)
Theorem organize_file_others_loop_never_exits self path fs file_path fs1 :
  classify (file_categories self) (PyStr.lower (PurePath.suffix file_path))
  = None ->
  PyStr.truthy (PyStr.lower (PurePath.suffix file_path)) = true ->
  Fs.mkdir_exist_ok fs (path // "Others") = Ok fs1 ->
  Fs.exists_ fs1 (path // "Others" // PurePath.name file_path) = true ->
  (forall fuel counter,
     resolve_conflict_others fuel fs1 file_path
       (path // "Others" // PurePath.name file_path) counter = None) /\
  (forall fuel, organize_file fuel self path fs file_path = None).
Proof.
  intros Hc Ht Hmk He. split.
  - by apply resolve_conflict_others_taken.
  - apply organize_file_clash. unfold others_clash. eauto 10.
Qed.

Lemma organize_file_others_loop_never_exits_witness :
  resolve_conflict_others 1000 sample_fs ["notes.xyz"] ["Others"; "notes.xyz"] 1
  = None /\
  organize_file 1000 init [] sample_fs ["notes.xyz"] = None.
Proof.
  destruct (organize_file_others_loop_never_exits init [] sample_fs
              ["notes.xyz"] sample_fs eq_refl eq_refl eq_refl eq_refl)
    as [Hloop Hcall].
  split; [apply (Hloop 1000 1) | apply (Hcall 1000)].
Defined.

(** C2 fails on the code.  In the sample tree [notes.xyz] has no category
    and [Others/notes.xyz] is taken.  The name [Others/notes_1.xyz], which
    the numbering would give, is free; yet the call for [notes.xyz] never
    returns, with any fuel, and the file is not moved.  The category branch
    on the same tree does number: [c.pdf] goes to [Documents/c_2.pdf]. *)
Theorem others_conflict_is_not_numbered :
  classify (file_categories init) (PyStr.lower (PurePath.suffix ["notes.xyz"]))
  = None /\
  Fs.exists_ sample_fs ["Others"; "notes.xyz"] = true /\
  candidate ["Others"] ["notes.xyz"] 1 = ["Others"; "notes_1.xyz"] /\
  Fs.exists_ sample_fs ["Others"; "notes_1.xyz"] = false /\
  (forall fuel, organize_file fuel init [] sample_fs ["notes.xyz"] = None) /\
  exists fs',
    organize_file 3 init [] sample_fs ["c.pdf"]
    = Some (fs', Ok (Success "Documents")) /\
    Fs.exists_ fs' ["Documents"; "c_2.pdf"] = true.
Proof.
  split_and!; try reflexivity.
  - apply organize_file_clash. unfold others_clash.
    split_and!; [reflexivity..|]. exists sample_fs. by split.
  - eexists. split; [vm_compute; reflexivity|reflexivity].
Qed.

(* ================================================================== *)
(** * The duplicate finder: facts *)
(* ================================================================== *)

Lemma hex_digits_length k :
  forall n acc, String.length (Md5.hex_digits k n acc) = k + String.length acc.
Proof.
  induction k as [|k IH]; intros n acc; simpl; [done|].
  rewrite IH. simpl. lia.
Qed.

Lemma hexdigest_length `{hashlib : Hashlib} h :
  String.length (Md5.hexdigest h) = 32.
Proof. unfold Md5.hexdigest. by rewrite hex_digits_length. Qed.

Lemma hexdigest_truthy `{hashlib : Hashlib} h :
  PyStr.truthy (Md5.hexdigest h) = true.
Proof.
  pose proof (hexdigest_length h) as Hlen.
  by destruct (Md5.hexdigest h).
Qed.

Lemma chunk_size_pos : 1 <= CHUNK_SIZE.
Proof. unfold CHUNK_SIZE. lia. Qed.

(** Reading in chunks reads the whole file. *)
Lemma read_chunks_concat fuel :
  forall c : list byte, length c <= fuel -> concat (read_chunks fuel c) = c.
Proof.
  pose proof chunk_size_pos as Hpos.
  induction fuel as [|fuel IH]; intros c Hlen; simpl.
  - destruct c; [done | simpl in Hlen; lia].
  - destruct (take CHUNK_SIZE c) as [|b chunk] eqn:Htake.
    + apply (f_equal length) in Htake. rewrite length_take in Htake.
      destruct c; [done | simpl in Htake; lia].
    + simpl. rewrite IH.
      * rewrite app_comm_cons, <- Htake. apply take_drop.
      * rewrite length_drop. destruct c; simpl in *; lia.
Qed.

Lemma fold_left_update chunks :
  forall h, fold_left Md5.update chunks h = h ++ concat chunks.
Proof.
  induction chunks as [|chunk chunks IH]; intros h; simpl.
  - by rewrite app_nil_r.
  - rewrite IH. unfold Md5.update. by rewrite <- (assoc_L (++)).
Qed.

Lemma get_file_hash_Ok `{hashlib : Hashlib} fs p c :
  Fs.read_bytes fs p = Ok c ->
  get_file_hash fs p = (p, Some (Md5.hexdigest c)).
Proof.
  intros Hr. unfold get_file_hash. rewrite Hr.
  by rewrite fold_left_update, read_chunks_concat.
Qed.

Lemma get_file_hash_Raise `{hashlib : Hashlib} fs p e :
  Fs.read_bytes fs p = Raise e -> get_file_hash fs p = (p, None).
Proof. intros Hr. unfold get_file_hash. by rewrite Hr. Qed.

Lemma get_file_hash_fst `{hashlib : Hashlib} fs p : (get_file_hash fs p).1 = p.
Proof. unfold get_file_hash. by destruct (Fs.read_bytes fs p). Qed.

Lemma get_file_hash_Some `{hashlib : Hashlib} fs p h :
  (get_file_hash fs p).2 = Some h <->
  exists c, Fs.read_bytes fs p = Ok c /\ h = Md5.hexdigest c.
Proof.
  destruct (Fs.read_bytes fs p) as [c|e] eqn:Hr.
  - rewrite (get_file_hash_Ok _ _ _ Hr). simpl. split.
    + intros [= <-]. eauto.
    + intros (c' & [= <-] & ->). done.
  - rewrite (get_file_hash_Raise _ _ _ Hr). simpl. split; [done|].
    by intros (c' & [=] & _).
Qed.


(** [hash_to_files] after a sequence of completed futures: under a digest,
    the paths that were there, then the paths that completed with it. *)
Lemma fold_record_hash_lookup rs :
  forall (m : gmap string (list Path)) h,
    PyStr.truthy h = true ->
    fold_left record_hash rs m !! h =
    match with_hash h rs with
    | [] => m !! h
    | l => Some (default [] (m !! h) ++ l)
    end.
Proof.
  unfold with_hash.
  induction rs as [|[p [h'|]] rs IH]; intros m h Ht; simpl; [done| |].
  - rewrite IH by done. destruct (PyStr.truthy h') eqn:Ht'.
    + destruct (decide (h' = h)) as [->|Hne].
      * rewrite filter_cons_True by done. rewrite lookup_insert_eq. simpl.
        destruct (map fst (filter _ rs)); [done|].
        by rewrite <- (assoc_L (++)).
      * rewrite filter_cons_False by (simpl; congruence).
        by rewrite lookup_insert_ne.
    + rewrite filter_cons_False; [done|]. simpl. intros [= ->]. congruence.
  - rewrite IH by done. by rewrite filter_cons_False.
Qed.

Lemma fold_record_hash_falsy rs :
  forall (m : gmap string (list Path)) h,
    PyStr.truthy h = false ->
    fold_left record_hash rs m !! h = m !! h.
Proof.
  induction rs as [|[p [h'|]] rs IH]; intros m h Ht; simpl; [done| |].
  - rewrite IH by done. destruct (PyStr.truthy h') eqn:Ht'; [|done].
    rewrite lookup_insert_ne; [done|]. intros ->. congruence.
  - by rewrite IH.
Qed.

Lemma elem_of_with_hash `{hashlib : Hashlib} fs h (l : list Path) p :
  p ∈ with_hash h (map (get_file_hash fs) l) <->
  p ∈ l /\ (get_file_hash fs p).2 = Some h.
Proof.
  unfold with_hash. rewrite list_elem_of_fmap. split.
  - intros (r & -> & [Hh (f & -> & Hf)%list_elem_of_fmap]%list_elem_of_filter).
    by rewrite get_file_hash_fst.
  - intros [Hp Hh]. exists (get_file_hash fs p).
    rewrite get_file_hash_fst, list_elem_of_filter, list_elem_of_fmap. eauto.
Qed.


Lemma with_hash_truthy `{hashlib : Hashlib} fs h (l : list Path) :
  PyStr.truthy h = false -> with_hash h (map (get_file_hash fs) l) = [].
Proof.
  intros Ht. destruct (with_hash _ _) as [|p ps] eqn:Hw; [done|]. exfalso.
  assert (p ∈ with_hash h (map (get_file_hash fs) l)) as Hp
    by (rewrite Hw; apply elem_of_cons; by left).
  apply elem_of_with_hash in Hp as [_ (c & _ & ->)%get_file_hash_Some].
  by rewrite hexdigest_truthy in Ht.
Qed.

(** The group under a digest: the files that completed with it. *)
Lemma hash_files_lookup `{hashlib : Hashlib} `{sched : Scheduler} fs all_files
    h files :
  hash_files fs all_files !! h = Some files <->
  files <> [] /\
  files = with_hash h (map (get_file_hash fs) (as_completed all_files)).
Proof.
  unfold hash_files. destruct (PyStr.truthy h) eqn:Ht.
  - rewrite fold_record_hash_lookup, lookup_empty by done. simpl.
    destruct (with_hash _ _) as [|p ps]; split.
    + done.
    + by intros [? ->].
    + by intros [= <-].
    + by intros [_ ->].
  - rewrite fold_record_hash_falsy, lookup_empty, with_hash_truthy by done.
    split; [done | by intros [? ->]].
Qed.

Lemma elem_of_duplicate_groups `{hashlib : Hashlib} `{sched : Scheduler} fs
    all_files h files :
  (h, files) ∈ duplicate_groups fs all_files <->
  2 <= length files /\
  files = with_hash h (map (get_file_hash fs) (as_completed all_files)).
Proof.
  unfold duplicate_groups, find_duplicates.
  rewrite elem_of_map_to_list, map_lookup_filter_Some, hash_files_lookup. simpl.
  split.
  - intros [[_ ->] Hlen]. split; [lia | done].
  - intros [Hlen ->]. split_and!; [|done|lia].
    intros Hnil. rewrite Hnil in Hlen. simpl in Hlen. lia.
Qed.

Lemma two_elements_length {A} (l : list A) x y :
  x ∈ l -> y ∈ l -> x <> y -> 2 <= length l.
Proof.
  destruct l as [|a [|b l]]; simpl; [by intros ?%elem_of_nil| |lia].
  intros ->%list_elem_of_singleton ->%list_elem_of_singleton. done.
Qed.

(** Two scanned files that hash to the same digest share a group. *)
Lemma same_digest_same_group `{hashlib : Hashlib} `{sched : Scheduler} fs
    all_files f1 f2 c1 c2 :
  f1 ∈ all_files -> f2 ∈ all_files -> f1 <> f2 ->
  Fs.read_bytes fs f1 = Ok c1 -> Fs.read_bytes fs f2 = Ok c2 ->
  Md5.hexdigest c1 = Md5.hexdigest c2 ->
  exists files,
    (Md5.hexdigest c1, files) ∈ duplicate_groups fs all_files /\
    f1 ∈ files /\ f2 ∈ files.
Proof.
  intros H1 H2 Hne Hr1 Hr2 Hh.
  exists (with_hash (Md5.hexdigest c1)
            (map (get_file_hash fs) (as_completed all_files))).
  assert (f1 ∈ with_hash (Md5.hexdigest c1)
            (map (get_file_hash fs) (as_completed all_files))) as Hf1.
  { apply elem_of_with_hash. rewrite elem_of_as_completed.
    by rewrite (get_file_hash_Ok _ _ _ Hr1). }
  assert (f2 ∈ with_hash (Md5.hexdigest c1)
            (map (get_file_hash fs) (as_completed all_files))) as Hf2.
  { apply elem_of_with_hash. rewrite elem_of_as_completed.
    by rewrite (get_file_hash_Ok _ _ _ Hr2), Hh. }
  split_and!; [|done..].
  apply elem_of_duplicate_groups. split; [|done].
  by apply (two_elements_length _ f1 f2).
Qed.

(** C5, as the code has it.  Every reported group has at least two
    members.  Two different scanned files that both hash, with identical
    bytes or, more generally, with the same digest, are in one group.  The
    members of a group are scanned files that hashed to the digest of the
    group, so files with different digests never share a group, and no file
    is in two groups.  Sizes and bytes are not compared. *)
Theorem duplicate_groups_by_digest `{hashlib : Hashlib} `{sched : Scheduler}
    fs all_files :
  (forall h files,
     (h, files) ∈ duplicate_groups fs all_files -> 2 <= length files) /\
  (forall f1 f2 c,
     f1 ∈ all_files -> f2 ∈ all_files -> f1 <> f2 ->
     Fs.read_bytes fs f1 = Ok c -> Fs.read_bytes fs f2 = Ok c ->
     exists h files,
       (h, files) ∈ duplicate_groups fs all_files /\ f1 ∈ files /\ f2 ∈ files) /\
  (forall f1 f2 c1 c2,
     f1 ∈ all_files -> f2 ∈ all_files -> f1 <> f2 ->
     Fs.read_bytes fs f1 = Ok c1 -> Fs.read_bytes fs f2 = Ok c2 ->
     Md5.hexdigest c1 = Md5.hexdigest c2 ->
     exists h files,
       (h, files) ∈ duplicate_groups fs all_files /\ f1 ∈ files /\ f2 ∈ files) /\
  (forall h files f,
     (h, files) ∈ duplicate_groups fs all_files -> f ∈ files ->
     f ∈ all_files /\
     exists c, Fs.read_bytes fs f = Ok c /\ Md5.hexdigest c = h) /\
  (forall h1 files1 h2 files2 f,
     (h1, files1) ∈ duplicate_groups fs all_files ->
     (h2, files2) ∈ duplicate_groups fs all_files ->
     f ∈ files1 -> f ∈ files2 -> h1 = h2 /\ files1 = files2).
Proof.
  assert (forall h files f,
     (h, files) ∈ duplicate_groups fs all_files -> f ∈ files ->
     f ∈ all_files /\
     exists c, Fs.read_bytes fs f = Ok c /\ Md5.hexdigest c = h) as Hmember.
  { intros h files f [_ ->]%elem_of_duplicate_groups
      [Hf (c & Hr & ->)%get_file_hash_Some]%elem_of_with_hash.
    rewrite elem_of_as_completed in Hf. eauto. }
  split_and!.
  - by intros h files [Hlen _]%elem_of_duplicate_groups.
  - intros f1 f2 c H1 H2 Hne Hr1 Hr2.
    destruct (same_digest_same_group fs all_files f1 f2 c c) as (files & ?);
      eauto.
  - intros f1 f2 c1 c2 H1 H2 Hne Hr1 Hr2 Hh.
    destruct (same_digest_same_group fs all_files f1 f2 c1 c2) as (files & ?);
      eauto.
  - done.
  - intros h1 files1 h2 files2 f Hg1 Hg2 Hf1 Hf2.
    destruct (Hmember _ _ _ Hg1 Hf1) as (_ & c1 & Hr1 & <-).
    destruct (Hmember _ _ _ Hg2 Hf2) as (_ & c2 & Hr2 & <-).
    assert (c1 = c2) as -> by congruence. split; [done|].
    apply elem_of_duplicate_groups in Hg1 as [_ ->].
    by apply elem_of_duplicate_groups in Hg2 as [_ ->].
Qed.

(** The digests of the empty string and of ["abc"], as RFC 1321 lists them,
    and the digest of the bytes 1, 2, 3. *)
Example md5_test_vectors :
  Md5.hexdigest (hashlib := hashlib_md5) [] = "d41d8cd98f00b204e9800998ecf8427e" /\
  Md5.hexdigest (hashlib := hashlib_md5) [x61; x62; x63]
  = "900150983cd24fb0d6963f7d28e17f72" /\
  Md5.hexdigest (hashlib := hashlib_md5) [x01; x02; x03]
  = "5289df737df57326fcdd22597afb1fac" /\
  Md5.hexdigest (hashlib := hashlib_md5) (replicate 56 x00)
  = "e3c4dd21a9171fd39d208efa09bf7883".
Proof. split_and!; vm_compute; reflexivity. Qed.

Lemma duplicate_groups_by_digest_witness :
  exists h files,
    (h, files) ∈ duplicate_groups (hashlib := hashlib_md5) (sched := lifo_scheduler)
                   sample_fs [["a.jpg"]; ["b.jpg"]; ["c.pdf"]] /\
    ["a.jpg"] ∈ files /\ ["b.jpg"] ∈ files.
Proof.
  destruct (duplicate_groups_by_digest (hashlib := hashlib_md5)
              (sched := lifo_scheduler) sample_fs
              [["a.jpg"]; ["b.jpg"]; ["c.pdf"]]) as (_ & Hsame & _).
  apply (Hsame ["a.jpg"] ["b.jpg"] [x01; x02; x03]).
  - apply elem_of_cons. by left.
  - apply elem_of_cons. right. apply elem_of_cons. by left.
  - discriminate.
  - reflexivity.
  - reflexivity.
Defined.

(** Among more inputs than there are values, two have the same value. *)
Lemma pigeonhole (f : nat -> N) (bound : N) :
  (forall n, (f n < bound)%N) -> exists i j, i < j /\ f i = f j.
Proof.
  intros Hf. remember (N.to_nat bound) as b eqn:Hb.
  destruct (decide (Exists (fun i => Exists (fun j => i < j /\ f i = f j)
                                            (seq 0 (S b))) (seq 0 (S b))))
    as [Hex|Hno].
  - apply Exists_exists in Hex as (i & _ & Hex).
    apply Exists_exists in Hex as (j & _ & Hij). eauto.
  - exfalso.
    assert (forall i j, i ∈ seq 0 (S b) -> j ∈ seq 0 (S b) -> i < j -> f i <> f j)
      as Hdiff.
    { intros i j Hi Hj Hlt Heq. apply Hno.
      apply Exists_exists. exists i. split; [done|].
      apply Exists_exists. exists j. eauto. }
    assert (f <$> seq 0 (S b) ⊆+ N.of_nat <$> seq 0 b) as Hsub.
    { apply NoDup_submseteq.
      - apply NoDup_fmap_2_strong; [|apply NoDup_seq].
        intros i j Hi Hj Heq.
        destruct (lt_eq_lt_dec i j) as [[Hlt| ->]|Hlt]; [|done|].
        + by destruct (Hdiff i j Hi Hj Hlt).
        + by destruct (Hdiff j i Hj Hi Hlt).
      - intros v (i & -> & _)%list_elem_of_fmap.
        apply list_elem_of_fmap. exists (N.to_nat (f i)). split.
        + by rewrite N2Nat.id.
        + apply elem_of_seq. specialize (Hf i). lia. }
    apply submseteq_length in Hsub.
    rewrite !length_fmap, !length_seq in Hsub. lia.
Qed.

(** Some two byte strings of different lengths have the same digest,
    whatever the digest function. *)
Lemma digest_collision_of_different_sizes `{hashlib : Hashlib} :
  exists i j, i < j /\
    Md5.hexdigest (replicate i x00) = Md5.hexdigest (replicate j x00).
Proof.
  destruct (pigeonhole (fun n => md5_digest (replicate n x00)) (2 ^ 128))
    as (i & j & Hlt & Hcoll); [intros n; apply md5_digest_bound|].
  exists i, j. split; [done|]. unfold Md5.hexdigest. by rewrite Hcoll.
Qed.

(** C5, as the specification has it, fails.  The two files of
    [collision_fs] differ in their bytes and MD5 gives them one digest, so
    the finder reports them as one group.  And for every digest of 128
    bits, MD5 included, some two files of different sizes have the same
    digest, and the finder, which compares nothing else, puts them in one
    group. *)
Lemma digest_groups_can_mix_contents :
  (collision_a <> collision_b /\
   Fs.read_bytes collision_fs ["m1.bin"] = Ok collision_a /\
   Fs.read_bytes collision_fs ["m2.bin"] = Ok collision_b /\
   duplicate_groups (hashlib := hashlib_md5) (sched := fifo_scheduler)
     collision_fs
     (all_files (scan_files_threaded (sched := fifo_scheduler) collision_fs []))
   = [("79054025255fb1a26e4bc422aef54eb4", [["m1.bin"]; ["m2.bin"]])]) /\
  ~ exists hashlib : Hashlib,
      forall (sched : Scheduler) fs scanned h files f1 f2 c1 c2,
        (h, files) ∈ duplicate_groups fs scanned ->
        f1 ∈ files -> f2 ∈ files ->
        Fs.read_bytes fs f1 = Ok c1 -> Fs.read_bytes fs f2 = Ok c2 ->
        length c1 = length c2.
Proof.
  split.
  - split_and!; [discriminate | reflexivity | reflexivity |].
    vm_compute. reflexivity.
  - intros [hashlib Hclaim].
    destruct digest_collision_of_different_sizes as (i & j & Hlt & Hcoll).
    pose (fs := Dir true true [ ("a", File (replicate i x00) true);
                                ("b", File (replicate j x00) true) ]).
    assert (Fs.read_bytes fs ["a"] = Ok (replicate i x00)) as Ha by reflexivity.
    assert (Fs.read_bytes fs ["b"] = Ok (replicate j x00)) as Hb by reflexivity.
    destruct (same_digest_same_group (sched := fifo_scheduler) fs [["a"]; ["b"]]
                ["a"] ["b"] (replicate i x00) (replicate j x00))
      as (files & Hg & Hfa & Hfb);
      [apply elem_of_cons; by left
      |apply elem_of_cons; right; apply elem_of_cons; by left
      |discriminate
      |exact Ha
      |exact Hb
      |exact Hcoll
      |].
    pose proof (Hclaim fifo_scheduler fs _ _ _ _ _ _ _ Hg Hfa Hfb Ha Hb) as Hlen.
    rewrite !length_replicate in Hlen. lia.
Qed.







(** Every file handed to the removal loop is either removed and counted,
    or reported as a failure, and the loop goes on after a failure. *)
Lemma remove_files_count files :
  forall fs removed,
    (remove_files fs files removed).1.2 + length (remove_files fs files removed).2
    = removed + length files /\
    forall p e, MsgRemoveFailed p e ∈ (remove_files fs files removed).2 ->
                p ∈ files /\ exists fs0, Fs.unlink fs0 p = Raise e.
Proof.
  induction files as [|f files IH]; intros fs removed; simpl.
  - split; [lia | by intros p e ?%elem_of_nil].
  - destruct (Fs.unlink fs f) as [fs'|e'] eqn:Hun.
    + destruct (IH fs' (removed + 1)) as [Hcount Hlines]. split; [lia|].
      intros p e Hp. destruct (Hlines p e Hp) as [Hin Hfail].
      split; [apply elem_of_cons; by right | done].
    + destruct (IH fs removed) as [Hcount Hlines].
      destruct (remove_files fs files removed) as [[fs' removed'] lines].
      simpl in *. split; [lia|].
      intros p e [[= -> ->]|Hp]%elem_of_cons.
      * split; [apply elem_of_cons; by left | eauto].
      * destruct (Hlines p e Hp) as [Hin Hfail].
        split; [apply elem_of_cons; by right | done].
Qed.

Lemma remove_duplicates_count groups :
  forall fs removed,
    (remove_duplicates fs groups removed).1.2
    + length (remove_duplicates fs groups removed).2
    = removed + count_duplicates groups /\
    forall p e, MsgRemoveFailed p e ∈ (remove_duplicates fs groups removed).2 ->
                exists h files, (h, files) ∈ groups /\ p ∈ tail files.
Proof.
  unfold count_duplicates.
  induction groups as [|[h files] groups IH]; intros fs removed; simpl.
  - split; [lia | by intros p e ?%elem_of_nil].
  - destruct (remove_files_count (tail files) fs removed) as [Hcount1 Hlines1].
    destruct (remove_files fs (tail files) removed) as [[fs1 removed1] lines1].
    destruct (IH fs1 removed1) as [Hcount2 Hlines2].
    destruct (remove_duplicates fs1 groups removed1) as [[fs2 removed2] lines2].
    simpl in *. split.
    + rewrite length_app.
      assert (length (tail files) = length files - 1)
        by (destruct files; simpl; lia).
      lia.
    + intros p e [Hp|Hp]%elem_of_app.
      * exists h, files. split; [apply elem_of_cons; by left|].
        by destruct (Hlines1 p e Hp).
      * destruct (Hlines2 p e Hp) as (h' & files' & Hin & Htail).
        exists h', files'. split; [apply elem_of_cons; by right | done].
Qed.

(** C6 fails on the code.  The removal loop does try every member of every
    group but the first, and each is either counted as removed or reported
    as a failure.  But in [archive_fs] the two pictures are identical and
    the second cannot be removed.  The run keeps [a.jpg], fails to remove
    [ro/b.jpg] and says so, counts no removal, and still prints that 3
    bytes were freed: the figure is the estimate made before the removal,
    not what was reclaimed, which is nothing.  Without [rich] neither the
    count nor the bytes are printed. *)
Theorem duplicate_removal_overstates_freed_bytes :
  (forall fs groups,
     (remove_duplicates fs groups 0).1.2
     + length (remove_duplicates fs groups 0).2
     = count_duplicates groups /\
     forall p e, MsgRemoveFailed p e ∈ (remove_duplicates fs groups 0).2 ->
                 exists h files, (h, files) ∈ groups /\ p ∈ tail files) /\
  exists run plain,
    find_duplicates_threaded (hashlib := hashlib_md5) (sched := fifo_scheduler)
      true archive_fs [] true true = Ok run /\
    find_duplicates_threaded (hashlib := hashlib_md5) (sched := fifo_scheduler)
      false archive_fs [] true true = Ok plain /\
    dup_groups run
    = [("5289df737df57326fcdd22597afb1fac", [["a.jpg"]; ["ro"; "b.jpg"]])] /\
    dup_removed run = 0 /\
    dup_fs run = archive_fs /\
    total_bytes archive_fs - total_bytes (dup_fs run) = 0 /\
    dup_console run
    = [ MsgAnalyzing 2; MsgDuplicatesFound 1 1;
        MsgDuplicateSet 1 ["a.jpg"] [["ro"; "b.jpg"]] 3; MsgSpaceWasted 3;
        MsgRemoveFailed ["ro"; "b.jpg"] PermissionError;
        MsgRemoved 0; MsgFreed 3 ] /\
    dup_console plain
    = [ MsgAnalyzing 2; MsgDuplicatesFound 1 1;
        MsgDuplicateSet 1 ["a.jpg"] [["ro"; "b.jpg"]] 3; MsgSpaceWasted 3;
        MsgRemoveFailed ["ro"; "b.jpg"] PermissionError ].
Proof.
  split; [intros fs groups; apply (remove_duplicates_count groups fs 0)|].
  eexists. eexists.
  split; [vm_compute; reflexivity|].
  split; [vm_compute; reflexivity|].
  simpl. split_and!; reflexivity.
Qed.

Lemma duplicate_removal_overstates_freed_bytes_witness :
  exists h files,
    (h, files) ∈ [("5289df737df57326fcdd22597afb1fac",
                   [["a.jpg"]; ["ro"; "b.jpg"]])] /\
    ["ro"; "b.jpg"] ∈ tail files.
Proof.
  destruct duplicate_removal_overstates_freed_bytes as [Hloop _].
  destruct (Hloop archive_fs
              [("5289df737df57326fcdd22597afb1fac",
                [["a.jpg"]; ["ro"; "b.jpg"]])]) as [_ Hfailed].
  apply (Hfailed ["ro"; "b.jpg"] PermissionError).
  vm_compute. by left.
Defined.

(* ================================================================== *)
(** * What a tree holds: facts *)
(* ================================================================== *)

Lemma contents_dir l w es : contents (Dir l w es) = contents_of_entries es.
Proof. done. Qed.

Lemma contents_of_entries_cons x c es :
  contents_of_entries ((x, c) :: es) = contents c ++ contents_of_entries es.
Proof. done. Qed.


Lemma elem_of_names_set_entry x c es z :
  z ∈ map fst (Fs.set_entry x c es) <-> z = x \/ z ∈ map fst es.
Proof.
  induction es as [|[y d] es IH]; simpl.
  - rewrite list_elem_of_singleton. split; [auto|]. by intros [?|?%elem_of_nil].
  - destruct (decide (x = y)) as [->|Hne]; simpl.
    + rewrite !elem_of_cons. tauto.
    + rewrite !elem_of_cons, IH. tauto.
Qed.

Lemma elem_of_names_del_entry x es z :
  z ∈ map fst (Fs.del_entry x es) <-> z <> x /\ z ∈ map fst es.
Proof.
  induction es as [|[y d] es IH]; simpl.
  - split; [by intros ?%elem_of_nil | by intros [_ ?%elem_of_nil]].
  - destruct (decide (x = y)) as [->|Hne]; simpl.
    + rewrite IH, elem_of_cons. split; [tauto|]. intros [Hz [->|Hin]]; done.
    + rewrite !elem_of_cons, IH. split; [|tauto].
      intros [->|[Hz Hin]]; auto.
Qed.

Lemma NoDup_names_set_entry x c es :
  NoDup (map fst es) -> NoDup (map fst (Fs.set_entry x c es)).
Proof.
  induction es as [|[y d] es IH]; simpl; intros Hnd.
  - apply NoDup_singleton.
  - apply NoDup_cons in Hnd as [Hy Hnd].
    destruct (decide (x = y)) as [->|Hne]; simpl.
    + by apply NoDup_cons.
    + apply NoDup_cons. split; [|by apply IH].
      rewrite elem_of_names_set_entry. intros [->|Hin]; done.
Qed.

Lemma NoDup_names_del_entry x es :
  NoDup (map fst es) -> NoDup (map fst (Fs.del_entry x es)).
Proof.
  induction es as [|[y d] es IH]; simpl; intros Hnd; [done|].
  apply NoDup_cons in Hnd as [Hy Hnd].
  destruct (decide (x = y)) as [->|Hne]; simpl; [by apply IH|].
  apply NoDup_cons. split; [|by apply IH].
  rewrite elem_of_names_del_entry. tauto.
Qed.

Lemma Forall_wf_set_entry x c es :
  Fs.wf c = true -> Forall (fun e => Fs.wf e.2 = true) es ->
  Forall (fun e => Fs.wf e.2 = true) (Fs.set_entry x c es).
Proof.
  intros Hc. induction 1 as [|[y d] es Hd Hes IH]; simpl.
  - by repeat constructor.
  - destruct (decide (x = y)); constructor; done.
Qed.

Lemma Forall_wf_del_entry x es :
  Forall (fun e => Fs.wf e.2 = true) es ->
  Forall (fun e => Fs.wf e.2 = true) (Fs.del_entry x es).
Proof.
  induction 1 as [|[y d] es Hd Hes IH]; simpl; [done|].
  destruct (decide (x = y)); [done | by constructor].
Qed.

Lemma names_map_child y h es : map fst (Fs.map_child y h es) = map fst es.
Proof.
  induction es as [|[z c] es IH]; simpl; [done|].
  destruct (decide (y = z)); simpl; [done | by rewrite IH].
Qed.

(** Changing a listing keeps the tree well formed when the change keeps the
    listing so. *)
Lemma wf_modify_dir g dp :
  (forall es, NoDup (map fst es) -> Forall (fun e => Fs.wf e.2 = true) es ->
              NoDup (map fst (g es)) /\ Forall (fun e => Fs.wf e.2 = true) (g es)) ->
  forall fs, Fs.wf fs = true -> Fs.wf (Fs.modify_dir g dp fs) = true.
Proof.
  intros Hg. induction dp as [|y dp IH]; intros [c r|l w es] Hwf; try done.
  - cbn [Fs.modify_dir]. apply wf_dir in Hwf as [Hnd Hall]. apply wf_dir.
    by apply Hg.
  - cbn [Fs.modify_dir]. apply wf_dir in Hwf as [Hnd Hall]. apply wf_dir.
    rewrite names_map_child. split; [done|].
    clear Hnd. induction Hall as [|[z c] es Hc Hes IHes]; simpl; [done|].
    destruct (decide (y = z)); constructor; simpl; auto.
Qed.

Lemma wf_put p n fs :
  Fs.wf fs = true -> Fs.wf n = true -> Fs.wf (Fs.put p n fs) = true.
Proof.
  intros Hfs Hn. apply wf_modify_dir; [|done]. intros es Hnd Hall.
  split; [by apply NoDup_names_set_entry | by apply Forall_wf_set_entry].
Qed.

Lemma wf_take p fs : Fs.wf fs = true -> Fs.wf (Fs.take p fs) = true.
Proof.
  intros Hfs. apply wf_modify_dir; [|done]. intros es Hnd Hall.
  split; [by apply NoDup_names_del_entry | by apply Forall_wf_del_entry].
Qed.

Lemma contents_of_entries_child y c es :
  Fs.assoc y es = Some c ->
  exists rest,
    contents_of_entries es ≡ₚ contents c ++ rest /\
    forall h, contents_of_entries (Fs.map_child y h es) ≡ₚ contents (h c) ++ rest.
Proof.
  induction es as [|[z d] es IH]; simpl; [done|].
  destruct (decide (y = z)) as [->|Hne].
  - intros [= ->]. exists (contents_of_entries es). split; [done|].
    by intros h.
  - intros Hy. destruct (IH Hy) as (rest & Hes & Hmap).
    exists (contents d ++ rest). split.
    + rewrite Hes, !(assoc_L (++)). f_equiv. apply Permutation_app_comm.
    + intros h. rewrite contents_of_entries_cons, Hmap.
      rewrite !(assoc_L (++)). f_equiv. apply Permutation_app_comm.
Qed.

(** The files of a tree are those of the listing at [dp] and the rest; a
    change of that listing leaves the rest as it is. *)
Lemma contents_modify_dir dp :
  forall fs l w es,
    Fs.lookup fs dp = Some (Dir l w es) ->
    exists rest,
      contents fs ≡ₚ contents_of_entries es ++ rest /\
      forall g, contents (Fs.modify_dir g dp fs) ≡ₚ contents_of_entries (g es) ++ rest.
Proof.
  induction dp as [|y dp IH]; intros fs l w es Hd.
  - injection Hd as ->. exists []. split; [by rewrite app_nil_r|].
    intros g. simpl. by rewrite app_nil_r.
  - destruct fs as [c r|l0 w0 es0]; [done|]. simpl in Hd.
    destruct (Fs.assoc y es0) as [c|] eqn:Hy; [|done].
    destruct (IH c l w es Hd) as (rest_c & Hc & Hmod).
    destruct (contents_of_entries_child y c es0 Hy) as (rest0 & Hes0 & Hmap).
    exists (rest_c ++ rest0). split.
    + rewrite contents_dir, Hes0, Hc. by rewrite (assoc_L (++)).
    + intros g. cbn [Fs.modify_dir]. rewrite contents_dir, Hmap, Hmod.
      by rewrite (assoc_L (++)).
Qed.

Lemma contents_of_entries_set_entry_fresh x c es :
  Fs.assoc x es = None ->
  contents_of_entries (Fs.set_entry x c es) ≡ₚ contents c ++ contents_of_entries es.
Proof.
  induction es as [|[y d] es IH]; simpl.
  - intros _. unfold contents_of_entries. simpl. by rewrite !app_nil_r.
  - destruct (decide (x = y)) as [->|Hne]; [done|]. intros Hx.
    rewrite !contents_of_entries_cons, (IH Hx).
    rewrite !(assoc_L (++)). f_equiv. apply Permutation_app_comm.
Qed.

Lemma del_entry_fresh x es : x ∉ map fst es -> Fs.del_entry x es = es.
Proof.
  induction es as [|[y d] es IH]; simpl; [done|].
  rewrite not_elem_of_cons. intros [Hne Hx].
  rewrite decide_False by done. by rewrite IH.
Qed.

Lemma contents_of_entries_del_entry x n es :
  NoDup (map fst es) -> Fs.assoc x es = Some n ->
  contents_of_entries es ≡ₚ contents n ++ contents_of_entries (Fs.del_entry x es).
Proof.
  induction es as [|[y d] es IH]; simpl; [done|]. intros Hnd.
  apply NoDup_cons in Hnd as [Hy Hnd].
  destruct (decide (x = y)) as [->|Hne].
  - intros [= ->]. by rewrite del_entry_fresh.
  - intros Hx. rewrite !contents_of_entries_cons, (IH Hnd Hx).
    rewrite !(assoc_L (++)). f_equiv. apply Permutation_app_comm.
Qed.

Lemma lookup_parent_name fs p l w es :
  p <> [] -> Fs.lookup fs (PurePath.parent p) = Some (Dir l w es) ->
  Fs.lookup fs p = Fs.assoc (PurePath.name p) es.
Proof.
  intros Hne Hpar. pose proof (path_split p Hne) as Hsplit.
  remember (PurePath.parent p) as dp. remember (PurePath.name p) as x.
  rewrite Hsplit. by apply (lookup_child _ _ l w).
Qed.

Lemma lookup_Some_parent fs p n :
  p <> [] -> Fs.lookup fs p = Some n ->
  exists l w es, Fs.lookup fs (PurePath.parent p) = Some (Dir l w es) /\
    Fs.assoc (PurePath.name p) es = Some n.
Proof.
  intros Hne Hp. pose proof (path_split p Hne) as Hsplit.
  remember (PurePath.parent p) as dp. remember (PurePath.name p) as x.
  rewrite Hsplit, lookup_app in Hp.
  destruct (Fs.lookup fs dp) as [[c r|l w es]|]; try done.
  exists l, w, es. split; [done|]. simpl in Hp.
  by destruct (Fs.assoc x es).
Qed.

(** A node put at a free name adds its files; a node taken away takes its
    files with it. *)
Lemma contents_put_fresh p n fs :
  Fs.parent_check fs p = Ok tt -> Fs.lookup fs p = None ->
  contents (Fs.put p n fs) ≡ₚ contents n ++ contents fs.
Proof.
  intros [Hne (l & es & Hpar)]%parent_check_Ok Hp.
  destruct (contents_modify_dir _ _ _ _ _ Hpar) as (rest & Hfs & Hmod).
  unfold Fs.put. rewrite Hmod, Hfs.
  rewrite contents_of_entries_set_entry_fresh; [by rewrite (assoc_L (++))|].
  by rewrite <- (lookup_parent_name _ _ _ _ _ Hne Hpar).
Qed.

Lemma contents_take p n fs :
  Fs.wf fs = true -> p <> [] -> Fs.lookup fs p = Some n ->
  contents fs ≡ₚ contents n ++ contents (Fs.take p fs).
Proof.
  intros Hwf Hne Hp.
  destruct (lookup_Some_parent _ _ _ Hne Hp) as (l & w & es & Hpar & Hx).
  destruct (contents_modify_dir _ _ _ _ _ Hpar) as (rest & Hfs & Hmod).
  unfold Fs.take. rewrite Hmod, Hfs.
  rewrite (contents_of_entries_del_entry (PurePath.name p) n es);
    [by rewrite (assoc_L (++))| |done].
  by apply (lookup_wf _ _ _ Hwf), wf_dir in Hpar as [Hnd _].
Qed.

(* ================================================================== *)
(** * The organizer keeps what the tree holds *)
(* ================================================================== *)

Lemma stat_file_lookup fs p c rd :
  Fs.stat fs p = Some (IFile c rd) <-> Fs.lookup fs p = Some (File c rd).
Proof.
  unfold Fs.stat. destruct (Fs.lookup fs p) as [[c' r'|l w es]|]; simpl;
    split; intros H; by simplify_eq.
Qed.

Lemma mkdir_exist_ok_conserves fs p fs1 :
  Fs.wf fs = true -> Fs.mkdir_exist_ok fs p = Ok fs1 ->
  Fs.wf fs1 = true /\ contents fs1 ≡ₚ contents fs.
Proof.
  intros Hwf. unfold Fs.mkdir_exist_ok.
  destruct (Fs.lookup fs p) as [[c r|l w es]|] eqn:Hp; [done| |].
  - by intros [= <-].
  - destruct (Fs.parent_check fs p) as [[]|e] eqn:Hpc; [|done].
    intros [= <-]. split; [by apply wf_put|].
    by rewrite contents_put_fresh.
Qed.

Lemma not_prefix_of_missing fs src dst :
  Fs.exists_ fs dst = false -> Fs.exists_ fs src = true ->
  ~ dst `prefix_of` src.
Proof.
  intros Hd Hs Hpre. apply exists_stat in Hd.
  apply (stat_None_prefix _ _ _ Hd) in Hpre. apply exists_stat in Hpre.
  congruence.
Qed.

Lemma file_not_prefix_of_free fs src dst c rd :
  Fs.stat fs src = Some (IFile c rd) -> Fs.exists_ fs dst = false ->
  Fs.parent_check fs dst = Ok tt ->
  ~ src `prefix_of` dst.
Proof.
  intros Hs Hd [_ (l & es & Hpar)]%parent_check_Ok Hpre. apply exists_stat in Hd.
  destruct (decide (dst = src)) as [->|Hne]; [congruence|].
  apply (file_not_prefix_of_dir _ _ _ _ _ _ _ _ Hs Hpar).
  by apply prefix_of_parent.
Qed.

Lemma exists_of_stat fs p i : Fs.stat fs p = Some i -> Fs.exists_ fs p = true.
Proof.
  unfold Fs.stat, Fs.exists_. by destruct (Fs.lookup fs p).
Qed.

(** [shutil.move] of a regular file to a free name: the tree holds the same
    byte strings after a move that succeeds; a move that raises leaves the
    tree as it was or leaves a copy behind. *)
Lemma move_file_conserves fs src dst fs' r c rd :
  Fs.wf fs = true -> Fs.exists_ fs dst = false ->
  Fs.stat fs src = Some (IFile c rd) -> Fs.move fs src dst = (fs', r) ->
  Fs.wf fs' = true /\
  match r with
  | Ok _ => contents fs' ≡ₚ contents fs
  | Raise _ => fs' = fs \/ contents fs' ≡ₚ c :: contents fs
  end.
Proof.
  intros Hwf Hfree Hsrc Hmove.
  pose proof (proj1 (stat_file_lookup _ _ _ _) Hsrc) as Hl.
  pose proof (not_prefix_of_missing _ _ _ Hfree (exists_of_stat _ _ _ Hsrc)) as Hnp'.
  destruct (move_cases _ _ _ _ _ Hfree Hmove)
    as [[-> [e ->]]|[(n & Hn & Hps & Hpd & -> & ->)|(c' & Hc' & Hpd & Hcase)]].
  - split; [done | by left].
  - rewrite Hl in Hn. injection Hn as <-.
    apply parent_check_Ok in Hps as [Hne _].
    pose proof (file_not_prefix_of_free _ _ _ _ _ Hsrc Hfree Hpd) as Hnp.
    split; [apply wf_put; [by apply wf_take | done]|].
    rewrite contents_put_fresh.
    + symmetry. by apply contents_take.
    + rewrite <- Hpd. apply parent_check_stat, stat_take_other.
      apply parent_check_Ok in Hpd as [Hned (l & es & Hpar)].
      by eapply file_not_prefix_of_dir.
    + apply stat_None_lookup. rewrite stat_take_other by done.
      by apply exists_stat.
  - rewrite Hl in Hc'. injection Hc' as <- ->.
    pose proof (file_not_prefix_of_free _ _ _ _ _ Hsrc Hfree Hpd) as Hnp.
    assert (contents (Fs.put dst (File c true) fs) ≡ₚ c :: contents fs) as Hput.
    { rewrite contents_put_fresh; [done|done|].
      by apply stat_None_lookup, exists_stat. }
    destruct Hcase as [[-> [e ->]]|(-> & Hne & ->)].
    + split; [by apply wf_put | by right].
    + split; [by apply wf_take, wf_put|].
      assert (Fs.lookup (Fs.put dst (File c true) fs) src = Some (File c true)) as Hl1.
      { apply stat_file_lookup. by rewrite stat_put_other. }
      assert (Fs.wf (File c true) = true) as Hwfc by done.
      pose proof (contents_take src _ _ (wf_put dst _ _ Hwf Hwfc) Hne Hl1) as Htake.
      rewrite Hput in Htake. simpl in Htake.
      symmetry. by apply (Permutation_cons_inv (a := c)).
Qed.

Lemma resolve_conflict_others_Some fuel fs file_path new_path :
  forall counter p,
    resolve_conflict_others fuel fs file_path new_path counter = Some p ->
    p = new_path /\ Fs.exists_ fs new_path = false.
Proof.
  induction fuel as [|fuel IH]; intros counter p; simpl; [done|].
  destruct (Fs.exists_ fs new_path) eqn:He; [apply IH|].
  by intros [= <-].
Qed.

Lemma file_not_prefix_of_file fs p q c rd cq rq :
  Fs.stat fs p = Some (IFile c rd) -> Fs.stat fs q = Some (IFile cq rq) ->
  q <> p -> ~ p `prefix_of` q.
Proof.
  intros Hp Hq Hne Hpre.
  pose proof (stat_file_prefix _ _ _ _ _ Hp Hpre Hne). congruence.
Qed.

(** The common end of both branches of [organize_file]: the directory is
    made, a free name is found and the file is moved there. *)
Lemma place_conserves fs dir fs1 p new_path category fs' r c rd :
  Fs.wf fs = true -> Fs.stat fs p = Some (IFile c rd) ->
  Fs.mkdir_exist_ok fs dir = Ok fs1 -> Fs.exists_ fs1 new_path = false ->
  move_and_report fs1 p new_path category = (fs', r) ->
  Fs.wf fs' = true /\
  contents fs ⊆+ contents fs' /\
  (forall q cq rq, Fs.stat fs q = Some (IFile cq rq) -> q <> p ->
                   Fs.stat fs' q = Some (IFile cq rq)) /\
  ((forall e, r <> Ok (Error e)) -> contents fs' ≡ₚ contents fs).
Proof.
  intros Hwf Hp Hmk Hfree Hmove.
  destruct (mkdir_exist_ok_conserves _ _ _ Hwf Hmk) as [Hwf1 Hc1].
  pose proof (mkdir_exist_ok_frame _ _ _ _ _ Hmk Hp) as Hp1.
  unfold move_and_report in Hmove.
  destruct (Fs.move fs1 p new_path) as [fs2 [[]|e]] eqn:Hm;
    injection Hmove as <- <-;
    destruct (move_file_conserves _ _ _ _ _ _ _ Hwf1 Hfree Hp1 Hm) as [Hwf2 Hc2];
    (split_and!; [done| | |]).
  - by rewrite Hc2, Hc1.
  - intros q cq rq Hq Hne.
    pose proof (mkdir_exist_ok_frame _ _ _ _ _ Hmk Hq) as Hq1.
    eapply move_keeps_files; [done..|]. by eapply file_not_prefix_of_file.
  - intros _. by rewrite Hc2, Hc1.
  - rewrite <- Hc1. destruct Hc2 as [->|Hc2]; [done|].
    rewrite Hc2. by apply submseteq_cons.
  - intros q cq rq Hq Hne.
    pose proof (mkdir_exist_ok_frame _ _ _ _ _ Hmk Hq) as Hq1.
    eapply move_keeps_files; [done..|]. by eapply file_not_prefix_of_file.
  - intros Hr. by destruct (Hr e).
Qed.

Lemma organize_loop_conserves fuel path fs p file_ext c rd :
  Fs.wf fs = true -> Fs.stat fs p = Some (IFile c rd) ->
  forall items fs' r,
    organize_loop fuel path fs p file_ext items = Some (fs', r) ->
    Fs.wf fs' = true /\
    contents fs ⊆+ contents fs' /\
    (forall q cq rq, Fs.stat fs q = Some (IFile cq rq) -> q <> p ->
                     Fs.stat fs' q = Some (IFile cq rq)) /\
    ((forall e, r <> Ok (Error e)) -> contents fs' ≡ₚ contents fs).
Proof.
  intros Hwf Hp. induction items as [|[category extensions] items IH];
    intros fs' r; simpl.
  - unfold organize_others. simpl.
    destruct (PyStr.truthy file_ext); [|by intros [= <- <-]].
    destruct (Fs.mkdir_exist_ok fs (path // "Others")) as [fs1|e] eqn:Hmk;
      [|by intros [= <- <-]].
    destruct (resolve_conflict_others fuel fs1 p _ 1) as [new_path|] eqn:Hrc;
      [|done].
    apply resolve_conflict_others_Some in Hrc as [-> Hfree].
    intros [= Hmove]. by eapply place_conserves.
  - destruct (PyStr.mem file_ext extensions); [|apply IH].
    destruct (Fs.mkdir_exist_ok fs (path // category)) as [fs1|e] eqn:Hmk;
      [|by intros [= <- <-]].
    destruct (resolve_conflict fuel fs1 _ p _ 1) as [new_path|] eqn:Hrc; [|done].
    apply resolve_conflict_Some in Hrc as [Hfree _].
    intros [= Hmove]. by eapply place_conserves.
Qed.




(** X1.  One call of [organize_file] loses no file.  For a regular file
    on a tree whose directories list each name once, and with no other task
    changing the file system during the call: after the call the tree is
    well formed; the byte strings of its regular files before the call are
    all among those after it, each as often as before; every other regular
    file is where it was, with its bytes; and unless the result is
    ['error'] the tree holds exactly the same byte strings as before (the
    file is moved, not dropped, overwritten or doubled; a failed move can
    leave a copy behind).  The call returns for every fuel from some bound
    on, unless the file meets a taken name in [Others]. *)
Theorem organize_file_keeps_contents self path fs file_path c rd :
  Fs.wf fs = true -> Fs.stat fs file_path = Some (IFile c rd) ->
  (forall fuel fs' r,
     organize_file fuel self path fs file_path = Some (fs', r) ->
     Fs.wf fs' = true /\
     contents fs ⊆+ contents fs' /\
     (forall q cq rq, Fs.stat fs q = Some (IFile cq rq) -> q <> file_path ->
                      Fs.stat fs' q = Some (IFile cq rq)) /\
     ((forall e, r <> Ok (Error e)) -> contents fs' ≡ₚ contents fs)) /\
  ((exists fuel res, forall fuel', fuel <= fuel' ->
      organize_file fuel' self path fs file_path = Some res) \/
   others_clash self path fs file_path).
Proof.
  intros Hwf Hfile. split.
  - intros fuel fs' r. unfold organize_file.
    by apply (organize_loop_conserves _ _ _ _ _ c rd).
  - apply organize_file_returns.
Qed.

Lemma organize_file_keeps_contents_witness :
  exists fs',
    organize_file 3 init [] sample_fs ["c.pdf"]
    = Some (fs', Ok (Success "Documents")) /\
    Fs.wf fs' = true /\ contents fs' ≡ₚ contents sample_fs.
Proof.
  destruct (organize_file 3 init [] sample_fs ["c.pdf"]) as [[fs' r]|] eqn:Hrun;
    [|vm_compute in Hrun; discriminate].
  assert (r = Ok (Success "Documents")) as ->.
  { vm_compute in Hrun. by injection Hrun as _ <-. }
  exists fs'. split; [reflexivity|].
  destruct (organize_file_keeps_contents init [] sample_fs ["c.pdf"] [x04] true
              eq_refl eq_refl) as [Hcall _].
  destruct (Hcall 3 fs' _ Hrun) as (Hwf & _ & _ & Hsame).
  split; [exact Hwf | by apply Hsame].
Defined.

(* ================================================================== *)
(** * The branches of [organize_file] *)
(* ================================================================== *)

Lemma lower_empty s : PyStr.lower s = "" <-> s = "".
Proof. by destruct s. Qed.

Lemma truthy_false s : PyStr.truthy s = false <-> s = "".
Proof. by destruct s. Qed.

Lemma classify_empty_dotted items :
  forallb (fun item => forallb (fun ext => PyStr.startswith ext ".") item.2) items
  = true ->
  classify items "" = None.
Proof.
  induction items as [|[category extensions] items IH]; simpl; [done|].
  intros [Hexts Hitems]%andb_true_iff. unfold PyStr.mem.
  rewrite bool_decide_eq_false_2; [by apply IH|].
  intros Hin. rewrite forallb_forall in Hexts.
  by specialize (Hexts "" (proj1 (list_elem_of_In _ _) Hin)).
Qed.

Lemma move_and_report_not_skipped fs src dst category fs' :
  move_and_report fs src dst category <> (fs', Ok Skipped).
Proof.
  unfold move_and_report. by destruct (Fs.move fs src dst) as [fs1 [[]|e]].
Qed.

Lemma organize_loop_skipped fuel path fs file_path file_ext :
  forall items fs',
    organize_loop fuel path fs file_path file_ext items = Some (fs', Ok Skipped) ->
    file_ext = "" /\ fs' = fs.
Proof.
  induction items as [|[category extensions] items IH]; intros fs'; simpl.
  - unfold organize_others. simpl.
    destruct (PyStr.truthy file_ext) eqn:Ht.
    + destruct (Fs.mkdir_exist_ok fs (path // "Others")) as [fs1|e]; [|done].
      destruct (resolve_conflict_others fuel fs1 file_path _ 1); [|done].
      intros [= Hmove]. by apply move_and_report_not_skipped in Hmove.
    + intros [= <-]. by apply truthy_false in Ht.
  - destruct (PyStr.mem file_ext extensions); [|apply IH].
    destruct (Fs.mkdir_exist_ok fs (path // category)) as [fs1|e]; [|done].
    destruct (resolve_conflict fuel fs1 _ file_path _ 1); [|done].
    intros [= Hmove]. by apply move_and_report_not_skipped in Hmove.
Qed.

(** X2.  With a category table whose extensions all start with a dot (as
    the built-in table and every table made in the settings menu),
    [organize_file] answers [('skipped', 'No extension')] exactly for the
    files whose name has no suffix, whatever the fuel, and it touches
    nothing then: no directory is made and the file stays where it is. *)
Theorem organize_file_skips_iff_no_suffix fuel self path fs file_path fs' :
  dotted self = true ->
  organize_file fuel self path fs file_path = Some (fs', Ok Skipped)
  <-> PurePath.suffix file_path = "" /\ fs' = fs.
Proof.
  intros Hdot. unfold organize_file. split.
  - intros [Hext ->]%organize_loop_skipped.
    split; [by apply (proj1 (lower_empty _)) | done].
  - intros [-> ->]. simpl.
    rewrite organize_loop_not_found by by apply classify_empty_dotted.
    done.
Qed.

Lemma organize_file_skips_iff_no_suffix_witness :
  dotted init = true /\
  (organize_file 0 init [] inbox_fs ["README"] = Some (inbox_fs, Ok Skipped)
   <-> PurePath.suffix ["README"] = "" /\ inbox_fs = inbox_fs).
Proof.
  split; [reflexivity|].
  apply (organize_file_skips_iff_no_suffix 0 init [] inbox_fs ["README"] inbox_fs).
  reflexivity.
Defined.

Lemma organize_loop_raise fuel path fs file_path file_ext :
  forall items fs' e,
    organize_loop fuel path fs file_path file_ext items = Some (fs', Raise e) ->
    fs' = fs /\
    exists category,
      (classify items file_ext = Some category \/
       classify items file_ext = None /\ category = "Others") /\
      Fs.mkdir_exist_ok fs (path // category) = Raise e.
Proof.
  assert (forall fs1 dst category fs' e,
            move_and_report fs1 file_path dst category <> (fs', Raise e)) as Hmr.
  { intros fs1 dst category fs' e. unfold move_and_report.
    by destruct (Fs.move fs1 file_path dst) as [fs2 [[]|e']]. }
  induction items as [|[category extensions] items IH]; intros fs' e; simpl.
  - unfold organize_others. simpl.
    destruct (PyStr.truthy file_ext); [|done].
    destruct (Fs.mkdir_exist_ok fs (path // "Others")) as [fs1|e'] eqn:Hmk.
    + destruct (resolve_conflict_others fuel fs1 file_path _ 1); [|done].
      intros [= Hmove]. by apply Hmr in Hmove.
    + intros [= <- <-]. split; [done|]. exists "Others". auto.
  - destruct (PyStr.mem file_ext extensions); [|apply IH].
    destruct (Fs.mkdir_exist_ok fs (path // category)) as [fs1|e'] eqn:Hmk.
    + destruct (resolve_conflict fuel fs1 _ file_path _ 1); [|done].
      intros [= Hmove]. by apply Hmr in Hmove.
    + intros [= <- <-]. split; [done|]. exists category. auto.
Qed.

(** X3.  The only exception that leaves [organize_file] is the one that
    [mkdir] raises before the [try]: the tree is then as it was, and the
    directory in question is that of the category of the file (or
    [Others]).  In particular a regular file that has the name of the
    category blocks every file of that category: each of them raises
    [FileExistsError], for every fuel, and is left in place. *)
Theorem organize_file_raises_only_from_mkdir self path fs file_path :
  (forall fuel fs' e,
     organize_file fuel self path fs file_path = Some (fs', Raise e) ->
     fs' = fs /\
     exists category,
       (classify (file_categories self) (PyStr.lower (PurePath.suffix file_path))
        = Some category \/
        classify (file_categories self) (PyStr.lower (PurePath.suffix file_path))
        = None /\ category = "Others") /\
       Fs.mkdir_exist_ok fs (path // category) = Raise e) /\
  (forall category,
     classify (file_categories self) (PyStr.lower (PurePath.suffix file_path))
     = Some category ->
     Fs.is_file fs (path // category) = true ->
     forall fuel,
       organize_file fuel self path fs file_path = Some (fs, Raise FileExistsError)).
Proof.
  split.
  - intros fuel fs' e. apply organize_loop_raise.
  - intros category Hcat Hfile fuel. unfold organize_file.
    rewrite (organize_loop_found _ _ _ _ _ _ _ Hcat).
    unfold Fs.mkdir_exist_ok. unfold Fs.is_file in Hfile.
    by destruct (Fs.lookup fs (path // category)) as [[c r|l w es]|].
Qed.

Lemma organize_file_raises_only_from_mkdir_witness :
  organize_file 5 init [] blocked_fs ["a.jpg"]
  = Some (blocked_fs, Raise FileExistsError).
Proof.
  destruct (organize_file_raises_only_from_mkdir init [] blocked_fs ["a.jpg"])
    as [_ Hblocked].
  apply (Hblocked "Images"); reflexivity.
Defined.

Lemma move_and_report_success fs src dst category fs' cat c rd :
  Fs.exists_ fs dst = false -> Fs.stat fs src = Some (IFile c rd) ->
  move_and_report fs src dst category = (fs', Ok (Success cat)) ->
  cat = category /\
  Fs.stat fs' dst = Some (IFile c rd) /\ Fs.stat fs' src = None.
Proof.
  intros Hfree Hsrc. unfold move_and_report.
  destruct (Fs.move fs src dst) as [fs1 [[]|e]] eqn:Hm; [|done].
  intros [= <- <-]. split; [done|]. by eapply move_success.
Qed.

(** X4.  A file that already lies in the directory of its category is not
    left alone when it is organised again: its own name is taken (by
    itself), so the conflict loop numbers it; the call returns for every
    fuel from some bound on and moves the file to the first free numbered
    name [stem_k.ext] with [k >= 1] in the same directory.  Organising a
    tree a second time therefore renames every file that the first run
    placed. *)
Theorem organize_file_renames_placed_file self path fs file_path category c rd :
  classify (file_categories self) (PyStr.lower (PurePath.suffix file_path))
  = Some category ->
  PurePath.parent file_path = path // category ->
  Fs.stat fs file_path = Some (IFile c rd) ->
  exists fuel k,
    1 <= k /\
    (forall j, 1 <= j < k ->
       Fs.exists_ fs (path // category // numbered_name file_path j) = true) /\
    Fs.exists_ fs (path // category // numbered_name file_path k) = false /\
    forall fuel', fuel <= fuel' ->
      organize_file fuel' self path fs file_path
      = Some (move_and_report fs file_path
                (path // category // numbered_name file_path k) category) /\
      forall fs' cat,
        move_and_report fs file_path
          (path // category // numbered_name file_path k) category
        = (fs', Ok (Success cat)) ->
        Fs.stat fs' file_path = None /\
        Fs.stat fs' (path // category // numbered_name file_path k)
        = Some (IFile c rd).
Proof.
  intros Hcat Hpar Hfile.
  assert (file_path <> []) as Hne.
  { intros ->. simpl in Hpar. by destruct path. }
  assert (path // category // PurePath.name file_path = file_path) as Hself.
  { rewrite <- Hpar. symmetry. by apply path_split. }
  pose proof (proj1 (stat_file_lookup _ _ _ _) Hfile) as Hl.
  destruct (lookup_Some_parent _ _ _ Hne Hl) as (l & w & es & Hdir & _).
  rewrite Hpar in Hdir.
  assert (Fs.mkdir_exist_ok fs (path // category) = Ok fs) as Hmk.
  { unfold Fs.mkdir_exist_ok. by rewrite Hdir. }
  destruct (resolve_conflict_first_free fs (path // category) file_path)
    as (fuel & k & Hres & Hfree & Htaken).
  destruct k as [|k].
  { simpl in Hfree. rewrite Hself in Hfree.
    by rewrite (exists_of_stat _ _ _ Hfile) in Hfree. }
  exists fuel, (S k). split_and!; [lia| |done|].
  - intros [|j] Hj; [lia|]. apply (Htaken (S j)). lia.
  - intros fuel' Hle. split.
    + unfold organize_file. rewrite (organize_loop_found _ _ _ _ _ _ _ Hcat).
      rewrite Hmk. by rewrite (Hres fuel' Hle).
    + intros fs' cat Hmove.
      destruct (move_and_report_success _ _ _ _ _ _ _ _ Hfree Hfile Hmove)
        as (_ & Hdst & Hsrc).
      done.
Qed.

Lemma organize_file_renames_placed_file_witness :
  exists fs',
    organize_file 5 init [] organised_fs ["Images"; "a.jpg"]
    = Some (fs', Ok (Success "Images")) /\
    Fs.stat fs' ["Images"; "a.jpg"] = None /\
    Fs.stat fs' ["Images"; "a_2.jpg"] = Some (IFile [x01] true).
Proof.
  destruct (organize_file_renames_placed_file init [] organised_fs
              ["Images"; "a.jpg"] "Images" [x01] true eq_refl eq_refl eq_refl)
    as (fuel & k & Hk & Htaken & Hfree & Hrun).
  assert (k = 2) as ->.
  { destruct k as [|[|[|k]]]; [lia|done|done|].
    by specialize (Htaken 2 ltac:(lia)). }
  destruct (move_and_report organised_fs ["Images"; "a.jpg"]
              ([] // "Images" // numbered_name ["Images"; "a.jpg"] 2) "Images")
    as [fs' r] eqn:Hmove.
  exists fs'. vm_compute in Hmove. injection Hmove as <- <-.
  split_and!; vm_compute; reflexivity.
Defined.

(** X5.  The [Others] branch when the name is free: for a regular file
    whose extension is not empty and in no category, with [Others] there
    or made and holding no entry of the file's name, [organize_file] returns
    with any fuel of at least one, after a move to [Others/<name>] under the
    unchanged name; when the move succeeds the result is
    [('success', 'Others')], the file is at that place with its bytes and
    no longer at its old one. *)
Theorem organize_file_others_free fuel self path fs file_path fs1 c rd :
  classify (file_categories self) (PyStr.lower (PurePath.suffix file_path)) = None ->
  PyStr.truthy (PyStr.lower (PurePath.suffix file_path)) = true ->
  Fs.mkdir_exist_ok fs (path // "Others") = Ok fs1 ->
  Fs.exists_ fs1 (path // "Others" // PurePath.name file_path) = false ->
  Fs.stat fs file_path = Some (IFile c rd) ->
  organize_file (S fuel) self path fs file_path
  = Some (move_and_report fs1 file_path
            (path // "Others" // PurePath.name file_path) "Others") /\
  forall fs' cat,
    move_and_report fs1 file_path
      (path // "Others" // PurePath.name file_path) "Others"
    = (fs', Ok (Success cat)) ->
    cat = "Others" /\
    Fs.stat fs' (path // "Others" // PurePath.name file_path) = Some (IFile c rd) /\
    Fs.stat fs' file_path = None.
Proof.
  intros Hcat Hext Hmk Hfree Hfile. split.
  - unfold organize_file. rewrite (organize_loop_not_found _ _ _ _ _ _ Hcat).
    unfold organize_others. rewrite Hext, Hmk. cbn [negb andb].
    by rewrite resolve_conflict_others_free.
  - intros fs' cat Hmove.
    pose proof (mkdir_exist_ok_frame _ _ _ _ _ Hmk Hfile) as Hfile1.
    by eapply move_and_report_success.
Qed.

Lemma organize_file_others_free_witness :
  exists fs',
    organize_file 1 init [] sample_fs ["sub"; "cache_data.bin"]
    = Some (fs', Ok (Success "Others")) /\
    Fs.stat fs' ["Others"; "cache_data.bin"] = Some (IFile [x0a; x0b] false) /\
    Fs.stat fs' ["sub"; "cache_data.bin"] = None.
Proof.
  destruct (organize_file_others_free 0 init [] sample_fs
              ["sub"; "cache_data.bin"] sample_fs [x0a; x0b] false
              eq_refl eq_refl eq_refl eq_refl eq_refl) as [Hrun Hmoved].
  destruct (move_and_report sample_fs ["sub"; "cache_data.bin"]
              ([] // "Others" // PurePath.name ["sub"; "cache_data.bin"]) "Others")
    as [fs' r] eqn:Hmove.
  exists fs'.
  assert (r = Ok (Success "Others")) as ->.
  { vm_compute in Hmove. by injection Hmove as _ <-. }
  destruct (Hmoved fs' "Others" eq_refl) as (_ & Hdst & Hsrc).
  split_and!; [exact Hrun | exact Hdst | exact Hsrc].
Defined.

(* ================================================================== *)
(** * Suffix and stem of a numbered name *)
(* ================================================================== *)

Lemma rfind_app_dot pre rest :
  PyStr.rfind "."%char rest = None ->
  PyStr.rfind "."%char (pre +:+ String "."%char rest) = Some (String.length pre).
Proof.
  intros Hrest. induction pre as [|a pre IH].
  - rewrite append_nil_l. simpl. by rewrite Hrest.
  - rewrite append_String. simpl. by rewrite IH.
Qed.

Lemma rfind_Some_split nm :
  forall i, PyStr.rfind "."%char nm = Some i ->
    exists pre rest,
      nm = pre +:+ String "."%char rest /\ String.length pre = i /\
      PyStr.rfind "."%char rest = None.
Proof.
  induction nm as [|a nm IH]; intros i; simpl; [done|].
  destruct (PyStr.rfind "."%char nm) as [j|] eqn:Hj.
  - intros [= <-]. destruct (IH j eq_refl) as (pre & rest & -> & <- & Hrest).
    exists (String a pre), rest. by rewrite append_String.
  - case_decide as Ha; [|done]. intros [= <-]. subst a.
    exists "", nm. by rewrite append_nil_l.
Qed.

Lemma substring_all s : String.substring 0 (String.length s) s = s.
Proof. induction s as [|a s IH]; simpl; [done | by rewrite IH]. Qed.

Lemma substring_app_r pre s :
  String.substring (String.length pre) (String.length s) (pre +:+ s) = s.
Proof.
  induction pre as [|a pre IH].
  - rewrite append_nil_l. apply substring_all.
  - rewrite append_String. simpl. apply IH.
Qed.

Lemma substring_app_l pre s :
  String.substring 0 (String.length pre) (pre +:+ s) = pre.
Proof.
  induction pre as [|a pre IH].
  - rewrite append_nil_l. simpl. by destruct s.
  - rewrite append_String. simpl. by rewrite IH.
Qed.

(** A name with a non-empty stem, a dot and a non-empty, dotless rest has
    that stem and the dotted rest as suffix; every name with a suffix is of
    this form. *)
Lemma suffix_of_dotted pre rest :
  pre <> "" -> rest <> "" -> PyStr.rfind "."%char rest = None ->
  PurePath.suffix_of (pre +:+ String "."%char rest) = String "."%char rest /\
  PurePath.stem_of (pre +:+ String "."%char rest) = pre.
Proof.
  intros Hpre Hrest Hdot. unfold PurePath.suffix_of, PurePath.stem_of, PurePath.dot_index.
  rewrite (rfind_app_dot _ _ Hdot), length_append. simpl String.length.
  assert (0 < String.length pre) as Hp by (destruct pre; [done | simpl; lia]).
  assert (0 < String.length rest) as Hr by (destruct rest; [done | simpl; lia]).
  rewrite (proj2 (Nat.ltb_lt _ _) Hp).
  rewrite (proj2 (Nat.ltb_lt (String.length pre) _)) by lia. simpl andb. cbv iota.
  replace (String.length pre + S (String.length rest) - String.length pre)
    with (String.length (String "."%char rest)) by (simpl; lia).
  by rewrite substring_app_r, substring_app_l.
Qed.

Lemma suffix_of_split nm :
  PurePath.suffix_of nm <> "" ->
  exists pre rest,
    nm = pre +:+ String "."%char rest /\
    pre <> "" /\ rest <> "" /\ PyStr.rfind "."%char rest = None.
Proof.
  unfold PurePath.suffix_of, PurePath.dot_index.
  destruct (PyStr.rfind "."%char nm) as [i|] eqn:Hi; [|done].
  destruct (0 <? i)%nat eqn:H0; [|done].
  destruct (i <? String.length nm - 1)%nat eqn:H1; [|done]. intros _.
  apply Nat.ltb_lt in H0, H1.
  destruct (rfind_Some_split _ _ Hi) as (pre & rest & -> & <- & Hrest).
  exists pre, rest. split_and!; [done| | |done].
  - intros ->. simpl in H0. lia.
  - intros ->. rewrite length_append in H1. simpl in H1. lia.
Qed.

Lemma name_joinpath dir s : PurePath.name (dir // s) = s.
Proof. unfold PurePath.name, PurePath.joinpath. apply last_last. Qed.

(** X6.  Numbering keeps the extension: for a file that has a suffix, the
    numbered name [f"{stem}_{counter}{suffix}"] has, as [pathlib] reads it,
    the same suffix as the file and the stem [stem_counter]; so the renamed
    file stays in the category in which it was placed. *)
Theorem numbered_name_keeps_suffix (dir file_path : Path) (counter : nat) :
  PurePath.suffix file_path <> "" ->
  PurePath.suffix (dir // numbered_name file_path counter)
  = PurePath.suffix file_path /\
  PurePath.stem (dir // numbered_name file_path counter)
  = PurePath.stem file_path +:+ "_" +:+ pretty counter /\
  forall items,
    classify items (PyStr.lower (PurePath.suffix (dir // numbered_name file_path counter)))
    = classify items (PyStr.lower (PurePath.suffix file_path)).
Proof.
  unfold PurePath.suffix, PurePath.stem, numbered_name. rewrite name_joinpath.
  unfold PurePath.suffix, PurePath.stem.
  intros (pre & rest & Hnm & Hpre & Hrest & Hdot)%suffix_of_split.
  rewrite Hnm.
  destruct (suffix_of_dotted pre rest Hpre Hrest Hdot) as [-> ->].
  assert (pre +:+ "_" +:+ pretty counter +:+ String "."%char rest
          = (pre +:+ "_" +:+ pretty counter) +:+ String "."%char rest) as ->.
  { by rewrite !append_assoc. }
  assert (pre +:+ "_" +:+ pretty counter <> "") as Hpre'.
  { destruct pre; [done|]. by rewrite append_String. }
  destruct (suffix_of_dotted _ rest Hpre' Hrest Hdot) as [-> ->].
  done.
Qed.

Lemma numbered_name_keeps_suffix_witness :
  PurePath.suffix (["Documents"] // numbered_name ["in"; "report.v2.pdf"] 12) = ".pdf" /\
  PurePath.stem (["Documents"] // numbered_name ["in"; "report.v2.pdf"] 12)
  = "report.v2_12".
Proof.
  destruct (numbered_name_keeps_suffix ["Documents"] ["in"; "report.v2.pdf"] 12)
    as (Hsuffix & Hstem & _); [by vm_compute|].
  split; [exact Hsuffix | exact Hstem].
Defined.

(* ================================================================== *)
(** * The temporary file sweeper *)
(* ================================================================== *)

Lemma st_size_is_file fs p :
  Fs.is_file fs p = true -> exists n, Fs.st_size fs p = Ok n.
Proof.
  unfold Fs.is_file, Fs.st_size.
  destruct (Fs.lookup fs p) as [[c r|l w es]|]; try done. eauto.
Qed.

Lemma scan_temp_files_spec self fs :
  forall items temp_files total_size,
    scan_temp_files self fs items temp_files total_size
    = Ok (temp_files
          ++ filter (fun file_path =>
                       Is_true (Fs.is_file fs file_path
                                && is_temp_name self (PurePath.name file_path)))
                    items,
          total_size
          + sizes_of fs
              (filter (fun file_path =>
                         Is_true (Fs.is_file fs file_path
                                  && is_temp_name self (PurePath.name file_path)))
                      items)).
Proof.
  induction items as [|f items IH]; intros temp_files total_size.
  - simpl. unfold sizes_of. simpl. by rewrite app_nil_r, Nat.add_0_r.
  - cbn [scan_temp_files].
    destruct (Fs.is_file fs f && is_temp_name self (PurePath.name f)) eqn:Hb.
    + rewrite filter_cons_True by (by rewrite Hb).
      apply andb_true_iff in Hb as [Hfile Htemp]. rewrite Hfile.
      destruct (st_size_is_file _ _ Hfile) as [n Hn].
      assert (sizes_of fs (f :: filter (fun file_path =>
                         Is_true (Fs.is_file fs file_path
                                  && is_temp_name self (PurePath.name file_path)))
                      items)
              = n + sizes_of fs (filter (fun file_path =>
                         Is_true (Fs.is_file fs file_path
                                  && is_temp_name self (PurePath.name file_path)))
                      items)) as ->.
      { unfold sizes_of. simpl. by rewrite Hn. }
      unfold is_temp_name in Htemp.
      destruct (PyStr.any _ (temp_extensions self)).
      * rewrite Hn, IH. by rewrite <- (assoc_L (++)), Nat.add_assoc.
      * destruct (PyStr.any _ temp_patterns); [|done].
        rewrite Hn, IH. by rewrite <- (assoc_L (++)), Nat.add_assoc.
    + rewrite filter_cons_False by (rewrite Hb; exact id).
      destruct (Fs.is_file fs f); [|apply IH]. simpl in Hb.
      unfold is_temp_name in Hb.
      destruct (PyStr.any _ (temp_extensions self)); [done|].
      destruct (PyStr.any _ temp_patterns); [done|]. apply IH.
Qed.

Lemma temp_table_rows_Ok self fs :
  forall temp_files,
    Forall (fun f => Fs.is_file fs f = true) temp_files ->
    exists rows, temp_table_rows self fs temp_files = Ok rows.
Proof.
  induction 1 as [|f files Hf Hfiles [rows IH]]; simpl; [eauto|].
  destruct (st_size_is_file _ _ Hf) as [n ->]. rewrite IH. eauto.
Qed.

Lemma find_temp_files_is_file self fs path :
  Forall (fun f => Fs.is_file fs f = true) (find_temp_files self fs path).
Proof.
  apply Forall_forall. intros f [Hf _]%list_elem_of_filter.
  apply andb_True in Hf as [Hf _]. by apply Is_true_eq_true.
Qed.



Lemma stat_take_cases p fs q c r :
  p <> [] -> Fs.lookup fs p = Some (File c r) ->
  (q <> p /\ Fs.stat (Fs.take p fs) q = Fs.stat fs q) \/
  (q = p /\ Fs.stat (Fs.take p fs) q = None).
Proof.
  intros Hne Hl. apply stat_file_lookup in Hl.
  pose proof (lookup_take_eq p fs Hne) as Hgone. apply stat_None_lookup in Hgone.
  destruct (decide (q = p)) as [->|Hqp]; [by right|]. left. split; [done|].
  destruct (decide (p `prefix_of` q)) as [Hpre|Hnpre].
  - rewrite (stat_None_prefix _ _ _ Hgone Hpre).
    by rewrite (stat_file_prefix _ _ _ _ _ Hl Hpre Hqp).
  - by apply stat_take_other.
Qed.


Lemma temp_sample_Ok self rich fs temp_files :
  Forall (fun f => Fs.is_file fs f = true) temp_files ->
  exists sample, temp_sample self rich fs temp_files = Ok sample.
Proof.
  intros Hfiles. unfold temp_sample. destruct rich; [|eauto].
  destruct (temp_table_rows_Ok self fs (take 10 temp_files)) as [rows ->];
    [by apply Forall_take | eauto].
Qed.

(** What a call of [clean_temp_files] comes to: it returns; the list and
    the total are those of the scan; the tree is either left alone or the
    deletion loop has run over the whole list. *)
Lemma clean_temp_files_cases self rich fs path confirm answer :
  exists run,
    clean_temp_files self rich fs path confirm answer = Ok run /\
    sweep_temp_files run = find_temp_files self fs path /\
    sweep_total_size run = sizes_of fs (find_temp_files self fs path) /\
    (((confirm && negb answer = true \/ find_temp_files self fs path = []) /\
      sweep_fs run = fs /\ sweep_deleted_count run = 0 /\
      sweep_deleted_size run = 0) \/
     (confirm && negb answer = false /\
      delete_temp_files fs (find_temp_files self fs path) 0 0
      = (sweep_fs run, sweep_deleted_count run, sweep_deleted_size run) /\
      sweep_console run
      = [MsgTempFound (length (find_temp_files self fs path))
           (sizes_of fs (find_temp_files self fs path));
         MsgTempDeleted (sweep_deleted_count run);
         MsgFreed (sweep_deleted_size run)])).
Proof.
  unfold clean_temp_files.
  destruct (Fs.exists_ fs path) eqn:He; simpl.
  - rewrite scan_temp_files_spec. simpl app. simpl Nat.add.
    fold (find_temp_files self fs path).
    case_bool_decide as Hnil.
    { eexists. split; [done|]. simpl. rewrite Hnil. split_and!; try done.
      left. split_and!; auto. }
    destruct (temp_sample_Ok self rich fs _ (find_temp_files_is_file self fs path))
      as [sample ->].
    destruct (confirm && negb answer) eqn:Hgo.
    { eexists. split; [done|]. simpl. split_and!; try done.
      left. split_and!; auto. }
    destruct (delete_temp_files fs _ 0 0) as [[fs' dc] ds] eqn:Hdel.
    eexists. split; [done|]. simpl. split_and!; try done. by right.
  - assert (find_temp_files self fs path = []) as Hnil.
    { unfold find_temp_files, Fs.rglob. unfold Fs.exists_ in He.
      by destruct (Fs.lookup fs path). }
    eexists. split; [done|]. simpl. rewrite Hnil. split_and!; try done.
    left. split_and!; auto.
Qed.

(** On a tree with links and search permission, too, [stat] answers for a
    path that [is_file] has accepted. *)
Lemma posix_st_size_is_file top p :
  Posix.is_file top p = Posix.Return true ->
  exists size, Posix.st_size top p = Posix.Return size.
Proof.
  unfold Posix.is_file, Posix.st_size.
  destruct (Posix.stat top p) as [[c r|r w x es|t]|e]; try done; [by eexists|].
  by destruct (Posix.ignore_error e).
Qed.

(** So the scan loop of the sweeper, on such a tree, is left only by what
    an [is_file] test raises. *)
Lemma posix_scan_temp_files_cases self top items :
  forall temp_files total_size,
    match Posix.scan_temp_files self top items temp_files total_size with
    | Posix.Return (found, _) =>
        exists more,
          found = temp_files ++ more /\
          Forall (fun f => f ∈ items /\ Posix.is_file top f = Posix.Return true)
                 more
    | Posix.Fail e =>
        exists item, item ∈ items /\ Posix.is_file top item = Posix.Fail e
    end.
Proof.
  induction items as [|f items IH]; intros temp_files total_size.
  - exists []. by rewrite app_nil_r.
  - assert (forall tf ts,
              match Posix.scan_temp_files self top items tf ts with
              | Posix.Return (found, _) =>
                  exists more,
                    found = tf ++ more /\
                    Forall (fun g => g ∈ f :: items /\
                                     Posix.is_file top g = Posix.Return true) more
              | Posix.Fail e =>
                  exists item, item ∈ f :: items /\
                               Posix.is_file top item = Posix.Fail e
              end) as IH'.
    { intros tf ts. specialize (IH tf ts).
      destruct (Posix.scan_temp_files self top items tf ts) as [[found total]|e].
      - destruct IH as (more & -> & Hall). exists more. split; [done|].
        eapply Forall_impl; [exact Hall|]. intros g [Hg ?].
        split; [apply elem_of_cons; by right | done].
      - destruct IH as (item & Hin & Hitem). exists item.
        split; [apply elem_of_cons; by right | done]. }
    assert (forall size,
              Posix.is_file top f = Posix.Return true ->
              match Posix.scan_temp_files self top items (temp_files ++ [f])
                      (total_size + size) with
              | Posix.Return (found, _) =>
                  exists more,
                    found = temp_files ++ more /\
                    Forall (fun g => g ∈ f :: items /\
                                     Posix.is_file top g = Posix.Return true) more
              | Posix.Fail e =>
                  exists item, item ∈ f :: items /\
                               Posix.is_file top item = Posix.Fail e
              end) as Htake.
    { intros size Hfile. specialize (IH' (temp_files ++ [f]) (total_size + size)).
      destruct (Posix.scan_temp_files self top items (temp_files ++ [f])
                  (total_size + size)) as [[found total]|e]; [|done].
      destruct IH' as (more & -> & Hall). exists (f :: more).
      split; [by rewrite <- (assoc_L (++))|].
      constructor; [|done]. split; [apply elem_of_cons; by left | done]. }
    cbn [Posix.scan_temp_files].
    destruct (Posix.is_file top f) as [[]|e] eqn:Hfile.
    + destruct (posix_st_size_is_file _ _ Hfile) as [size ->].
      destruct (PyStr.any _ (temp_extensions self)); [by apply Htake|].
      destruct (PyStr.any _ temp_patterns); [by apply Htake | apply IH'].
    + apply IH'.
    + exists f. split; [apply elem_of_cons; by left | done].
Qed.

(** X7.  The [stat] calls of [clean_temp_files] cannot raise.  Whatever
    paths the traversal yields, the [stat] of the scan loop is applied only
    to a path that the [is_file] test of the same iteration has just
    accepted, and the total that the loop accumulates is the sum of the
    sizes of the files it collected; the [stat] of the sample table is
    applied to collected files and returns as well.  The [is_file] test
    itself is outside any [try]: on a tree with symbolic links and search
    permission, where it can raise, the scan loop is left only by what an
    [is_file] test raises, never by [stat], and when it runs to its end the
    files it collected are entries that the test accepted.  In a call that
    returns, the total size announced is the sum of the sizes of the
    candidates, and when the user declines or nothing was found the tree is
    left as it is and nothing is counted as deleted. *)
Theorem sweep_stat_cannot_raise self rich fs path confirm answer :
  (forall items,
     exists found,
       scan_temp_files self fs items [] 0 = Ok (found, sizes_of fs found) /\
       Forall (fun f => f ∈ items /\ Fs.is_file fs f = true) found) /\
  (forall temp_files,
     Forall (fun f => Fs.is_file fs f = true) temp_files ->
     exists sample, temp_sample self rich fs temp_files = Ok sample) /\
  (forall top items,
     match Posix.scan_temp_files self top items [] 0 with
     | Posix.Return (found, _) =>
         Forall (fun f => f ∈ items /\ Posix.is_file top f = Posix.Return true)
                found
     | Posix.Fail e =>
         exists item, item ∈ items /\ Posix.is_file top item = Posix.Fail e
     end) /\
  (forall top file_path,
     Posix.is_file top file_path = Posix.Return true ->
     exists size, Posix.st_size top file_path = Posix.Return size) /\
  (forall run,
     clean_temp_files self rich fs path confirm answer = Ok run ->
     sweep_total_size run = sizes_of fs (sweep_temp_files run) /\
     (confirm && negb answer = true \/ sweep_temp_files run = [] ->
      sweep_fs run = fs /\ sweep_deleted_count run = 0 /\
      sweep_deleted_size run = 0)).
Proof.
  split_and!.
  - intros items. rewrite scan_temp_files_spec. eexists. split; [done|].
    apply Forall_forall. intros f [Hf Hin]%list_elem_of_filter.
    apply andb_True in Hf as [Hf _]. split; [done | by apply Is_true_eq_true].
  - apply temp_sample_Ok.
  - intros top items.
    pose proof (posix_scan_temp_files_cases self top items [] 0) as H.
    destruct (Posix.scan_temp_files self top items [] 0) as [[found total]|e];
      [|done].
    by destruct H as (more & -> & Hall).
  - apply posix_st_size_is_file.
  - intros run Hrun.
    destruct (clean_temp_files_cases self rich fs path confirm answer)
      as (run' & Hrun' & Hfiles & Htotal & Hcases).
    rewrite Hrun in Hrun'. injection Hrun' as <-.
    rewrite Hfiles. split; [done|]. intros Hstop.
    destruct Hcases as [(_ & ? & ? & ?)|(Hgo & Hdel & _)]; [done|].
    destruct Hstop as [Hstop|Hnil]; [congruence|].
    rewrite Hnil in Hdel. simpl in Hdel. by injection Hdel as <- <- <-.
Qed.





(* ------------------------------------------------------------------ *)
(** ** A sweep in which no deletion fails *)
(* ------------------------------------------------------------------ *)














(* ------------------------------------------------------------------ *)
(** ** The sample table *)
(* ------------------------------------------------------------------ *)

Lemma endswith_suffix_of nm : PyStr.endswith nm (PurePath.suffix_of nm) = true.
Proof.
  apply endswith_spec.
  destruct (decide (PurePath.suffix_of nm = "")) as [Hnil|Hsuf].
  - rewrite Hnil. exists nm. by rewrite append_nil_r.
  - destruct (suffix_of_split nm Hsuf) as (pre & rest & -> & Hpre & Hrest & Hdot).
    destruct (suffix_of_dotted pre rest Hpre Hrest Hdot) as [-> _]. by exists pre.
Qed.

Lemma temp_table_rows_spec self fs :
  forall temp_files rows,
    temp_table_rows self fs temp_files = Ok rows ->
    forall row, row ∈ rows ->
      exists temp_file file_size,
        temp_file ∈ temp_files /\ Fs.st_size fs temp_file = Ok file_size /\
        row = RowFile (String.substring 0 50 (PurePath.name temp_file)) file_size
                (PyStr.mem (PurePath.suffix temp_file) (temp_extensions self)).
Proof.
  induction temp_files as [|f files IH]; intros rows; simpl.
  - intros [= <-] row Hrow. by apply elem_of_nil in Hrow.
  - destruct (Fs.st_size fs f) as [n|e] eqn:Hsize; [|done].
    destruct (temp_table_rows self fs files) as [rows'|e]; [|done].
    intros [= <-] row [->|Hrow]%elem_of_cons.
    + exists f, n. split_and!; [apply elem_of_cons; by left|done..].
    + destruct (IH rows' eq_refl row Hrow) as (f' & n' & Hin & Hn' & ->).
      exists f', n'. split_and!; [apply elem_of_cons; by right|done..].
Qed.

(** X11.  In the rich sample table a row of type "Extension" always stands
    for a file that the scan took by the extension test (its name ends with
    one of [temp_extensions]), with the size that [stat] gives; the type is
    decided by [Path.suffix], not by the test of the scan, so the converse
    fails: with the built-in extensions a file named [draft~] is taken by
    the extension test and shown as "Pattern". *)
Theorem temp_table_extension_rows self fs temp_files rows :
  temp_table_rows self fs temp_files = Ok rows ->
  (forall name file_size,
     RowFile name file_size true ∈ rows ->
     exists temp_file,
       temp_file ∈ temp_files /\
       name = String.substring 0 50 (PurePath.name temp_file) /\
       Fs.st_size fs temp_file = Ok file_size /\
       PyStr.any (fun ext => PyStr.endswith (PurePath.name temp_file) ext)
         (temp_extensions self) = true) /\
  (PyStr.any (fun ext => PyStr.endswith (PurePath.name ["draft~"]) ext)
     (temp_extensions init) = true /\
   temp_table_rows init cluttered_fs [["draft~"]] = Ok [RowFile "draft~" 1 false]).
Proof.
  intros Hrows. split; [|by vm_compute].
  intros name file_size Hrow.
  destruct (temp_table_rows_spec _ _ _ _ Hrows _ Hrow)
    as (temp_file & n & Hin & Hsize & [= -> -> Hmem]).
  exists temp_file. split_and!; [done..|].
  symmetry in Hmem. unfold PyStr.mem in Hmem. apply bool_decide_eq_true in Hmem.
  apply any_spec. exists (PurePath.suffix temp_file). split; [done|].
  apply endswith_suffix_of.
Qed.

Lemma temp_table_extension_rows_witness :
  exists temp_file,
    temp_file ∈ [["a.tmp"]; ["draft~"]] /\
    "a.tmp" = String.substring 0 50 (PurePath.name temp_file) /\
    Fs.st_size cluttered_fs temp_file = Ok 2 /\
    PyStr.any (fun ext => PyStr.endswith (PurePath.name temp_file) ext)
      (temp_extensions init) = true.
Proof.
  destruct (temp_table_extension_rows init cluttered_fs [["a.tmp"]; ["draft~"]]
              [RowFile "a.tmp" 2 true; RowFile "draft~" 1 false] eq_refl)
    as [Hrows _].
  apply (Hrows "a.tmp" 2). apply elem_of_cons. by left.
Defined.

(* ================================================================== *)
(** * The directory analysis *)
(* ================================================================== *)

Lemma find_category_classify items file_ext :
  find_category items file_ext = default "Others" (classify items file_ext).
Proof.
  induction items as [|[cat extensions] items IH]; simpl; [done|].
  by destruct (PyStr.mem file_ext extensions).
Qed.

Lemma analyze_file_is_file `{timestamps : Timestamps} self fs file_path :
  Fs.is_file fs file_path = true ->
  exists r, analyze_file self fs file_path = Some r /\
            info_path r = file_path /\
            Fs.st_size fs file_path = Ok (info_size r) /\
            info_modified_time r = st_mtime file_path.
Proof.
  intros [n Hn]%st_size_is_file. unfold analyze_file. rewrite Hn. eauto.
Qed.

Lemma category_entry_snoc rs r :
  category_entry (rs ++ [r])
  = Some ((default (0, 0) (category_entry rs)).1 + 1,
          (default (0, 0) (category_entry rs)).2 + info_size r).
Proof.
  unfold category_entry, sum_sizes.
  destruct rs as [|r0 rs]; [simpl; f_equal; f_equal; lia|].
  change ((r0 :: rs) ++ [r]) with (r0 :: (rs ++ [r])). cbn [default fst snd].
  change (r0 :: (rs ++ [r])) with ((r0 :: rs) ++ [r]).
  rewrite sum_list_with_app, !length_app. simpl. f_equal. f_equal; lia.
Qed.

Lemma extension_entry_snoc rs r :
  extension_entry (rs ++ [r]) = Some (default 0 (extension_entry rs) + 1).
Proof.
  unfold extension_entry. destruct rs as [|r0 rs]; [done|].
  change ((r0 :: rs) ++ [r]) with (r0 :: (rs ++ [r])). cbn [default].
  change (r0 :: (rs ++ [r])) with ((r0 :: rs) ++ [r]).
  by rewrite !length_app.
Qed.

(** The statistics after the loop, for any list of completed futures. *)
Lemma fold_update_stats files0 (rs : list (option file_info)) :
  let st := fold_left update_stats rs (initial_stats files0) in
  stats_total_files st = length files0 /\
  stats_total_size st = sum_sizes (omap id rs) /\
  stats_largest_files st
  = map (fun r => (info_path r, info_size r)) (omap id rs) /\
  (forall c, stats_categories st !! c
             = category_entry (in_category c (omap id rs))) /\
  (forall e, stats_extensions st !! e
             = extension_entry (with_extension e (omap id rs))).
Proof.
  induction rs as [|r rs IH] using rev_ind; simpl.
  { split_and!; try done; intros ?; apply lookup_empty. }
  rewrite fold_left_app. simpl. rewrite omap_app.
  destruct IH as (Hn & Hsize & Hlargest & Hcat & Hext).
  destruct r as [r|]; simpl; [|by rewrite !app_nil_r].
  split_and!.
  - done.
  - rewrite Hsize. unfold sum_sizes. rewrite sum_list_with_app. simpl. lia.
  - rewrite Hlargest, map_app. done.
  - intros c. unfold in_category. rewrite filter_app.
    destruct (decide (info_category r = c)) as [<-|Hne].
    + rewrite lookup_insert_eq, filter_cons_True, filter_nil by done.
      fold (in_category (info_category r) (omap id rs)).
      by rewrite category_entry_snoc, Hcat.
    + rewrite lookup_insert_ne, filter_cons_False, filter_nil, app_nil_r by done.
      apply Hcat.
  - intros e. unfold with_extension. rewrite filter_app.
    destruct (decide (info_extension r = e)) as [<-|Hne].
    + rewrite lookup_insert_eq, filter_cons_True, filter_nil by done.
      fold (with_extension (info_extension r) (omap id rs)).
      by rewrite extension_entry_snoc, Hext.
    + rewrite lookup_insert_ne, filter_cons_False, filter_nil, app_nil_r by done.
      apply Hext.
Qed.

Lemma fold_update_stats_times files0 (rs : list (option file_info)) :
  let st := fold_left update_stats rs (initial_stats files0) in
  match stats_oldest_file st with
  | None => omap id rs = []
  | Some (p, t) =>
      (exists r, r ∈ omap id rs /\ info_path r = p /\ info_modified_time r = t) /\
      forall r, r ∈ omap id rs -> (t <= info_modified_time r)%N
  end /\
  match stats_newest_file st with
  | None => omap id rs = []
  | Some (p, t) =>
      (exists r, r ∈ omap id rs /\ info_path r = p /\ info_modified_time r = t) /\
      forall r, r ∈ omap id rs -> (info_modified_time r <= t)%N
  end.
Proof.
  induction rs as [|r rs IH] using rev_ind; simpl; [done|].
  rewrite fold_left_app. simpl. rewrite omap_app.
  destruct r as [r|]; simpl; [|by rewrite !app_nil_r].
  destruct IH as [Hold Hnew]. split.
  - destruct (stats_oldest_file (fold_left update_stats rs (initial_stats files0)))
      as [[p t]|].
    + destruct Hold as [(r0 & Hr0 & Hp & Ht) Hmin].
      destruct (info_modified_time r <? t)%N eqn:Hlt.
      * apply N.ltb_lt in Hlt. split.
        -- exists r. split; [|done]. apply elem_of_app. right. by apply elem_of_cons; left.
        -- intros r' [Hr'|Hr']%elem_of_app.
           ++ specialize (Hmin r' Hr'). lia.
           ++ apply list_elem_of_singleton in Hr' as ->. lia.
      * apply N.ltb_ge in Hlt. split.
        -- exists r0. split; [|done]. apply elem_of_app. by left.
        -- intros r' [Hr'|Hr']%elem_of_app; [by apply Hmin|].
           by apply list_elem_of_singleton in Hr' as ->.
    + rewrite Hold. split.
      * exists r. split; [|done]. by apply elem_of_cons; left.
      * intros r' Hr'. apply list_elem_of_singleton in Hr' as ->. lia.
  - destruct (stats_newest_file (fold_left update_stats rs (initial_stats files0)))
      as [[p t]|].
    + destruct Hnew as [(r0 & Hr0 & Hp & Ht) Hmax].
      destruct (t <? info_modified_time r)%N eqn:Hlt.
      * apply N.ltb_lt in Hlt. split.
        -- exists r. split; [|done]. apply elem_of_app. right. by apply elem_of_cons; left.
        -- intros r' [Hr'|Hr']%elem_of_app.
           ++ specialize (Hmax r' Hr'). lia.
           ++ apply list_elem_of_singleton in Hr' as ->. lia.
      * apply N.ltb_ge in Hlt. split.
        -- exists r0. split; [|done]. apply elem_of_app. by left.
        -- intros r' [Hr'|Hr']%elem_of_app; [by apply Hmax|].
           by apply list_elem_of_singleton in Hr' as ->.
    + rewrite Hnew. split.
      * exists r. split; [|done]. by apply elem_of_cons; left.
      * intros r' Hr'. apply list_elem_of_singleton in Hr' as ->. lia.
Qed.

Lemma insert_by_size_perm x l : insert_by_size x l ≡ₚ x :: l.
Proof.
  induction l as [|y l IH]; simpl; [done|].
  destruct (x.2 <? y.2)%nat; [|done]. rewrite IH. apply Permutation_swap.
Qed.

Lemma insert_by_size_sorted x l :
  sorted_by_size l -> sorted_by_size (insert_by_size x l).
Proof.
  induction l as [|y l IH]; simpl; [done|]. intros [Hy Hl].
  destruct (x.2 <? y.2)%nat eqn:Hlt; simpl.
  - apply Nat.ltb_lt in Hlt. split; [|by apply IH].
    rewrite insert_by_size_perm. constructor; [lia | done].
  - apply Nat.ltb_ge in Hlt. split_and!; [|done..].
    constructor; [done|]. eapply Forall_impl; [exact Hy|]. simpl. lia.
Qed.

Lemma sort_by_size_perm l : sort_by_size l ≡ₚ l.
Proof.
  induction l as [|x l IH]; simpl; [done|]. by rewrite insert_by_size_perm, IH.
Qed.

Lemma sort_by_size_sorted l : sorted_by_size (sort_by_size l).
Proof.
  induction l as [|x l IH]; simpl; [done|]. by apply insert_by_size_sorted.
Qed.

Lemma sorted_by_size_app l1 l2 :
  sorted_by_size (l1 ++ l2) ->
  sorted_by_size l1 /\
  forall x y, x ∈ l1 -> y ∈ l2 -> y.2 <= x.2.
Proof.
  induction l1 as [|a l1 IH]; simpl.
  - intros _. split; [done|]. by intros x y ?%elem_of_nil.
  - intros [[Ha1 Ha2]%Forall_app Hs]. destruct (IH Hs) as [Hs1 Hle].
    split; [done|]. intros x y [->|Hx]%elem_of_cons Hy; [|by apply Hle].
    rewrite Forall_forall in Ha2. by apply Ha2.
Qed.

(** Sorting an ordered list leaves it as it is: equal sizes stay in the
    order in which they were appended. *)
Lemma sort_by_size_sorted_id l : sorted_by_size l -> sort_by_size l = l.
Proof.
  induction l as [|x l IH]; simpl; [done|]. intros [Hx Hl].
  rewrite (IH Hl). destruct l as [|y l]; [done|]. simpl.
  apply Forall_cons in Hx as [Hy _].
  by rewrite (proj2 (Nat.ltb_ge _ _) Hy).
Qed.

Lemma omap_id_map {A B} (f : A -> option B) (l : list A) :
  omap id (map f l) = omap f l.
Proof.
  induction l as [|x l IH]; simpl; [done|].
  change (list_omap (option B) B id (map f l)) with (omap id (map f l)).
  rewrite IH. by destruct (f x).
Qed.

Lemma category_entry_perm rs rs' :
  rs ≡ₚ rs' -> category_entry rs = category_entry rs'.
Proof.
  intros Hp. unfold category_entry, sum_sizes.
  destruct rs as [|r rs], rs' as [|r' rs'].
  - done.
  - by apply Permutation_nil_cons in Hp.
  - symmetry in Hp. by apply Permutation_nil_cons in Hp.
  - by rewrite Hp.
Qed.

Lemma extension_entry_perm rs rs' :
  rs ≡ₚ rs' -> extension_entry rs = extension_entry rs'.
Proof.
  intros Hp. unfold extension_entry.
  destruct rs as [|r rs], rs' as [|r' rs'].
  - done.
  - by apply Permutation_nil_cons in Hp.
  - symmetry in Hp. by apply Permutation_nil_cons in Hp.
  - by rewrite Hp.
Qed.

Lemma omap_cons_Some {A B} (f : A -> option B) x y l :
  f x = Some y -> omap f (x :: l) = y :: omap f l.
Proof. intros Hx. simpl. by rewrite Hx. Qed.

Lemma analysis_results_files `{timestamps : Timestamps} self fs files :
  Forall (fun f => Fs.is_file fs f = true) files ->
  map info_path (analysis_results self fs files) = files /\
  map (fun r => (info_path r, info_size r)) (analysis_results self fs files)
  = map (fun f => (f, match Fs.st_size fs f with Ok n => n | Raise _ => 0 end))
        files /\
  map info_modified_time (analysis_results self fs files) = map st_mtime files /\
  sum_sizes (analysis_results self fs files) = sizes_of fs files.
Proof.
  unfold analysis_results, sum_sizes, sizes_of.
  induction 1 as [|f files Hf Hfiles (IH1 & IH2 & IH3 & IH4)]; [done|].
  destruct (analyze_file_is_file self fs f Hf) as (r & Hr & Hp & Hsize & Ht).
  rewrite (omap_cons_Some _ _ _ _ Hr). simpl.
  rewrite IH1, IH2, IH3, IH4, Hp, Hsize, Ht. done.
Qed.

Lemma scanned_files_are_files `{sched : Scheduler} fs path :
  Forall (fun f => Fs.is_file fs f = true) (all_files (scan_files_threaded fs path)).
Proof.
  destruct (Fs.exists_ fs path) eqn:He.
  - rewrite (scan_files_threaded_exists _ _ He). simpl.
    apply Forall_forall. intros f (d & _ & Hf)%elem_of_flat_map.
    by eapply files_in_is_file.
  - by rewrite scan_missing_path.
Qed.

(** The statistics of a call that gets to display them, in terms of the
    loop over the completed futures. *)
Lemma analyze_directory_threaded_Analysis `{timestamps : Timestamps}
    `{sched : Scheduler} self fs path st :
  analyze_directory_threaded self fs path = Analysis st ->
  all_files (scan_files_threaded fs path) <> [] /\
  st = (let st0 := collect_stats self fs (all_files (scan_files_threaded fs path)) in
        {| stats_total_files := stats_total_files st0;
           stats_total_size := stats_total_size st0;
           stats_categories := stats_categories st0;
           stats_largest_files := take 10 (sort_by_size (stats_largest_files st0));
           stats_extensions := stats_extensions st0;
           stats_oldest_file := stats_oldest_file st0;
           stats_newest_file := stats_newest_file st0 |}).
Proof.
  unfold analyze_directory_threaded.
  destruct (Fs.exists_ fs path); simpl; [|done].
  case_bool_decide as Hnil; [done|]. by intros [= <-].
Qed.

(** X12.  The totals of the analysis.  When the analysis gets to display
    its statistics, every scanned file was analysed (no [stat] failed), and
    whatever the order in which the futures complete: the number of files is
    that of the scan and is positive; the total size is the sum of the
    sizes of the scanned files; the entry of a category holds the number
    and the total size of the scanned files of that category, and there is
    an entry exactly for the categories that have a file; likewise for the
    counter of extensions; the average is the floor of total size by
    number. *)
Theorem analysis_totals `{timestamps : Timestamps} `{sched : Scheduler}
    self fs path st :
  analyze_directory_threaded self fs path = Analysis st ->
  stats_total_files st = length (all_files (scan_files_threaded fs path)) /\
  0 < stats_total_files st /\
  map info_path
    (analysis_results self fs (all_files (scan_files_threaded fs path)))
  = all_files (scan_files_threaded fs path) /\
  stats_total_size st = sizes_of fs (all_files (scan_files_threaded fs path)) /\
  (forall c,
     stats_categories st !! c
     = category_entry
         (in_category c
            (analysis_results self fs (all_files (scan_files_threaded fs path))))) /\
  (forall e,
     stats_extensions st !! e
     = extension_entry
         (with_extension e
            (analysis_results self fs (all_files (scan_files_threaded fs path))))) /\
  average_file_size st
  = sizes_of fs (all_files (scan_files_threaded fs path))
    / length (all_files (scan_files_threaded fs path)).
Proof.
  intros [Hne ->]%analyze_directory_threaded_Analysis.
  set (files := all_files (scan_files_threaded fs path)) in *.
  pose proof (scanned_files_are_files fs path) as Hfiles. fold files in Hfiles.
  destruct (analysis_results_files self fs files Hfiles) as (Hpaths & _ & _ & Hsum).
  unfold collect_stats.
  destruct (fold_update_stats files
              (map (analyze_file self fs) (as_completed files)))
    as (Hn & Hsize & _ & Hcat & Hext).
  rewrite omap_id_map in Hsize, Hcat, Hext.
  assert (omap (analyze_file self fs) (as_completed files)
          ≡ₚ analysis_results self fs files) as Hperm.
  { unfold analysis_results. by rewrite as_completed_perm. }
  assert (0 < length files) as Hpos by (destruct files; [done | simpl; lia]).
  unfold average_file_size. simpl.
  rewrite Hn, Hsize. unfold sum_sizes. rewrite Hperm. fold (sum_sizes (analysis_results self fs files)).
  rewrite Hsum. split_and!; [done..| | |].
  - intros c. rewrite Hcat. apply category_entry_perm. unfold in_category.
    by rewrite Hperm.
  - intros e. rewrite Hext. apply extension_entry_perm. unfold with_extension.
    by rewrite Hperm.
  - by rewrite (proj2 (Nat.ltb_lt _ _) Hpos).
Qed.

Lemma analysis_totals_witness :
  exists st,
    analyze_directory_threaded (timestamps := name_length_timestamps)
      (sched := lifo_scheduler) init sample_fs [] = Analysis st /\
    stats_total_files st = 11 /\ stats_total_size st = 17 /\
    stats_categories st !! "Images" = Some (2, 6) /\
    stats_categories st !! "Documents" = Some (4, 4) /\
    stats_categories st !! "Others" = Some (5, 7) /\
    stats_categories st !! "Videos" = None /\
    stats_extensions st !! "" = Some 1 /\
    average_file_size st = 1.
Proof.
  destruct (analyze_directory_threaded (timestamps := name_length_timestamps)
              (sched := lifo_scheduler) init sample_fs []) as [| |st] eqn:Hrun;
    [vm_compute in Hrun; discriminate..|].
  exists st. split; [reflexivity|].
  destruct (analysis_totals (timestamps := name_length_timestamps)
              (sched := lifo_scheduler) init sample_fs [] st Hrun)
    as (Hn & _ & _ & Hsize & Hcat & Hext & Havg).
  rewrite Hn, Hsize, !Hcat, Hext, Havg. vm_compute. by split_and!.
Defined.

(** X13.  The list of largest files.  It is the scanned files with their
    sizes, put in the order of decreasing size and cut after ten: it is
    ordered, holds [min 10 n] of the [n] scanned files, and no scanned file
    that was left out is larger than one that is listed. *)
Theorem analysis_largest_files `{timestamps : Timestamps} `{sched : Scheduler}
    self fs path st :
  analyze_directory_threaded self fs path = Analysis st ->
  sorted_by_size (stats_largest_files st) /\
  length (stats_largest_files st)
  = 10 `min` length (all_files (scan_files_threaded fs path)) /\
  exists left_out,
    stats_largest_files st ++ left_out
    ≡ₚ map (fun f => (f, match Fs.st_size fs f with Ok n => n | Raise _ => 0 end))
           (all_files (scan_files_threaded fs path)) /\
    forall x y, x ∈ stats_largest_files st -> y ∈ left_out -> y.2 <= x.2.
Proof.
  intros [Hne ->]%analyze_directory_threaded_Analysis.
  set (files := all_files (scan_files_threaded fs path)) in *.
  pose proof (scanned_files_are_files fs path) as Hfiles. fold files in Hfiles.
  destruct (analysis_results_files self fs files Hfiles) as (_ & Hpairs & _ & _).
  unfold collect_stats.
  destruct (fold_update_stats files
              (map (analyze_file self fs) (as_completed files)))
    as (_ & _ & Hlargest & _ & _).
  rewrite omap_id_map in Hlargest. cbn zeta. cbn [stats_largest_files].
  rewrite Hlargest.
  set (pairs := map (fun r => (info_path r, info_size r))
                    (omap (analyze_file self fs) (as_completed files))).
  assert (pairs ≡ₚ map (fun f => (f, match Fs.st_size fs f with
                                      | Ok n => n | Raise _ => 0 end)) files)
    as Hperm.
  { rewrite <- Hpairs. unfold pairs, analysis_results.
    by rewrite as_completed_perm. }
  pose proof (sort_by_size_sorted pairs) as Hsorted.
  rewrite <- (take_drop 10 (sort_by_size pairs)) in Hsorted.
  apply sorted_by_size_app in Hsorted as [Hsorted Hle].
  split_and!; [done| |].
  - rewrite length_take, (Permutation_length (sort_by_size_perm pairs)).
    by rewrite (Permutation_length Hperm), length_map.
  - exists (drop 10 (sort_by_size pairs)). split; [|done].
    by rewrite take_drop, sort_by_size_perm.
Qed.

Lemma analysis_largest_files_witness :
  exists st,
    analyze_directory_threaded (timestamps := name_length_timestamps)
      (sched := lifo_scheduler) init sample_fs [] = Analysis st /\
    length (stats_largest_files st) = 10 /\
    head (stats_largest_files st) = Some (["b.jpg"], 3) /\
    sorted_by_size (stats_largest_files st).
Proof.
  destruct (analyze_directory_threaded (timestamps := name_length_timestamps)
              (sched := lifo_scheduler) init sample_fs []) as [| |st] eqn:Hrun;
    [vm_compute in Hrun; discriminate..|].
  exists st. split; [reflexivity|].
  destruct (analysis_largest_files (timestamps := name_length_timestamps)
              (sched := lifo_scheduler) init sample_fs [] st Hrun)
    as (Hsorted & Hlen & _).
  split_and!; [|vm_compute in Hrun; by injection Hrun as <-|done].
  rewrite Hlen. by vm_compute.
Defined.

(** X14.  The oldest and the newest file.  When the statistics are
    displayed both are set; each names a scanned file with its own
    modification time; no scanned file is older than the oldest or newer
    than the newest. *)
Theorem analysis_oldest_newest `{timestamps : Timestamps} `{sched : Scheduler}
    self fs path st :
  analyze_directory_threaded self fs path = Analysis st ->
  exists oldest newest,
    stats_oldest_file st = Some (oldest, st_mtime oldest) /\
    stats_newest_file st = Some (newest, st_mtime newest) /\
    oldest ∈ all_files (scan_files_threaded fs path) /\
    newest ∈ all_files (scan_files_threaded fs path) /\
    forall f, f ∈ all_files (scan_files_threaded fs path) ->
              (st_mtime oldest <= st_mtime f <= st_mtime newest)%N.
Proof.
  intros [Hne ->]%analyze_directory_threaded_Analysis.
  set (files := all_files (scan_files_threaded fs path)) in *.
  pose proof (scanned_files_are_files fs path) as Hfiles. fold files in Hfiles.
  unfold collect_stats. cbn zeta. cbn [stats_oldest_file stats_newest_file].
  pose proof (fold_update_stats_times files
                (map (analyze_file self fs) (as_completed files))) as Htimes.
  cbn zeta in Htimes. rewrite omap_id_map in Htimes.
  assert (forall r, r ∈ omap (analyze_file self fs) (as_completed files) ->
            info_path r ∈ files /\ info_modified_time r = st_mtime (info_path r))
    as Hres.
  { intros r (f & Hf & Hr)%list_elem_of_omap.
    apply (proj1 (elem_of_as_completed _ _)) in Hf. unfold analyze_file in Hr.
    destruct (Fs.st_size fs f); [|done]. by injection Hr as <-. }
  assert (forall f, f ∈ files ->
            exists r, r ∈ omap (analyze_file self fs) (as_completed files) /\
                      info_path r = f) as Hall.
  { intros f Hf. rewrite Forall_forall in Hfiles.
    destruct (analyze_file_is_file self fs f (Hfiles f Hf)) as (r & Hr & Hp & _).
    exists r. split; [|done]. apply list_elem_of_omap. exists f.
    split; [by apply elem_of_as_completed | done]. }
  destruct files as [|f0 files'] eqn:Hfs; [done|]. rewrite <- Hfs in *.
  assert (f0 ∈ files) as Hf0 by (rewrite Hfs; apply elem_of_cons; by left).
  destruct (Hall f0 Hf0) as (r0 & Hr0 & _).
  destruct Htimes as [Hold Hnew].
  destruct (stats_oldest_file _) as [[po t_o]|];
    [|rewrite Hold in Hr0; by apply elem_of_nil in Hr0].
  destruct (stats_newest_file _) as [[pn t_n]|];
    [|rewrite Hnew in Hr0; by apply elem_of_nil in Hr0].
  destruct Hold as [(ro & Hro & <- & <-) Hmin].
  destruct Hnew as [(rn & Hrn & <- & <-) Hmax].
  destruct (Hres ro Hro) as [Hpo Hto]. destruct (Hres rn Hrn) as [Hpn Htn].
  exists (info_path ro), (info_path rn). rewrite <- Hto, <- Htn.
  split_and!; [done..|]. intros f Hf.
  destruct (Hall f Hf) as (r & Hr & <-).
  destruct (Hres r Hr) as [_ <-]. split; [by apply Hmin | by apply Hmax].
Qed.

Lemma analysis_oldest_newest_witness :
  exists st,
    analyze_directory_threaded (timestamps := name_length_timestamps)
      (sched := lifo_scheduler) init inbox_fs [] = Analysis st /\
    stats_oldest_file st = Some (["a.jpg"], 5%N) /\
    stats_newest_file st = Some (["README"], 6%N).
Proof.
  destruct (analyze_directory_threaded (timestamps := name_length_timestamps)
              (sched := lifo_scheduler) init inbox_fs []) as [| |st] eqn:Hrun;
    [vm_compute in Hrun; discriminate..|].
  exists st. split; [reflexivity|].
  destruct (analysis_oldest_newest (timestamps := name_length_timestamps)
              (sched := lifo_scheduler) init inbox_fs [] st Hrun)
    as (oldest & newest & Hold & Hnew & _).
  vm_compute in Hrun. injection Hrun as <-. split; reflexivity.
Defined.

(** X15.  The analysis and the organizer read the category table in the
    same way: the category that [analyze_file] reports is the first
    category that lists the lower-cased suffix, the one that
    [organize_file] moves the file to, and [Others] when there is none.
    They part for a file without a suffix: with a table whose extensions
    start with a dot, [organize_file] skips it and leaves it in place,
    while the analysis counts it under [Others]. *)
Theorem analysis_category_agrees_with_organizer `{timestamps : Timestamps}
    self path fs file_path :
  (forall r, analyze_file self fs file_path = Some r ->
     info_extension r = PyStr.lower (PurePath.suffix file_path) /\
     info_category r
     = default "Others" (classify (file_categories self) (info_extension r))) /\
  (dotted self = true -> Fs.is_file fs file_path = true ->
   PurePath.suffix file_path = "" ->
   (forall fuel, organize_file fuel self path fs file_path = Some (fs, Ok Skipped)) /\
   exists r, analyze_file self fs file_path = Some r /\
             info_category r = "Others" /\ info_extension r = "").
Proof.
  split.
  - intros r. unfold analyze_file.
    destruct (Fs.st_size fs file_path); [|done]. intros [= <-]. simpl.
    split; [done | apply find_category_classify].
  - intros Hdot Hfile Hsuffix. split.
    + intros fuel. unfold organize_file. rewrite Hsuffix. simpl.
      by rewrite organize_loop_not_found by by apply classify_empty_dotted.
    + destruct (analyze_file_is_file self fs file_path Hfile) as (r & Hr & _).
      exists r. split; [done|]. unfold analyze_file in Hr.
      destruct (Fs.st_size fs file_path); [|done]. injection Hr as <-. simpl.
      rewrite Hsuffix. simpl. split; [|done].
      rewrite find_category_classify. by rewrite classify_empty_dotted.
Qed.

Lemma analysis_category_agrees_with_organizer_witness :
  organize_file 3 init [] inbox_fs ["README"] = Some (inbox_fs, Ok Skipped) /\
  exists r,
    analyze_file (timestamps := name_length_timestamps) init inbox_fs ["README"]
    = Some r /\
    info_category r = "Others" /\ info_extension r = "".
Proof.
  destruct (analysis_category_agrees_with_organizer
              (timestamps := name_length_timestamps) init [] inbox_fs ["README"])
    as [_ Hskip].
  destruct (Hskip eq_refl eq_refl eq_refl) as [Horg Hana].
  split; [apply Horg | exact Hana].
Defined.

(* ================================================================== *)
(** * The duplicate finder as a whole *)
(* ================================================================== *)

Lemma hashed_file_stat `{hashlib : Hashlib} fs p h :
  (get_file_hash fs p).2 = Some h ->
  exists c, Fs.stat fs p = Some (IFile c true) /\ h = Md5.hexdigest c.
Proof.
  intros (c & Hread & ->)%get_file_hash_Some. exists c. split; [|done].
  unfold Fs.read_bytes in Hread. apply stat_file_lookup.
  destruct (Fs.lookup fs p) as [[c' []|]|]; try done. by injection Hread as ->.
Qed.

(** The report loop returns when the first member of every set can be
    [stat]ed; the size it accumulates is that of the first member times the
    number of the others, set by set. *)
Lemma report_sets_Ok fs :
  forall groups i duplicate_size,
    Forall (fun hf => exists keep dupes, hf.2 = keep :: dupes /\
                                         Fs.is_file fs keep = true) groups ->
    exists lines,
      report_sets fs i groups duplicate_size
      = Ok (duplicate_size
            + sum_list_with
                (fun hf => match hf.2 with
                           | [] => 0
                           | keep :: dupes =>
                               match Fs.st_size fs keep with
                               | Ok n => n * length dupes
                               | Raise _ => 0
                               end
                           end) groups,
            lines).
Proof.
  induction groups as [|[h files] groups IH]; intros i acc Hall; simpl.
  - exists []. by rewrite Nat.add_0_r.
  - apply Forall_cons in Hall as [(keep & dupes & Hfiles & Hkeep) Hall].
    simpl in Hfiles. subst files.
    destruct (st_size_is_file _ _ Hkeep) as [n Hn]. rewrite Hn.
    destruct (IH (S i) (acc + n * (length (keep :: dupes) - 1)) Hall)
      as [lines ->].
    eexists. f_equal. f_equal. simpl. rewrite Nat.sub_0_r. lia.
Qed.

Lemma duplicate_groups_heads `{hashlib : Hashlib} `{sched : Scheduler} fs
    all_files :
  Forall (fun hf => exists keep dupes, hf.2 = keep :: dupes /\
                                       Fs.is_file fs keep = true)
         (duplicate_groups fs all_files).
Proof.
  apply Forall_forall. intros [h files] [Hlen Hfiles]%elem_of_duplicate_groups.
  destruct files as [|keep dupes]; [simpl in Hlen; lia|].
  exists keep, dupes. split; [done|].
  assert (keep ∈ with_hash h (map (get_file_hash fs) (as_completed all_files)))
    as Hin by (rewrite <- Hfiles; apply elem_of_cons; by left).
  apply elem_of_with_hash in Hin as [_ Hh].
  destruct (hashed_file_stat _ _ _ Hh) as (c & Hst & _).
  apply stat_file_lookup in Hst. unfold Fs.is_file. by rewrite Hst.
Qed.

(** What a call of [find_duplicates_threaded] comes to. *)
Lemma find_duplicates_threaded_cases `{hashlib : Hashlib} `{sched : Scheduler}
    rich fs path auto_remove answer :
  exists run,
    find_duplicates_threaded rich fs path auto_remove answer = Ok run /\
    ((dup_groups run = [] /\ dup_fs run = fs /\ dup_removed run = 0) \/
     (dup_groups run = duplicate_groups fs (all_files (scan_files_threaded fs path)) /\
      dup_groups run <> [] /\
      ((auto_remove && answer = false /\ dup_fs run = fs /\ dup_removed run = 0) \/
       (auto_remove && answer = true /\
        exists failures,
          remove_duplicates fs (dup_groups run) 0
          = (dup_fs run, dup_removed run, failures))))).
Proof.
  unfold find_duplicates_threaded.
  destruct (Fs.exists_ fs path); simpl; [|eexists; split; [done|by left]].
  case_bool_decide as Hnil; [eexists; split; [done|by left]|].
  fold (duplicate_groups fs (all_files (scan_files_threaded fs path))).
  case_bool_decide as Hgroups; [eexists; split; [done|by left]|].
  destruct (report_sets_Ok fs _ 1 0
              (duplicate_groups_heads fs (all_files (scan_files_threaded fs path))))
    as [lines ->].
  destruct auto_remove; [destruct answer|].
  - destruct (remove_duplicates fs _ 0) as [[fs' removed] failures] eqn:Hrm.
    eexists. split; [done|]. right. simpl. split_and!; [done..|].
    right. split; [done|]. by exists failures.
  - eexists. split; [done|]. right. simpl. split_and!; [done..|]. by left.
  - eexists. split; [done|]. right. simpl. split_and!; [done..|]. by left.
Qed.

Lemma unlink_file_step fs p fs' :
  Fs.unlink fs p = Ok fs' ->
  p <> [] /\ fs' = Fs.take p fs /\ exists c r, Fs.lookup fs p = Some (File c r).
Proof.
  intros (-> & Hpc & c & r & Hl)%unlink_Ok.
  apply parent_check_Ok in Hpc as [Hne _]. eauto.
Qed.

(** The removal loop of one set: a path is as it was, or it is one of the
    files of the list and gone; on a well-formed tree every removal that is
    counted takes one regular file out of the tree. *)
Lemma remove_files_frame :
  forall files fs removed fs' removed' lines,
    remove_files fs files removed = (fs', removed', lines) ->
    (forall q, Fs.stat fs' q = Fs.stat fs q \/
               (q ∈ files /\ Fs.stat fs' q = None)) /\
    (Fs.wf fs = true ->
     Fs.wf fs' = true /\
     length (contents fs') + removed' = length (contents fs) + removed /\
     contents fs' ⊆+ contents fs).
Proof.
  induction files as [|p files IH]; intros fs removed fs' removed' lines; simpl.
  - intros [= <- <- <-]. split; [by left | intros Hwf; by split_and!].
  - destruct (Fs.unlink fs p) as [fs1|e] eqn:Hun.
    + intros Hrest. destruct (IH _ _ _ _ _ Hrest) as [Hframe Hacc].
      destruct (unlink_file_step _ _ _ Hun) as (Hne & -> & c & r & Hl).
      split.
      * intros q. destruct (Hframe q) as [Hq|[Hin Hq]].
        -- destruct (stat_take_cases p fs q c r Hne Hl) as [[_ Heq]|[-> Heq]].
           ++ left. by rewrite Hq.
           ++ right. split; [apply elem_of_cons; by left | by rewrite Hq].
        -- right. split; [apply elem_of_cons; by right | done].
      * intros Hwf. destruct (Hacc (wf_take p fs Hwf)) as (Hwf' & Hn & Hsub).
        pose proof (contents_take _ _ _ Hwf Hne Hl) as Hc. simpl in Hc.
        assert (length (contents fs) = S (length (contents (Fs.take p fs))))
          as Hlen by (by rewrite Hc).
        split_and!; [done|lia|].
        etrans; [exact Hsub|]. rewrite Hc. by apply submseteq_cons.
    + destruct (remove_files fs files removed) as [[fs2 removed2] lines2] eqn:Hrest.
      intros [= <- <- <-]. destruct (IH _ _ _ _ _ Hrest) as [Hframe Hacc].
      split; [|done].
      intros q. destruct (Hframe q) as [Hq|[Hin Hq]]; [by left|].
      right. split; [apply elem_of_cons; by right | done].
Qed.

Lemma remove_duplicates_frame :
  forall groups fs removed fs' removed' lines,
    remove_duplicates fs groups removed = (fs', removed', lines) ->
    (forall q, Fs.stat fs' q = Fs.stat fs q \/
               (Fs.stat fs' q = None /\
                exists h files, (h, files) ∈ groups /\ q ∈ tail files)) /\
    (Fs.wf fs = true ->
     Fs.wf fs' = true /\
     length (contents fs') + removed' = length (contents fs) + removed /\
     contents fs' ⊆+ contents fs).
Proof.
  induction groups as [|[h files] groups IH]; intros fs removed fs' removed' lines;
    simpl.
  - intros [= <- <- <-]. split; [by left | intros Hwf; by split_and!].
  - destruct (remove_files fs (tail files) removed) as [[fs1 removed1] lines1] eqn:H1.
    destruct (remove_duplicates fs1 groups removed1) as [[fs2 removed2] lines2] eqn:H2.
    intros [= <- <- <-].
    destruct (remove_files_frame _ _ _ _ _ _ H1) as [Hframe1 Hacc1].
    destruct (IH _ _ _ _ _ H2) as [Hframe2 Hacc2]. split.
    + intros q. destruct (Hframe2 q) as [Hq2|[Hq2 (h' & files' & Hin & Hq)]].
      * destruct (Hframe1 q) as [Hq1|[Hin Hq1]].
        -- left. by rewrite Hq2.
        -- right. split; [by rewrite Hq2|]. exists h, files.
           split; [apply elem_of_cons; by left | done].
      * right. split; [done|]. exists h', files'.
        split; [apply elem_of_cons; by right | done].
    + intros Hwf. destruct (Hacc1 Hwf) as (Hwf1 & Hn1 & Hsub1).
      destruct (Hacc2 Hwf1) as (Hwf2 & Hn2 & Hsub2).
      split_and!; [done|lia|by etrans].
Qed.

Lemma with_hash_NoDup `{hashlib : Hashlib} fs h (l : list Path) :
  NoDup l -> NoDup (with_hash h (map (get_file_hash fs) l)).
Proof.
  induction 1 as [|p l Hp Hnd IH]; [constructor|].
  unfold with_hash in *. cbn [map].
  destruct (decide ((get_file_hash fs p).2 = Some h)) as [Hh|Hh].
  - rewrite filter_cons_True by done. cbn [map]. rewrite get_file_hash_fst.
    apply NoDup_cons. split; [|done]. intros Hin. apply Hp.
    by apply (elem_of_with_hash fs h l p) in Hin as [? _].
  - by rewrite filter_cons_False by done.
Qed.

Lemma scanned_files_NoDup `{sched : Scheduler} fs path :
  Fs.wf fs = true -> NoDup (all_files (scan_files_threaded fs path)).
Proof.
  intros Hwf. destruct (Fs.exists_ fs path) eqn:He.
  - rewrite (scan_files_threaded_exists _ _ He). simpl.
    unfold Fs.exists_ in He. destruct (Fs.lookup fs path) as [n|] eqn:Hn; [|done].
    rewrite (scan_all_files_walk _ _ _ Hwf Hn).
    apply walk_files_NoDup. by eapply lookup_wf.
  - rewrite scan_missing_path by done. constructor.
Qed.


Lemma elem_of_tail {A} (x : A) (l : list A) : x ∈ tail l -> x ∈ l.
Proof. destruct l; [done|]. intros Hx. apply elem_of_cons. by right. Qed.

(** X17.  Without symbolic links, duplicate removal keeps a copy of every
    set.  A tree [node] has no links, so that different paths name
    different files; on such a tree, with each name listed once in its
    directory: the first member of every reported set is still
    there after the call, with its bytes, whether or not removal ran; a
    path is as it was or it is a later member of a set and gone; the count
    of removed files is the number of regular files by which the tree has
    shrunk, and every byte string left was there before.  (Where a link
    makes the scan list one file under two paths, removing the second path
    removes the file itself; this is outside the statement.) *)
Theorem duplicate_removal_keeps_first `{hashlib : Hashlib} `{sched : Scheduler}
    rich fs path auto_remove answer run :
  Fs.wf fs = true ->
  find_duplicates_threaded rich fs path auto_remove answer = Ok run ->
  (forall h files,
     (h, files) ∈ dup_groups run ->
     exists keep dupes c,
       files = keep :: dupes /\ dupes <> [] /\
       Fs.stat fs keep = Some (IFile c true) /\ Md5.hexdigest c = h /\
       Fs.stat (dup_fs run) keep = Some (IFile c true)) /\
  (forall q, Fs.stat (dup_fs run) q = Fs.stat fs q \/
             (Fs.stat (dup_fs run) q = None /\
              exists h files, (h, files) ∈ dup_groups run /\ q ∈ tail files)) /\
  Fs.wf (dup_fs run) = true /\
  length (contents (dup_fs run)) + dup_removed run = length (contents fs) /\
  contents (dup_fs run) ⊆+ contents fs.
Proof.
  intros Hwf Hrun.
  destruct (find_duplicates_threaded_cases rich fs path auto_remove answer)
    as (run' & Hrun' & Hcases).
  rewrite Hrun in Hrun'. injection Hrun' as <-.
  assert ((forall q, Fs.stat (dup_fs run) q = Fs.stat fs q \/
             (Fs.stat (dup_fs run) q = None /\
              exists h files, (h, files) ∈ dup_groups run /\ q ∈ tail files)) /\
          Fs.wf (dup_fs run) = true /\
          length (contents (dup_fs run)) + dup_removed run = length (contents fs) /\
          contents (dup_fs run) ⊆+ contents fs) as (Hframe & Hwf' & Hcount & Hsub).
  { destruct Hcases as [(_ & -> & ->)|(_ & _ & [(_ & -> & ->)|(_ & failures & Hrm)])].
    - split_and!; [by left|done|lia|done].
    - split_and!; [by left|done|lia|done].
    - destruct (remove_duplicates_frame _ _ _ _ _ _ Hrm) as [Hframe Hacc].
      destruct (Hacc Hwf) as (? & ? & ?). split_and!; [done|done|lia|done]. }
  split_and!; [|done..].
  intros h files Hin.
  assert (dup_groups run
          = duplicate_groups fs (all_files (scan_files_threaded fs path))) as Hgroups.
  { destruct Hcases as [(Hnil & _)|(? & _)]; [|done].
    rewrite Hnil in Hin. by apply elem_of_nil in Hin. }
  assert (forall h' files', (h', files') ∈ dup_groups run ->
            2 <= length files' /\ NoDup files' /\
            forall f, f ∈ files' -> (get_file_hash fs f).2 = Some h') as Hspec.
  { intros h' files' Hin'. rewrite Hgroups in Hin'.
    apply elem_of_duplicate_groups in Hin' as [Hlen ->]. split_and!; [done| |].
    - apply with_hash_NoDup. rewrite as_completed_perm.
      by apply scanned_files_NoDup.
    - by intros f [_ ?]%elem_of_with_hash. }
  destruct (Hspec h files Hin) as (Hlen & Hnd & Hdigest).
  destruct files as [|keep dupes]; [simpl in Hlen; lia|].
  destruct (hashed_file_stat fs keep h) as (c & Hst & ->).
  { apply Hdigest, elem_of_cons. by left. }
  exists keep, dupes, c. split_and!; [done| |done|done|].
  { destruct dupes; [simpl in Hlen; lia | done]. }
  destruct (Hframe keep) as [->|[_ (h' & files' & Hin' & Hkeep)]]; [done|].
  exfalso. destruct (Hspec h' files' Hin') as (_ & _ & Hdigest').
  pose proof (Hdigest' keep (elem_of_tail _ _ Hkeep)) as Hh'.
  pose proof (Hdigest keep ltac:(apply elem_of_cons; by left)) as Hh.
  rewrite Hh in Hh'. injection Hh' as <-.
  assert (files' = keep :: dupes) as ->.
  { rewrite Hgroups in Hin, Hin'.
    apply elem_of_duplicate_groups in Hin as [_ ->].
    by apply elem_of_duplicate_groups in Hin' as [_ ->]. }
  simpl in Hkeep. by apply NoDup_cons in Hnd as [? _].
Qed.

Lemma duplicate_removal_keeps_first_witness :
  exists run,
    find_duplicates_threaded (hashlib := hashlib_md5) (sched := fifo_scheduler)
      true sample_fs [] true true = Ok run /\
    dup_removed run = 1 /\
    Fs.stat (dup_fs run) ["a.jpg"] = Some (IFile [x01; x02; x03] true) /\
    Fs.stat (dup_fs run) ["b.jpg"] = None /\
    length (contents (dup_fs run)) + dup_removed run = length (contents sample_fs).
Proof.
  destruct (find_duplicates_threaded (hashlib := hashlib_md5)
              (sched := fifo_scheduler) true sample_fs [] true true)
    as [run|e] eqn:Hrun; [|vm_compute in Hrun; discriminate].
  exists run. split; [reflexivity|].
  destruct (duplicate_removal_keeps_first (hashlib := hashlib_md5)
              (sched := fifo_scheduler) true sample_fs [] true true run
              eq_refl Hrun) as (_ & _ & _ & Hcount & _).
  split_and!; [| | |exact Hcount];
    vm_compute in Hrun; by injection Hrun as <-.
Defined.

(* ================================================================== *)
(** * The settings menu *)
(* ================================================================== *)

Lemma parse_extensions_dotted answer :
  forallb (fun ext => PyStr.startswith ext ".") (parse_extensions answer) = true.
Proof.
  apply forallb_forall. intros ext Hin. apply list_elem_of_In in Hin.
  unfold parse_extensions in Hin.
  apply list_elem_of_fmap in Hin as (raw & -> & Hraw).
  apply list_elem_of_filter in Hraw as [Hdot _]. by apply Is_true_eq_true.
Qed.

Lemma dotted_dict_set key value items :
  forallb (fun ext => PyStr.startswith ext ".") value = true ->
  forallb (fun item : string * list string =>
             forallb (fun ext => PyStr.startswith ext ".") item.2) items = true ->
  forallb (fun item : string * list string =>
             forallb (fun ext => PyStr.startswith ext ".") item.2)
          (dict_set key value items) = true.
Proof.
  intros Hvalue. induction items as [|[k v] items IH]; cbn [dict_set forallb snd].
  - intros _. by rewrite Hvalue.
  - intros [Hv Hitems]%andb_true_iff.
    destruct (decide (key = k)); cbn [forallb snd].
    + by rewrite Hvalue, Hitems.
    + by rewrite Hv, IH.
Qed.

Lemma dotted_dict_append key x items :
  PyStr.startswith x "." = true ->
  forallb (fun item : string * list string =>
             forallb (fun ext => PyStr.startswith ext ".") item.2) items = true ->
  forallb (fun item : string * list string =>
             forallb (fun ext => PyStr.startswith ext ".") item.2)
          (dict_append key x items) = true.
Proof.
  intros Hx. induction items as [|[k v] items IH]; cbn [dict_append forallb snd];
    [done|].
  intros [Hv Hitems]%andb_true_iff.
  destruct (decide (key = k)); cbn [forallb snd].
  - rewrite forallb_app, Hv, Hitems. cbn [forallb]. by rewrite Hx.
  - by rewrite Hv, IH.
Qed.

(** X18.  The settings menu keeps the table dotted: whatever the user
    answers, after [change_file_paths] every extension of every category
    starts with a dot when that was so before (as in the built-in table),
    because both ways of entering extensions test for the dot; the list of
    temporary extensions is never changed; without the rich rendering the
    menu changes nothing. *)
Theorem change_file_paths_keeps_dotted self rich action self' :
  dotted self = true ->
  change_file_paths self rich action = Some self' ->
  dotted self' = true /\
  temp_extensions self' = temp_extensions self /\
  (rich = false -> self' = self).
Proof.
  intros Hdot. unfold change_file_paths, dotted in *.
  destruct rich; [|by intros [= <-]].
  destruct action as [name answer|category answer|category extension|].
  - intros [= <-]. simpl. split_and!; [|done..].
    apply dotted_dict_set; [apply parse_extensions_dotted | done].
  - destruct (PyStr.mem category _); [|done]. intros [= <-]. simpl.
    split_and!; [|done..].
    apply dotted_dict_set; [apply parse_extensions_dotted | done].
  - destruct (PyStr.mem category _); [|done].
    destruct (PyStr.startswith extension ".") eqn:Hx; intros [= <-]; simpl;
      [|done].
    split_and!; [|done..]. by apply dotted_dict_append.
  - by intros [= <-].
Qed.

Lemma change_file_paths_keeps_dotted_witness :
  exists self',
    change_file_paths init true (AddCategory "Books" " .epub, mobi ,.AZW3,,. x ")
    = Some self' /\
    dotted self' = true /\
    classify (file_categories self') ".epub" = Some "Ebooks" /\
    classify (file_categories self') ".AZW3" = Some "Books" /\
    classify (file_categories self') "mobi" = None.
Proof.
  destruct (change_file_paths init true
              (AddCategory "Books" " .epub, mobi ,.AZW3,,. x ")) as [self'|] eqn:Hrun;
    [|vm_compute in Hrun; discriminate].
  exists self'. split; [reflexivity|].
  destruct (change_file_paths_keeps_dotted init true _ self' eq_refl Hrun)
    as (Hdot & _).
  split; [exact Hdot|]. vm_compute in Hrun. injection Hrun as <-.
  split_and!; reflexivity.
Defined.

Lemma lower_char_idemp c : PyStr.lower_char (PyStr.lower_char c) = PyStr.lower_char c.
Proof. destruct c as [[] [] [] [] [] [] [] []]; reflexivity. Qed.

Lemma lower_idemp s : PyStr.lower (PyStr.lower s) = PyStr.lower s.
Proof.
  induction s as [|c s IH]; simpl; [done|]. by rewrite lower_char_idemp, IH.
Qed.

Lemma mem_app_other e x v : e <> x -> PyStr.mem e (v ++ [x]) = PyStr.mem e v.
Proof.
  intros Hne. unfold PyStr.mem. apply bool_decide_ext.
  rewrite elem_of_app, list_elem_of_singleton. tauto.
Qed.

Lemma organize_loop_dict_append fuel path fs file_path e category x :
  e <> x ->
  forall items,
    organize_loop fuel path fs file_path e (dict_append category x items)
    = organize_loop fuel path fs file_path e items.
Proof.
  intros Hne. induction items as [|[k v] items IH]; [done|].
  cbn [dict_append]. destruct (decide (category = k)) as [->|Hk].
  - cbn [organize_loop]. by rewrite mem_app_other.
  - cbn [organize_loop]. by rewrite IH.
Qed.

Lemma classify_dict_append e category x :
  e <> x ->
  forall items, classify (dict_append category x items) e = classify items e.
Proof.
  intros Hne. induction items as [|[k v] items IH]; [done|].
  cbn [dict_append]. destruct (decide (category = k)) as [->|Hk].
  - cbn [classify]. by rewrite mem_app_other.
  - cbn [classify]. by rewrite IH.
Qed.

(** X19.  An extension that is entered with an upper-case letter is dead.
    [add_extension] appends the answer as it is, while the organizer and
    the analysis look up the lower-cased suffix; so after adding an
    extension that is not its own lower-case form, every file is organised
    and classified exactly as before, also a file that carries that very
    suffix. *)
Theorem added_extension_with_upper_case_is_dead self category extension self' :
  PyStr.lower extension <> extension ->
  change_file_paths self true (AddExtension category extension) = Some self' ->
  (forall fuel path fs file_path,
     organize_file fuel self' path fs file_path
     = organize_file fuel self path fs file_path) /\
  (forall suffix,
     classify (file_categories self') (PyStr.lower suffix)
     = classify (file_categories self) (PyStr.lower suffix)).
Proof.
  intros Hupper. unfold change_file_paths.
  destruct (PyStr.mem category _); [|done].
  assert (forall s, PyStr.lower s <> extension) as Hne.
  { intros s Hs. apply Hupper. by rewrite <- Hs, lower_idemp. }
  destruct (PyStr.startswith extension "."); intros [= <-]; [|done]. split.
  - intros fuel path fs file_path. unfold organize_file. simpl.
    by apply organize_loop_dict_append.
  - intros suffix. simpl. by apply classify_dict_append.
Qed.

Lemma added_extension_with_upper_case_is_dead_witness :
  exists self',
    change_file_paths init true (AddExtension "Images" ".RAW") = Some self' /\
    head (file_categories self')
    = Some ("Images", [".jpg"; ".jpeg"; ".png"; ".gif"; ".bmp"; ".webp"; ".heic";
                       ".svg"; ".tiff"; ".ico"; ".RAW"]) /\
    classify (file_categories self') (PyStr.lower (PurePath.suffix ["shot.RAW"]))
    = None.
Proof.
  destruct (change_file_paths init true (AddExtension "Images" ".RAW"))
    as [self'|] eqn:Hrun; [|vm_compute in Hrun; discriminate].
  exists self'. split; [reflexivity|].
  destruct (added_extension_with_upper_case_is_dead init "Images" ".RAW" self'
              ltac:(by vm_compute) Hrun) as [_ Hclassify].
  split; [vm_compute in Hrun; by injection Hrun as <-|].
  rewrite Hclassify. reflexivity.
Defined.






(* ================================================================== *)
(** * Files whose hashing fails *)
(* ================================================================== *)

Lemma find_duplicates_threaded_report `{hashlib : Hashlib} `{sched : Scheduler}
    rich fs path auto_remove answer :
  Fs.exists_ fs path = true ->
  all_files (scan_files_threaded fs path) <> [] ->
  find_duplicates_threaded rich fs path auto_remove answer
  = report_duplicates rich fs (length (all_files (scan_files_threaded fs path)))
      (map (get_file_hash fs) (as_completed (all_files (scan_files_threaded fs path))))
      auto_remove answer.
Proof.
  intros He Hne. unfold find_duplicates_threaded, report_duplicates, hash_files.
  rewrite He. simpl. by rewrite bool_decide_eq_false_2 by done.
Qed.









(* ================================================================== *)
(** * Which files the sweeper takes *)
(* ================================================================== *)

Lemma scan_temp_files_iff self fs items found total_size file_path :
  scan_temp_files self fs items [] 0 = Ok (found, total_size) ->
  file_path ∈ found <->
  file_path ∈ items /\ Fs.is_file fs file_path = true /\
  ((exists ext, ext ∈ temp_extensions self /\
                ends_with (PurePath.name file_path) ext) \/
   (exists pattern, pattern ∈ temp_patterns /\
                    occurs_in pattern (PyStr.lower (PurePath.name file_path)))).
Proof.
  rewrite scan_temp_files_spec. intros [= <- _]. simpl app.
  rewrite list_elem_of_filter.
  rewrite andb_True, !Is_true_true, is_temp_name_spec. tauto.
Qed.

(** C10. The scan loop of [clean_temp_files], run over any list of paths,
    collects a path exactly when it is a regular file of the list whose
    name ends with one of [.tmp .temp .bak .log ~ .swp .cache .crdownload
    .part] or whose lower-cased name contains one of [cache temp tmp
    backup].  In a call of [clean_temp_files] that returns, the list of
    candidates is this selection from what the traversal yields; a regular
    file that the traversal yields is a candidate when it is named [x.tmp]
    or [cache_data.bin], and a path named [report.pdf] never is; the
    deletion loop, when it runs, runs over exactly the candidates. *)
Theorem sweep_candidate_iff rich fs path confirm answer run file_path :
  clean_temp_files init rich fs path confirm answer = Ok run ->
  (forall items found total_size,
     scan_temp_files init fs items [] 0 = Ok (found, total_size) ->
     (file_path ∈ found <->
      file_path ∈ items /\ Fs.is_file fs file_path = true /\
      ((exists ext,
          ext ∈ [".tmp"; ".temp"; ".bak"; ".log"; "~"; ".swp"; ".cache";
                 ".crdownload"; ".part"] /\
          ends_with (PurePath.name file_path) ext) \/
       (exists pattern,
          pattern ∈ ["cache"; "temp"; "tmp"; "backup"] /\
          occurs_in pattern (PyStr.lower (PurePath.name file_path)))))) /\
  (file_path ∈ sweep_temp_files run <->
   file_path ∈ Fs.rglob fs path /\ Fs.is_file fs file_path = true /\
   ((exists ext,
       ext ∈ [".tmp"; ".temp"; ".bak"; ".log"; "~"; ".swp"; ".cache";
              ".crdownload"; ".part"] /\
       ends_with (PurePath.name file_path) ext) \/
    (exists pattern,
       pattern ∈ ["cache"; "temp"; "tmp"; "backup"] /\
       occurs_in pattern (PyStr.lower (PurePath.name file_path))))) /\
  (file_path ∈ Fs.rglob fs path -> Fs.is_file fs file_path = true ->
   PurePath.name file_path = "x.tmp" \/ PurePath.name file_path = "cache_data.bin" ->
   file_path ∈ sweep_temp_files run) /\
  (PurePath.name file_path = "report.pdf" -> file_path ∉ sweep_temp_files run) /\
  (confirm && negb answer = false ->
   delete_temp_files fs (sweep_temp_files run) 0 0
   = (sweep_fs run, sweep_deleted_count run, sweep_deleted_size run)).
Proof.
  intros Hrun.
  destruct (clean_temp_files_cases init rich fs path confirm answer)
    as (run' & Hrun' & Hfiles & _ & Hcases).
  rewrite Hrun in Hrun'. injection Hrun' as <-.
  rewrite Hfiles. split_and!.
  - intros items found total_size Hscan.
    by apply (scan_temp_files_iff init fs items found total_size).
  - apply (find_temp_files_iff init).
  - intros Hin Hfile Hname. apply (find_temp_files_iff init).
    split_and!; [done..|]. destruct Hname as [-> | ->].
    + left. exists ".tmp". split; [|by exists "x"].
      simpl. rewrite !elem_of_cons. auto.
    + right. exists "cache". split; [|by exists "", "_data.bin"].
      unfold temp_patterns. rewrite !elem_of_cons. auto.
  - intros Hname [Htemp _]%list_elem_of_filter.
    apply andb_True in Htemp as [_ Htemp]. by rewrite Hname in Htemp.
  - intros Hgo. destruct Hcases as [([Hstop|Hnil] & -> & -> & ->)|(_ & Hdel & _)].
    + congruence.
    + by rewrite Hnil.
    + done.
Qed.

Lemma sweep_candidate_iff_witness :
  exists run,
    clean_temp_files init true sample_fs [] true false = Ok run /\
    ["d.tmp"] ∈ sweep_temp_files run /\
    ["sub"; "cache_data.bin"] ∈ sweep_temp_files run /\
    ["c.pdf"] ∉ sweep_temp_files run.
Proof.
  destruct (clean_temp_files init true sample_fs [] true false)
    as [run|e] eqn:Hrun; [|vm_compute in Hrun; discriminate].
  exists run. split; [reflexivity|].
  assert (Fs.rglob sample_fs []
          = [["a.jpg"]; ["b.jpg"]; ["c.pdf"]; ["d.tmp"]; ["README"];
             ["notes.xyz"]; ["Others"]; ["Documents"]; ["sub"];
             ["Others"; "notes.xyz"]; ["Documents"; "c.pdf"];
             ["Documents"; "c_1.pdf"]; ["sub"; "e.txt"];
             ["sub"; "cache_data.bin"]; ["sub"; "locked"]]) as Hrglob
    by (vm_compute; reflexivity).
  destruct (sweep_candidate_iff true sample_fs [] true false run ["d.tmp"] Hrun)
    as (_ & Htmp & _).
  destruct (sweep_candidate_iff true sample_fs [] true false run
              ["sub"; "cache_data.bin"] Hrun) as (_ & Hcache & _).
  destruct (sweep_candidate_iff true sample_fs [] true false run ["c.pdf"] Hrun)
    as (_ & Hpdf & _).
  split_and!.
  - apply Htmp. split_and!.
    + rewrite Hrglob, !elem_of_cons. auto 10.
    + reflexivity.
    + left. exists ".tmp". split; [rewrite !elem_of_cons; auto | by exists "d"].
  - apply Hcache. split_and!.
    + rewrite Hrglob, !elem_of_cons. auto 20.
    + reflexivity.
    + right. exists "cache". split; [rewrite !elem_of_cons; auto|].
      by exists "", "_data.bin".
  - intros Hin. apply Hpdf in Hin as (_ & _ & Hname).
    assert (is_temp_name init (PurePath.name ["c.pdf"]) = true) as Hbool.
    { apply is_temp_name_spec. exact Hname. }
    vm_compute in Hbool. discriminate.
Defined.

(* ================================================================== *)
(** * The report of the duplicate finder *)
(* ================================================================== *)

(** X16.  Once the scan has handed over its list, the rest of
    [find_duplicates_threaded] always returns, whatever the list and the
    order of completion: the [stat] of the report loop, which is outside
    any [try], is applied to a member of a set, a file that has just been
    read, so it cannot raise.  Unless removal was asked for and confirmed,
    the tree is left as it is and nothing is counted as removed.  Every
    member of a reported set is a regular file of the list.  (The scan
    itself is outside any [try] in [find_duplicates_threaded]; where it
    raises, the call raises.) *)
Theorem report_duplicates_returns `{hashlib : Hashlib} rich fs total_files
    (completed : list Path) auto_remove answer :
  (exists run,
     report_duplicates rich fs total_files (map (get_file_hash fs) completed)
       auto_remove answer = Ok run /\
     (auto_remove && answer = false -> dup_fs run = fs /\ dup_removed run = 0) /\
     forall h files f,
       (h, files) ∈ dup_groups run -> f ∈ files ->
       f ∈ completed /\ Fs.is_file fs f = true) /\
  (forall (sched : Scheduler) path,
     Fs.exists_ fs path = true ->
     all_files (scan_files_threaded fs path) <> [] ->
     find_duplicates_threaded rich fs path auto_remove answer
     = report_duplicates rich fs
         (length (all_files (scan_files_threaded fs path)))
         (map (get_file_hash fs)
            (as_completed (all_files (scan_files_threaded fs path))))
         auto_remove answer).
Proof.
  split; [|intros sched path; apply find_duplicates_threaded_report].
  assert (forall h files f,
            (h, files) ∈ duplicate_groups (sched := fifo_scheduler) fs completed ->
            f ∈ files -> f ∈ completed /\ Fs.is_file fs f = true) as Hmembers.
  { intros h files f [_ ->]%elem_of_duplicate_groups Hf.
    apply elem_of_with_hash in Hf as [Hf Hh]. split; [done|].
    destruct (hashed_file_stat _ _ _ Hh) as (c & Hst & _).
    apply stat_file_lookup in Hst. unfold Fs.is_file. by rewrite Hst. }
  unfold report_duplicates.
  change (map_to_list (find_duplicates
            (fold_left record_hash (map (get_file_hash fs) completed) ∅)))
    with (duplicate_groups (sched := fifo_scheduler) fs completed) in *.
  case_bool_decide as Hnil.
  { eexists. split; [done|]. split; [done|].
    intros h files f Hin. by apply elem_of_nil in Hin. }
  destruct (report_sets_Ok fs _ 1 0
              (duplicate_groups_heads (sched := fifo_scheduler) fs completed))
    as [lines ->].
  destruct auto_remove; [destruct answer|].
  - destruct (remove_duplicates fs _ 0) as [[fs' removed] failures].
    eexists. split; [done|]. split; [done | exact Hmembers].
  - eexists. split; [done|]. split; [done | exact Hmembers].
  - eexists. split; [done|]. split; [done | exact Hmembers].
Qed.

(* ================================================================== *)
(** * Search permission and symbolic links: facts *)
(* ================================================================== *)

(** ** Trees without links are trees with links *)

Lemma embed_dir l w es :
  Posix.embed (Dir l w es)
  = Posix.PDir l w true (map (fun e => (e.1, Posix.embed e.2)) es).
Proof.
  simpl. f_equal. apply map_ext. by intros [x c].
Qed.

Lemma assoc_embed x es :
  Posix.assoc x (map (fun e => (e.1, Posix.embed e.2)) es)
  = Posix.embed <$> Fs.assoc x es.
Proof.
  induction es as [|[y c] es IH]; simpl; [done|]. by case_decide.
Qed.

(** A lookup in a tree without links never meets one, whatever the bound
    on links, and fails only for want of an entry. *)
Lemma resolve_embed links top p :
  forall n,
    Posix.resolve links top (Posix.embed n) p
    = match Fs.lookup n p with
      | Some c => Posix.Return (Posix.embed c)
      | None =>
          Posix.Fail (match Posix.resolve links top (Posix.embed n) p with
                      | Posix.Fail Posix.ENOTDIR => Posix.ENOTDIR
                      | _ => Posix.ENOENT
                      end)
      end.
Proof.
  induction p as [|x p IH]; intros n.
  - by destruct links.
  - destruct n as [c r|l w es].
    + by destruct links.
    + rewrite embed_dir.
      assert (Posix.resolve links top
                (Posix.PDir l w true (map (fun e => (e.1, Posix.embed e.2)) es))
                (x :: p)
              = match Fs.assoc x es with
                | Some c => Posix.resolve links top (Posix.embed c) p
                | None => Posix.Fail Posix.ENOENT
                end) as ->.
      { destruct links; simpl; rewrite assoc_embed;
          destruct (Fs.assoc x es) as [[c r|l' w' es']|]; done. }
      simpl. destruct (Fs.assoc x es) as [c|]; [apply IH | done].
Qed.

Lemma stat_embed fs p :
  match Fs.lookup fs p with
  | Some c => Posix.stat (Posix.embed fs) p = Posix.Return (Posix.embed c)
  | None => exists e, Posix.stat (Posix.embed fs) p = Posix.Fail e /\
                      Posix.ignore_error e = true
  end.
Proof.
  unfold Posix.stat. rewrite resolve_embed.
  destruct (Fs.lookup fs p); [done|].
  eexists. split; [done|].
  by destruct (Posix.resolve _ _ _ _) as [?|[]].
Qed.

Lemma is_dir_embed fs p :
  Posix.is_dir (Posix.embed fs) p = Posix.Return (Fs.is_dir fs p).
Proof.
  unfold Posix.is_dir, Fs.is_dir. pose proof (stat_embed fs p) as H.
  destruct (Fs.lookup fs p) as [[c r|l w es]|].
  - by rewrite H.
  - by rewrite H.
  - destruct H as (e & -> & ->). done.
Qed.

Lemma is_file_embed fs p :
  Posix.is_file (Posix.embed fs) p = Posix.Return (Fs.is_file fs p).
Proof.
  unfold Posix.is_file, Fs.is_file. pose proof (stat_embed fs p) as H.
  destruct (Fs.lookup fs p) as [[c r|l w es]|].
  - by rewrite H.
  - by rewrite H.
  - destruct H as (e & -> & ->). done.
Qed.

Lemma exists_embed fs p :
  Posix.exists_ (Posix.embed fs) p = Posix.Return (Fs.exists_ fs p).
Proof.
  unfold Posix.exists_, Fs.exists_. pose proof (stat_embed fs p) as H.
  destruct (Fs.lookup fs p) as [c|].
  - by rewrite H.
  - destruct H as (e & -> & ->). done.
Qed.

(** Listing is denied in the one exactly when it is in the other. *)
Lemma iterdir_embed fs d :
  match Fs.iterdir fs d with
  | Ok items => Posix.iterdir (Posix.embed fs) d = Posix.Return items
  | Raise PermissionError =>
      Posix.iterdir (Posix.embed fs) d = Posix.Fail Posix.EACCES
  | Raise _ =>
      exists e, Posix.iterdir (Posix.embed fs) d = Posix.Fail e /\
                e <> Posix.EACCES
  end.
Proof.
  unfold Posix.iterdir, Posix.scandir, Fs.iterdir.
  pose proof (stat_embed fs d) as H.
  destruct (Fs.lookup fs d) as [[c r|l w es]|].
  - rewrite H. simpl. by exists Posix.ENOTDIR.
  - rewrite H, embed_dir. destruct l; [|done].
    by rewrite map_map.
  - destruct H as (e & -> & He). exists e. split; [done|]. by intros ->.
Qed.

Lemma descend_total {B} (visit : string * Posix.pnode -> option (list Path))
    (g : B -> string * Posix.pnode) (yield : B -> list Path) es :
  Forall (fun e => visit (g e) = Some (yield e)) es ->
  Posix.descend visit (map g es) = flat_map yield es.
Proof.
  induction 1 as [|e es He _ IH]; simpl; [done|]. by rewrite He, IH.
Qed.

(** [rglob] on a tree without links yields what the traversal of the
    plain tree yields. *)
Lemma glob_below_embed fs n :
  forall p, Fs.wf n = true -> Fs.lookup fs p = Some n ->
  Posix.glob_below (Posix.embed fs) true p (Posix.embed n)
  = flat_map (fun d => match Fs.iterdir fs d with Ok ps => ps | Raise _ => [] end)
             (Fs.iterate_directories p n).
Proof.
  induction n as [c r|l w es IH] using node_tree_ind; intros p Hwf Hp.
  - done.
  - pose proof Hwf as [Hnd Hall]%wf_dir.
    rewrite embed_dir.
    destruct l; simpl; unfold Fs.iterdir at 1; rewrite Hp; [|done].
    rewrite map_map. simpl. f_equal.
    rewrite flat_map_flat_map.
    apply descend_total.
    rewrite Forall_forall in IH, Hall. apply Forall_forall.
    intros [x c] Hxc. simpl.
    assert (Fs.lookup fs (p // x) = Some c) as Hc.
    { rewrite (lookup_child _ _ _ _ _ _ Hp). by apply assoc_elem_of. }
    specialize (IH (x, c) Hxc (p // x) (Hall _ Hxc) Hc). simpl in IH.
    destruct c as [c r|l' w' es']; [done|].
    rewrite <- IH. by rewrite embed_dir.
Qed.

Lemma rglob_embed fs root :
  Fs.wf fs = true ->
  Posix.rglob (Posix.embed fs) root = Posix.Return (Fs.rglob fs root).
Proof.
  intros Hwf. unfold Posix.rglob, Fs.rglob. rewrite is_dir_embed.
  unfold Fs.is_dir. pose proof (stat_embed fs root) as H.
  destruct (Fs.lookup fs root) as [[c r|l w es]|] eqn:Hp; [done| |done].
  rewrite H. f_equal. apply glob_below_embed; eauto using lookup_wf.
Qed.

Lemma collect_directories_embed fs items :
  forall directories,
    Posix.collect_directories (Posix.embed fs) items directories
    = Posix.Return
        (directories ++ filter (fun item => Is_true (Fs.is_dir fs item)) items).
Proof.
  induction items as [|item items IH]; intros directories; simpl.
  - by rewrite app_nil_r.
  - rewrite is_dir_embed. destruct (Fs.is_dir fs item) eqn:Hd.
    + rewrite IH, filter_cons_True by (by rewrite Hd).
      by rewrite <- (assoc_L (++)).
    + rewrite IH, filter_cons_False by (rewrite Hd; exact id). done.
Qed.

Lemma enumerate_directories_embed fs root :
  Fs.wf fs = true ->
  Posix.enumerate_directories (Posix.embed fs) root
  = Posix.Return (enumerate_directories fs root).
Proof.
  intros Hwf. unfold Posix.enumerate_directories.
  by rewrite rglob_embed, collect_directories_embed.
Qed.

Lemma scan_items_embed fs directory items :
  forall local_files queued,
    Posix.scan_items (Posix.embed fs) directory items local_files queued
    = (Posix.Return
         (local_files ++ filter (fun item => Is_true (Fs.is_file fs item)) items),
       queued ++
       flat_map (fun item =>
                   if Fs.is_file fs item then [QFile item]
                   else if Fs.is_dir fs item then [QDir item]
                   else []) items).
Proof.
  induction items as [|item items IH]; intros local_files queued; simpl.
  - by rewrite !app_nil_r.
  - rewrite is_file_embed. destruct (Fs.is_file fs item) eqn:Hf.
    + rewrite IH, filter_cons_True by (by rewrite Hf).
      by rewrite <- !(assoc_L (++)).
    + rewrite is_dir_embed, filter_cons_False by (rewrite Hf; exact id).
      destruct (Fs.is_dir fs item); rewrite IH; [|done].
      by rewrite <- !(assoc_L (++)).
Qed.

(** The two [scan_directory] return the same files and queue the same
    items, and let an exception through together. *)
Lemma scan_directory_embed fs d :
  (Posix.scan_directory (Posix.embed fs) d).2 = (scan_directory fs d).2 /\
  match (scan_directory fs d).1 with
  | Ok fl => (Posix.scan_directory (Posix.embed fs) d).1 = Posix.Return fl
  | Raise _ => exists e, (Posix.scan_directory (Posix.embed fs) d).1 = Posix.Fail e
  end.
Proof.
  unfold Posix.scan_directory, scan_directory.
  pose proof (iterdir_embed fs d) as H.
  destruct (Fs.iterdir fs d) as [items|[]].
  all: first [ by rewrite H, scan_items_embed
             | by rewrite H
             | destruct H as (e & -> & He); destruct e; try done; simpl; eauto ].
Qed.

Lemma files_in_embed fs d : Posix.files_in (Posix.embed fs) d = files_in fs d.
Proof.
  unfold Posix.files_in, files_in.
  destruct (scan_directory_embed fs d) as [_ H].
  destruct (scan_directory fs d).1 as [fl|e0]; [by rewrite H|].
  by destruct H as (e & ->).
Qed.

Lemma posix_merge_results top ds :
  Posix.merge_results (map fst (map (Posix.scan_directory top) ds))
  = flat_map (Posix.files_in top) ds.
Proof. induction ds as [|d ds IH]; simpl; [done|]. by rewrite <- IH. Qed.

(** On a tree without links whose directories all grant search permission
    the scan always returns, and it builds what the scan of the plain tree
    builds. *)
Lemma scan_files_threaded_embed `{sched : Scheduler} fs root :
  Fs.wf fs = true ->
  Posix.scan_files_threaded (Posix.embed fs) root
  = Posix.Return (scan_files_threaded fs root).
Proof.
  intros Hwf. unfold Posix.scan_files_threaded, scan_files_threaded.
  rewrite exists_embed. destruct (Fs.exists_ fs root); simpl; [|done].
  rewrite enumerate_directories_embed by done. do 2 f_equal.
  - rewrite posix_merge_results, merge_results_files_in.
    apply flat_map_ext. intros d. apply files_in_embed.
  - rewrite !flat_map_concat_map, !map_map. f_equal.
    apply map_ext. intros d. apply scan_directory_embed.
Qed.

(** The independent walks agree as well. *)
Lemma walk_files_embed top n :
  forall p, Posix.walk_files top true p (Posix.embed n) = walk_files p n.
Proof.
  induction n as [c r|l w es IH] using node_tree_ind; intros p; [done|].
  rewrite embed_dir. destruct l; simpl; [|done].
  induction IH as [|[x c] es Hc _ IHes]; simpl; [done|].
  rewrite IHes. f_equal. simpl in Hc.
  destruct c as [c r|l' w' es']; [done|]. by rewrite <- Hc, embed_dir.
Qed.

(** ** The scan on any tree *)

(** The tests fail with [PermissionError] only. *)
Lemma is_file_Fail top p e :
  Posix.is_file top p = Posix.Fail e -> e = Posix.EACCES.
Proof.
  unfold Posix.is_file.
  destruct (Posix.stat top p) as [[]|[]]; simpl; congruence.
Qed.

Lemma is_dir_Fail top p e :
  Posix.is_dir top p = Posix.Fail e -> e = Posix.EACCES.
Proof.
  unfold Posix.is_dir.
  destruct (Posix.stat top p) as [[]|[]]; simpl; congruence.
Qed.

(** The loop of [scan_directory] never lets an exception through, returns
    the files it had and some entries that are regular files, and only
    ever adds to the queue. *)
Lemma scan_items_spec top d items :
  forall local_files queued,
    exists more queued',
      Posix.scan_items top d items local_files queued
      = (Posix.Return (local_files ++ more), queued ++ queued') /\
      Forall (fun f => f ∈ items /\ Posix.is_file top f = Posix.Return true) more.
Proof.
  induction items as [|item items IH]; intros local_files queued; simpl.
  - exists [], []. by rewrite !app_nil_r.
  - assert (forall lf q,
              exists more queued',
                Posix.scan_items top d items lf q
                = (Posix.Return (lf ++ more), q ++ queued') /\
                Forall (fun f => f ∈ item :: items /\
                                 Posix.is_file top f = Posix.Return true) more)
      as IH'.
    { intros lf q. destruct (IH lf q) as (more & queued' & -> & Hall).
      exists more, queued'. split; [done|].
      eapply Forall_impl; [exact Hall|]. intros f [Hf ?].
      split; [apply elem_of_cons; by right | done]. }
    destruct (Posix.is_file top item) as [[]|e] eqn:Hfile.
    + destruct (IH' (local_files ++ [item]) (queued ++ [QFile item]))
        as (more & queued' & -> & Hall).
      exists (item :: more), (QFile item :: queued'). split.
      * by rewrite <- !(assoc_L (++)).
      * constructor; [|done]. split; [apply elem_of_cons; by left | done].
    + destruct (Posix.is_dir top item) as [[]|e] eqn:Hdir.
      * destruct (IH' local_files (queued ++ [QDir item]))
          as (more & queued' & -> & Hall).
        exists more, (QDir item :: queued'). split; [|done].
        by rewrite <- !(assoc_L (++)).
      * apply IH'.
      * apply is_dir_Fail in Hdir as ->.
        exists [], [QError d]. by rewrite app_nil_r.
    + apply is_file_Fail in Hfile as ->.
      exists [], [QError d]. by rewrite app_nil_r.
Qed.

(** [scan_directory] lets through what [iterdir] raises other than
    [PermissionError], and nothing else. *)
Lemma scan_directory_cases top d :
  match Posix.iterdir top d with
  | Posix.Return items =>
      exists fl queued,
        Posix.scan_directory top d = (Posix.Return fl, queued) /\
        Forall (fun f => f ∈ items /\ Posix.is_file top f = Posix.Return true) fl
  | Posix.Fail Posix.EACCES =>
      Posix.scan_directory top d = (Posix.Return [], [QError d])
  | Posix.Fail e => Posix.scan_directory top d = (Posix.Fail e, [])
  end.
Proof.
  unfold Posix.scan_directory.
  destruct (Posix.iterdir top d) as [items|[]]; try done.
  destruct (scan_items_spec top d items [] []) as (more & queued' & -> & Hall).
  by exists more, queued'.
Qed.

Lemma files_in_is_regular top d f :
  f ∈ Posix.files_in top d ->
  Posix.is_file top f = Posix.Return true /\
  exists items, Posix.iterdir top d = Posix.Return items /\ f ∈ items.
Proof.
  unfold Posix.files_in. pose proof (scan_directory_cases top d) as H.
  destruct (Posix.iterdir top d) as [items|e].
  - destruct H as (fl & queued & -> & Hall). simpl. intros Hf.
    rewrite Forall_forall in Hall. destruct (Hall f Hf). eauto.
  - destruct e; rewrite H; simpl; by intros ?%elem_of_nil.
Qed.

(** An entry that cannot be examined ends the listing of its directory:
    the files before it are returned, those after it are not looked at. *)
Lemma scan_items_denied top d before item after :
  Forall (fun i => exists b, Posix.is_file top i = Posix.Return b /\
                             (b = false -> exists b', Posix.is_dir top i
                                                      = Posix.Return b'))
         before ->
  Posix.is_file top item = Posix.Fail Posix.EACCES \/
  (Posix.is_file top item = Posix.Return false /\
   Posix.is_dir top item = Posix.Fail Posix.EACCES) ->
  forall local_files queued,
    exists queued',
      Posix.scan_items top d (before ++ item :: after) local_files queued
      = (Posix.Return
           (local_files ++
            filter (fun i => Is_true (Posix.holds (Posix.is_file top i))) before),
         queued ++ queued' ++ [QError d]).
Proof.
  intros Hbefore Hitem.
  induction Hbefore as [|i before (b & Hfile & Hdir) _ IH];
    intros local_files queued.
  - exists []. simpl. rewrite app_nil_r.
    destruct Hitem as [->|[-> ->]]; done.
  - simpl. rewrite Hfile. destruct b.
    + destruct (IH (local_files ++ [i]) (queued ++ [QFile i])) as (queued' & ->).
      exists (QFile i :: queued').
      rewrite filter_cons_True by (by rewrite Hfile).
      by rewrite <- !(assoc_L (++)).
    + rewrite filter_cons_False by (rewrite Hfile; exact id).
      destruct (Hdir eq_refl) as [[] ->].
      * destruct (IH local_files (queued ++ [QDir i])) as (queued' & ->).
        exists (QDir i :: queued'). by rewrite <- !(assoc_L (++)).
      * apply IH.
Qed.

(** The scan on a root that exists and from which the first pass
    returns. *)
Lemma posix_scan_returns `{sched : Scheduler} top root dirs :
  Posix.exists_ top root = Posix.Return true ->
  Posix.enumerate_directories top root = Posix.Return dirs ->
  Posix.scan_files_threaded top root
  = Posix.Return
      {| all_files := flat_map (Posix.files_in top) (as_completed dirs);
         directories := dirs;
         scan_results_queue :=
           flat_map snd (map (Posix.scan_directory top) (as_completed dirs));
         scan_calls := CallRglob root :: map CallIterdir (as_completed dirs);
         scan_console := [] |}.
Proof.
  intros He Hd. unfold Posix.scan_files_threaded. rewrite He, Hd.
  by rewrite posix_merge_results.
Qed.

Lemma posix_scan_missing `{sched : Scheduler} top root :
  Posix.exists_ top root = Posix.Return false ->
  Posix.scan_files_threaded top root
  = Posix.Return
      {| all_files := [];
         directories := [];
         scan_results_queue := [];
         scan_calls := [];
         scan_console := [MsgPathMissing root] |}.
Proof. intros He. unfold Posix.scan_files_threaded. by rewrite He. Qed.

(** The first pass starts its list with the root. *)
Lemma collect_directories_prefix top items :
  forall acc dirs,
    Posix.collect_directories top items acc = Posix.Return dirs ->
    exists more, dirs = acc ++ more.
Proof.
  induction items as [|item items IH]; intros acc dirs; simpl.
  - intros [= <-]. exists []. by rewrite app_nil_r.
  - destruct (Posix.is_dir top item) as [[]|e]; [| |done].
    + intros (more & ->)%IH. exists (item :: more).
      by rewrite <- (assoc_L (++)).
    + apply IH.
Qed.

Lemma enumerate_directories_root top root dirs :
  Posix.enumerate_directories top root = Posix.Return dirs ->
  exists more, dirs = root :: more.
Proof.
  unfold Posix.enumerate_directories.
  destruct (Posix.rglob top root) as [items|e]; [|done].
  intros (more & ->)%collect_directories_prefix. by exists more.
Qed.

(** ** A root that is missing, a directory that is denied *)

(** C8. A root that does not exist ends the scan at once: the result is
    empty and the console says that the path is missing.  Otherwise, when
    the first pass has returned the directories, the scan returns: the
    result is the merge of what the listings of these directories return;
    a directory whose listing raises [PermissionError] contributes no file
    and an error item on the queue, and every other directory is still
    listed and its files are in the result.  An entry that cannot be
    examined ends the listing of its directory in the same way, with the
    files found before it returned.  The queue is not part of what the
    caller gets: two scans that enumerate the same directories and list the
    same files in them return the same list and print the same, whatever
    was denied. *)
Theorem scan_missing_root_and_permission_denied `{sched : Scheduler} top root :
  (Posix.exists_ top root = Posix.Return false ->
     exists s,
       Posix.scan_files_threaded top root = Posix.Return s /\
       all_files s = [] /\ directories s = [] /\
       scan_results_queue s = [] /\
       scan_console s = [MsgPathMissing root]) /\
  (forall dirs,
     Posix.exists_ top root = Posix.Return true ->
     Posix.enumerate_directories top root = Posix.Return dirs ->
     exists s,
       Posix.scan_files_threaded top root = Posix.Return s /\
       directories s = dirs /\
       scan_console s = [] /\
       all_files s ≡ₚ flat_map (Posix.files_in top) dirs /\
       forall d,
         d ∈ dirs ->
         (Posix.iterdir top d = Posix.Fail Posix.EACCES ->
            Posix.scan_directory top d = (Posix.Return [], [QError d]) /\
            QError d ∈ scan_results_queue s) /\
         (forall f, f ∈ Posix.files_in top d -> f ∈ all_files s)) /\
  (forall d before item after,
     Posix.iterdir top d = Posix.Return (before ++ item :: after) ->
     Forall (fun i => exists b, Posix.is_file top i = Posix.Return b /\
                                (b = false -> exists b', Posix.is_dir top i
                                                         = Posix.Return b'))
            before ->
     Posix.is_file top item = Posix.Fail Posix.EACCES \/
     (Posix.is_file top item = Posix.Return false /\
      Posix.is_dir top item = Posix.Fail Posix.EACCES) ->
     exists queued,
       Posix.scan_directory top d
       = (Posix.Return
            (filter (fun i => Is_true (Posix.holds (Posix.is_file top i))) before),
          queued ++ [QError d])) /\
  (forall top' s s',
     Posix.scan_files_threaded top root = Posix.Return s ->
     Posix.scan_files_threaded top' root = Posix.Return s' ->
     directories s = directories s' ->
     (forall d, d ∈ directories s ->
                Posix.files_in top d = Posix.files_in top' d) ->
     all_files s = all_files s' /\ scan_console s = scan_console s').
Proof.
  split_and!.
  - intros He. rewrite posix_scan_missing by done. by eexists.
  - intros dirs He Hdirs. rewrite (posix_scan_returns _ _ _ He Hdirs).
    eexists. split; [done|]. simpl. split_and!; [done|done| |].
    + by rewrite (flat_map_perm _ _ _ (as_completed_perm _ _)).
    + intros d Hd. split.
      * intros Hden. unfold Posix.scan_directory at 1. rewrite Hden.
        split; [done|].
        apply elem_of_flat_map. exists (Posix.scan_directory top d). split.
        -- apply list_elem_of_fmap. exists d. by rewrite elem_of_as_completed.
        -- unfold Posix.scan_directory. rewrite Hden.
           by apply list_elem_of_singleton.
      * intros f Hf. apply elem_of_flat_map. exists d.
        by rewrite elem_of_as_completed.
  - intros d before item after Hit Hbefore Hitem.
    unfold Posix.scan_directory. rewrite Hit.
    destruct (scan_items_denied top d before item after Hbefore Hitem [] [])
      as (queued & ->).
    by exists queued.
  - intros top' s s'. unfold Posix.scan_files_threaded.
    destruct (Posix.exists_ top root) as [[]|e]; [| |done];
      destruct (Posix.exists_ top' root) as [[]|e']; try done.
    + destruct (Posix.enumerate_directories top root) as [dirs|e]; [|done].
      destruct (Posix.enumerate_directories top' root) as [dirs'|e']; [|done].
      intros [= <-] [= <-]. simpl. intros <- Hsame. split; [|done].
      rewrite !posix_merge_results.
      assert (forall l, l ⊆ dirs ->
                flat_map (Posix.files_in top) l = flat_map (Posix.files_in top') l)
        as Hgen.
      { induction l as [|d l IH]; intros Hsub; simpl; [done|].
        rewrite IH by set_solver. f_equal. apply Hsame. set_solver. }
      apply Hgen. intros d. by rewrite elem_of_as_completed.
    + destruct (Posix.enumerate_directories top root) as [dirs|e]
        eqn:Hdirs; [|done].
      apply enumerate_directories_root in Hdirs as (more & ->).
      by intros [= <-] [= <-].
    + destruct (Posix.enumerate_directories top' root) as [dirs|e]
        eqn:Hdirs; [|done].
      apply enumerate_directories_root in Hdirs as (more & ->).
      by intros [= <-] [= <-].
    + by intros [= <-] [= <-].
Qed.

Lemma scan_missing_root_and_permission_denied_witness :
  (exists s,
     Posix.scan_files_threaded (sched := lifo_scheduler) unreadable_fs ["nowhere"]
     = Posix.Return s /\
     all_files s = [] /\ directories s = [] /\ scan_results_queue s = [] /\
     scan_console s = [MsgPathMissing ["nowhere"]]) /\
  (exists s,
     Posix.scan_files_threaded (sched := lifo_scheduler) unreadable_fs []
     = Posix.Return s /\
     QError ["locked"] ∈ scan_results_queue s /\
     ["a.txt"] ∈ all_files s) /\
  (exists queued,
     Posix.scan_directory detour_fs ["box"; "link"]
     = (Posix.Return [["box"; "link"; "ok.txt"]], queued ++ [QError ["box"; "link"]])).
Proof.
  destruct (scan_missing_root_and_permission_denied (sched := lifo_scheduler)
              unreadable_fs ["nowhere"]) as (Hmissing & _).
  destruct (scan_missing_root_and_permission_denied (sched := lifo_scheduler)
              unreadable_fs []) as (_ & Hden & _).
  destruct (scan_missing_root_and_permission_denied (sched := lifo_scheduler)
              detour_fs ["box"]) as (_ & _ & Hentry & _).
  split_and!.
  - apply Hmissing. reflexivity.
  - destruct (Hden [[]; ["locked"]] eq_refl eq_refl)
      as (s & Hs & _ & _ & _ & Hdirs).
    exists s. split; [exact Hs|].
    destruct (Hdirs ["locked"]) as [Hq _].
    { apply elem_of_cons. right. apply elem_of_cons. by left. }
    destruct (Hdirs []) as [_ Hfiles].
    { apply elem_of_cons. by left. }
    split.
    + apply Hq. reflexivity.
    + apply Hfiles. apply elem_of_cons. by left.
  - apply (Hentry ["box"; "link"] [["box"; "link"; "ok.txt"]]
             ["box"; "link"; "bad"] [["box"; "link"; "z.txt"]]).
    + reflexivity.
    + constructor; [|constructor]. exists true. split; [reflexivity | done].
    + left. reflexivity.
Defined.

(** C8, as the specification has it, fails in two ways.  A directory that
    can be read and not searched makes the scan raise [PermissionError]
    from the first pass, whatever the order of completion: the root exists,
    the directory lists, and the test of its entry is not guarded.  And
    when the scan returns, no function of what the caller is given, the
    list and the console, tells the directories whose listing was denied:
    a directory that cannot be read and the same directory empty give the
    caller the same. *)
Lemma scan_denial_aborts_or_leaves_no_record :
  (Posix.exists_ unsearchable_fs [] = Posix.Return true /\
   Posix.iterdir unsearchable_fs ["nox"] = Posix.Return [["nox"; "h.txt"]] /\
   Posix.is_dir unsearchable_fs ["nox"; "h.txt"] = Posix.Fail Posix.EACCES /\
   forall sched : Scheduler,
     Posix.scan_files_threaded unsearchable_fs [] = Posix.Fail Posix.EACCES) /\
  ~ exists error_entries : list Path -> list message -> list Path,
      forall (sched : Scheduler) top root s,
        Posix.scan_files_threaded top root = Posix.Return s ->
        forall d, d ∈ error_entries (all_files s) (scan_console s) <->
                  d ∈ directories s /\
                  Posix.iterdir top d = Posix.Fail Posix.EACCES.
Proof.
  split.
  - split_and!; [reflexivity..|]. intros sched. reflexivity.
  - intros (error_entries & Hclaim).
    pose proof (Hclaim fifo_scheduler unreadable_fs [] _ eq_refl ["locked"])
      as Hdenied.
    pose proof (Hclaim fifo_scheduler readable_fs [] _ eq_refl ["locked"])
      as Hlisted.
    simpl all_files in *. simpl scan_console in *.
    assert (["locked"] ∈ error_entries
              (all_files
                 {| all_files := [["a.txt"]]; directories := [[]; ["locked"]];
                    scan_results_queue := []; scan_calls := [];
                    scan_console := [] |}) []) as Hin.
    { apply Hdenied. split; [|reflexivity].
      apply elem_of_cons. right. apply elem_of_cons. by left. }
    apply Hlisted in Hin as [_ Hin]. discriminate Hin.
Qed.

(** ** Every file once *)

(** C9. In a tree without symbolic links whose directories all grant
    search permission and list each name once, the scan of a root that
    exists returns, and the list it returns is a rearrangement of the
    regular files that an independent recursive walk finds below the root:
    no file is missing, none is listed twice, the two counts agree, every
    entry is a regular file below the root, and a path is in the list
    exactly when it leads from the root to a regular file through
    directories that can be listed; the directories enumerated are those
    that the traversal visits.  In any tree the directories are enumerated
    first and by themselves: when that pass raises, the scan raises and
    nothing is listed; when it returns, its directories are what the scan
    then lists, each once, in the order of completion, and the result is
    the merge of the listings, every entry of which is a regular file found
    in one of them. *)
Theorem scan_lists_each_file_once `{sched : Scheduler} :
  (forall fs root n,
     Fs.wf fs = true -> Fs.lookup fs root = Some n ->
     exists s,
       Posix.scan_files_threaded (Posix.embed fs) root = Posix.Return s /\
       all_files s ≡ₚ Posix.walk_files (Posix.embed fs) true root (Posix.embed n) /\
       NoDup (all_files s) /\
       length (all_files s)
       = length (Posix.walk_files (Posix.embed fs) true root (Posix.embed n)) /\
       (forall f, f ∈ all_files s ->
                  Posix.is_file (Posix.embed fs) f = Posix.Return true /\
                  exists x r, f = root ++ x :: r) /\
       (forall f, f ∈ all_files s <->
                  exists rel, f = root ++ rel /\ reachable_file n rel) /\
       (forall l w es, n = Dir l w es ->
                       directories s ≡ₚ Fs.iterate_directories root n)) /\
  (forall top root,
     Posix.exists_ top root = Posix.Return true ->
     match Posix.enumerate_directories top root with
     | Posix.Fail e => Posix.scan_files_threaded top root = Posix.Fail e
     | Posix.Return dirs =>
         exists s listed,
           Posix.scan_files_threaded top root = Posix.Return s /\
           directories s = dirs /\
           listed ≡ₚ dirs /\
           all_files s = flat_map (Posix.files_in top) listed /\
           forall f, f ∈ all_files s ->
                     Posix.is_file top f = Posix.Return true /\
                     exists d items, d ∈ dirs /\
                                     Posix.iterdir top d = Posix.Return items /\
                                     f ∈ items
     end).
Proof.
  split.
  - intros fs root n Hwf Hp.
    rewrite scan_files_threaded_embed by done. eexists. split; [done|].
    rewrite walk_files_embed.
    destruct (scan_files_threaded_walk fs root n Hwf Hp)
      as (Hperm & Hnd & Hlen & Hfiles & Hreach & _ & Hdirs).
    split_and!; try done.
    intros f Hf. rewrite is_file_embed. destruct (Hfiles f Hf) as [-> ?]. done.
  - intros top root He.
    destruct (Posix.enumerate_directories top root) as [dirs|e] eqn:Hdirs.
    + rewrite (posix_scan_returns _ _ _ He Hdirs).
      eexists. exists (as_completed dirs). split; [done|]. simpl.
      split_and!; [done | apply as_completed_perm | done |].
      intros f (d & Hd & Hf)%elem_of_flat_map.
      apply files_in_is_regular in Hf as (Hfile & items & Hit & Hin).
      split; [done|]. exists d, items. by rewrite elem_of_as_completed in Hd.
    + unfold Posix.scan_files_threaded. by rewrite He, Hdirs.
Qed.

Lemma scan_lists_each_file_once_witness :
  (exists s,
     Posix.scan_files_threaded (sched := lifo_scheduler)
       (Posix.embed sample_fs) [] = Posix.Return s /\
     all_files s
     ≡ₚ Posix.walk_files (Posix.embed sample_fs) true [] (Posix.embed sample_fs) /\
     length (all_files s) = 11) /\
  (exists s listed,
     Posix.scan_files_threaded (sched := lifo_scheduler) linked_fs []
     = Posix.Return s /\
     directories s = [[]; ["real"]; ["link"]; ["real"; "deep"]] /\
     listed ≡ₚ [[]; ["real"]; ["link"]; ["real"; "deep"]] /\
     all_files s = flat_map (Posix.files_in linked_fs) listed).
Proof.
  destruct (scan_lists_each_file_once (sched := lifo_scheduler))
    as [Hplain Hany].
  split.
  - destruct (Hplain sample_fs [] sample_fs eq_refl eq_refl)
      as (s & Hs & Hperm & _ & Hlen & _).
    exists s. split_and!; [exact Hs | exact Hperm | exact Hlen].
  - destruct (Hany linked_fs [] eq_refl) as (s & listed & Hs & Hd & Hl & Ha & _).
    exists s, listed. split_and!; [exact Hs | exact Hd | exact Hl | exact Ha].
Defined.

(** C9, as the specification has it, fails on a directory with a link to
    it.  The root exists and the scan returns, under every order of
    completion, three paths: the file right below the link's target is
    listed under its own path and once more under the link's, where it is
    the same file, and the file deeper below the target, a regular file
    also when reached through the link, is not listed under the link's
    path.  An independent walk finds two files when it does not follow
    links and four paths when it does; the scan agrees with neither. *)
Lemma scan_lists_linked_file_twice :
  Posix.exists_ linked_fs [] = Posix.Return true /\
  Posix.walk_files linked_fs true [] linked_fs
  = [["real"; "f.txt"]; ["real"; "deep"; "g.txt"]] /\
  Posix.walk_following 4 linked_fs true [] linked_fs
  = [["real"; "f.txt"]; ["real"; "deep"; "g.txt"];
     ["link"; "f.txt"]; ["link"; "deep"; "g.txt"]] /\
  Posix.stat linked_fs ["link"; "f.txt"] = Posix.stat linked_fs ["real"; "f.txt"] /\
  Posix.is_file linked_fs ["link"; "deep"; "g.txt"] = Posix.Return true /\
  forall sched : Scheduler,
    exists s,
      Posix.scan_files_threaded linked_fs [] = Posix.Return s /\
      all_files s
      ≡ₚ [["real"; "f.txt"]; ["link"; "f.txt"]; ["real"; "deep"; "g.txt"]] /\
      length (all_files s) = 3 /\
      (["link"; "deep"; "g.txt"] ∉ all_files s) /\
      ~ (all_files s ≡ₚ Posix.walk_files linked_fs true [] linked_fs) /\
      ~ (all_files s ≡ₚ Posix.walk_following 4 linked_fs true [] linked_fs).
Proof.
  split_and!; [reflexivity..|]. intros sched.
  rewrite (posix_scan_returns linked_fs [] [[]; ["real"]; ["link"]; ["real"; "deep"]])
    by reflexivity.
  eexists. split; [done|]. simpl all_files.
  assert (flat_map (Posix.files_in linked_fs)
            (as_completed [[]; ["real"]; ["link"]; ["real"; "deep"]])
          ≡ₚ [["real"; "f.txt"]; ["link"; "f.txt"]; ["real"; "deep"; "g.txt"]])
    as Hperm.
  { by rewrite (flat_map_perm _ _ _ (as_completed_perm _ _)). }
  split_and!.
  - done.
  - by rewrite Hperm.
  - rewrite Hperm. rewrite !not_elem_of_cons. split_and!; try done.
    apply not_elem_of_nil.
  - rewrite Hperm. intros Hp. apply Permutation_length in Hp. discriminate Hp.
  - rewrite Hperm. intros Hp. apply Permutation_length in Hp. discriminate Hp.
Qed.

(** The scan loops of the sweeper agree on a tree without links. *)
Lemma scan_temp_files_embed self fs items :
  forall temp_files total_size r,
    scan_temp_files self fs items temp_files total_size = Ok r ->
    Posix.scan_temp_files self (Posix.embed fs) items temp_files total_size
    = Posix.Return r.
Proof.
  assert (forall f, Fs.is_file fs f = true ->
            exists size, Fs.st_size fs f = Ok size /\
                         Posix.st_size (Posix.embed fs) f = Posix.Return size)
    as Hsize.
  { intros f. unfold Fs.is_file, Fs.st_size, Posix.st_size.
    pose proof (stat_embed fs f) as H.
    destruct (Fs.lookup fs f) as [[c r|l w es]|]; [|done..].
    rewrite H. by eexists. }
  induction items as [|f items IH]; intros temp_files total_size r.
  - simpl. by intros [= <-].
  - cbn [scan_temp_files Posix.scan_temp_files]. rewrite is_file_embed.
    destruct (Fs.is_file fs f) eqn:Hfile; [|apply IH].
    destruct (Hsize f Hfile) as (size & -> & ->).
    destruct (PyStr.any _ (temp_extensions self)); [apply IH|].
    destruct (PyStr.any _ temp_patterns); apply IH.
Qed.
